(** * devback: snapshot engine, rotation, lock validation and hook debounce

    A shallow embedding of the Go sources of [arumata/devback]
    ([internal/usecase], [internal/adapters/lock], [cmd/app]) together with
    the properties of its specification that were checked against it.

    Conventions.
    - Go [string]s are byte strings: Rocq [string] (a list of [ascii]).
    - Go [int]/[int64] are [Z]; where the source does arithmetic that can
      leave the 64-bit range the wrap-around is written out ([wrap64]).
    - The use cases talk to the outside world through ports (Go interfaces).
      A port is a record of functions over an abstract world [W]; reads are
      functions of the world, writes return the new world.
    - Go [error] values are modelled by [error]: sentinels, wrapped errors
      ([fmt.Errorf] with [%w]) and opaque messages, with [errors_Is]. *)

From Stdlib Require Import String Ascii List ZArith Lia Bool Arith.
From Stdlib Require Import Sorting.Sorted Permutation.
From Stdlib Require Import OrderedTypeEx.
Import ListNotations.

Open Scope string_scope.
Open Scope list_scope.

(* ------------------------------------------------------------------ *)
(** ** Models of the Go standard-library functions the sources call   *)
(* ------------------------------------------------------------------ *)

Module Go.

Definition byteN (c : ascii) : N := N_of_ascii c.

Definition len (s : string) : nat := String.length s.

(** [s[:n]] and [s[n:]]. *)
Fixpoint take (n : nat) (s : string) : string :=
  match n, s with
  | S k, String c s' => String c (take k s')
  | _, _ => ""
  end.

Fixpoint drop (n : nat) (s : string) : string :=
  match n, s with
  | S k, String _ s' => drop k s'
  | _, _ => s
  end.

Fixpoint inb (c : ascii) (set : string) : bool :=
  match set with
  | "" => false
  | String d set' => Ascii.eqb c d || inb c set'
  end.

(** [strings.HasPrefix], [strings.HasSuffix]. *)
Definition HasPrefix (s p : string) : bool := String.prefix p s.

Definition HasSuffix (s suf : string) : bool :=
  (len suf <=? len s)%nat && String.eqb (drop (len s - len suf) s) suf.

(** [strings.Index]: [None] stands for Go's [-1]. *)
Fixpoint Index (s sep : string) : option nat :=
  if String.prefix sep s then Some 0%nat
  else match s with
       | "" => None
       | String _ s' => option_map S (Index s' sep)
       end.

Definition Contains (s sub : string) : bool :=
  match Index s sub with Some _ => true | None => false end.

(** [strings.LastIndex]. *)
Fixpoint LastIndex (s sep : string) : option nat :=
  match s with
  | "" => if String.prefix sep "" then Some 0%nat else None
  | String _ s' =>
      match LastIndex s' sep with
      | Some i => Some (S i)
      | None => if String.prefix sep s then Some 0%nat else None
      end
  end.

(** [strings.ContainsAny]. *)
Fixpoint ContainsAny (s chars : string) : bool :=
  match s with
  | "" => false
  | String c s' => inb c chars || ContainsAny s' chars
  end.

(** [strings.Split] for a non-empty separator (the sources only split on
    one-byte separators).  [skip] counts the bytes of a separator that has
    just been recognised and still has to be consumed. *)
Fixpoint splitLoop (sep : string) (skip : nat) (cur : string) (s : string)
  : list string :=
  match s with
  | "" => [cur]
  | String c s' =>
      match skip with
      | S k => splitLoop sep k cur s'
      | O =>
          if String.prefix sep s
          then cur :: splitLoop sep (len sep - 1) "" s'
          else splitLoop sep 0 (cur ++ String c "") s'
      end
  end.

Definition Split (s sep : string) : list string := splitLoop sep 0 "" s.

(** [strings.ReplaceAll] for a non-empty [old]. *)
Fixpoint replaceLoop (old new : string) (skip : nat) (s : string) : string :=
  match s with
  | "" => ""
  | String c s' =>
      match skip with
      | S k => replaceLoop old new k s'
      | O =>
          if String.prefix old s
          then new ++ replaceLoop old new (len old - 1) s'
          else String c (replaceLoop old new 0 s')
      end
  end.

Definition ReplaceAll (s old new : string) : string := replaceLoop old new 0 s.

(** [strings.TrimSuffix], [strings.TrimPrefix]. *)
Definition TrimSuffix (s suf : string) : string :=
  if HasSuffix s suf then take (len s - len suf) s else s.

Definition TrimPrefix (s p : string) : string :=
  if HasPrefix s p then drop (len p) s else s.

(** [strings.TrimLeft], [strings.TrimRight], [strings.Trim] for an ASCII
    cutset. *)
Fixpoint TrimLeft (s cutset : string) : string :=
  match s with
  | "" => ""
  | String c s' => if inb c cutset then TrimLeft s' cutset else s
  end.

Fixpoint TrimRight (s cutset : string) : string :=
  match s with
  | "" => ""
  | String c s' =>
      let r := TrimRight s' cutset in
      if String.eqb r "" && inb c cutset then "" else String c r
  end.

Definition Trim (s cutset : string) : string :=
  TrimRight (TrimLeft s cutset) cutset.

(** [strings.ToLower] on the ASCII letters. *)
Definition lowerByte (c : ascii) : ascii :=
  let n := byteN c in
  if ((65 <=? n) && (n <=? 90))%N then ascii_of_N (n + 32) else c.

Fixpoint ToLower (s : string) : string :=
  match s with
  | "" => ""
  | String c s' => String (lowerByte c) (ToLower s')
  end.

(** [utf8.DecodeRuneInString]: the rune and its width in bytes.  An invalid
    or short encoding decodes to [RuneError] with width 1, the empty string
    to [RuneError] with width 0. *)
Definition RuneError : N := 65533.

Definition inRange (lo hi b : N) : bool := ((lo <=? b) && (b <=? hi))%N.

Definition DecodeRuneInString (s : string) : N * nat :=
  match s with
  | "" => (RuneError, 0%nat)
  | String c0 r0 =>
      let s0 := byteN c0 in
      if (s0 <? 128)%N then (s0, 1%nat)
      else
        (* size and accepted range of the second byte, from the table [first] *)
        let '(sz, lo, hi) :=
          (if inRange 194 223 s0 then (2%nat, 128, 191)
           else if (s0 =? 224) then (3%nat, 160, 191)
           else if inRange 225 236 s0 then (3%nat, 128, 191)
           else if (s0 =? 237) then (3%nat, 128, 159)
           else if inRange 238 239 s0 then (3%nat, 128, 191)
           else if (s0 =? 240) then (4%nat, 144, 191)
           else if inRange 241 243 s0 then (4%nat, 128, 191)
           else if (s0 =? 244) then (4%nat, 128, 143)
           else (0%nat, 0, 0))%N in
        match sz with
        | O => (RuneError, 1%nat)
        | _ =>
          match r0 with
          | "" => (RuneError, 1%nat)
          | String c1 r1 =>
              let s1 := byteN c1 in
              if negb (inRange lo hi s1) then (RuneError, 1%nat)
              else if (sz <=? 2)%nat
              then (N.lor (N.shiftl (N.land s0 31) 6) (N.land s1 63), 2%nat)
              else
                match r1 with
                | "" => (RuneError, 1%nat)
                | String c2 r2 =>
                    let s2 := byteN c2 in
                    if negb (inRange 128 191 s2) then (RuneError, 1%nat)
                    else if (sz <=? 3)%nat
                    then (N.lor (N.shiftl (N.land s0 15) 12)
                            (N.lor (N.shiftl (N.land s1 63) 6) (N.land s2 63)),
                          3%nat)
                    else
                      match r2 with
                      | "" => (RuneError, 1%nat)
                      | String c3 _ =>
                          let s3 := byteN c3 in
                          if negb (inRange 128 191 s3) then (RuneError, 1%nat)
                          else (N.lor (N.shiftl (N.land s0 7) 18)
                                  (N.lor (N.shiftl (N.land s1 63) 12)
                                     (N.lor (N.shiftl (N.land s2 63) 6)
                                        (N.land s3 63))),
                                4%nat)
                      end
                end
          end
        end
  end.

(** *** [path.Match]

    Results are pairs [(matched, bad)]: [bad] stands for [ErrBadPattern]. *)

Definition isByte (c : ascii) (n : N) : bool := (byteN c =? n)%N.
Definition bSlash := 47%N.      (* '/' *)
Definition bBackslash := 92%N.  (* '\' *)
Definition bStar := 42%N.       (* '*' *)
Definition bQuestion := 63%N.   (* '?' *)
Definition bLBracket := 91%N.   (* '[' *)
Definition bRBracket := 93%N.   (* ']' *)
Definition bCaret := 94%N.      (* '^' *)
Definition bMinus := 45%N.      (* '-' *)

Fixpoint dropStars (p : string) : bool * string :=
  match p with
  | String c p' => if isByte c bStar then (true, snd (dropStars p')) else (false, p)
  | "" => (false, "")
  end.

(** Length of the chunk at the head of [p]: up to the first [*] that is
    not inside a bracket expression; a backslash protects the next byte. *)
Fixpoint scanLen (p : string) (inrange : bool) : nat :=
  match p with
  | "" => 0
  | String c p' =>
      if isByte c bBackslash then
        match p' with
        | "" => 1
        | String _ p'' => 2 + scanLen p'' inrange
        end
      else if isByte c bLBracket then 1 + scanLen p' true
      else if isByte c bRBracket then 1 + scanLen p' false
      else if isByte c bStar then (if inrange then 1 + scanLen p' inrange else 0)
      else 1 + scanLen p' inrange
  end%nat.

Definition scanChunk (pattern : string) : bool * string * string :=
  let '(star, p) := dropStars pattern in
  let i := scanLen p false in
  (star, take i p, drop i p).

(** [getEsc]: one, possibly escaped, rune of a bracket expression. *)
Definition getEsc (chunk : string) : option (N * string) :=
  match chunk with
  | "" => None
  | String c rest =>
      if isByte c bMinus || isByte c bRBracket then None
      else
        let chunk1 := if isByte c bBackslash then rest else chunk in
        if isByte c bBackslash && String.eqb rest "" then None
        else
          let '(r, n) := DecodeRuneInString chunk1 in
          let nchunk := drop n chunk1 in
          if ((r =? RuneError)%N && (n =? 1)%nat) || String.eqb nchunk ""
          then None
          else Some (r, nchunk)
  end.

(** The ranges of a bracket expression, after the optional [^].  Returns
    whether [r] is in one of them and the chunk after the closing [']']. *)
Fixpoint classLoop (fuel : nat) (chunk : string) (r : N) (matched : bool)
  (nrange : nat) : option (bool * string) :=
  match fuel with
  | O => None
  | S fuel' =>
      match chunk with
      | String c rest =>
          if isByte c bRBracket && (0 <? nrange)%nat then Some (matched, rest)
          else classRange fuel' chunk r matched nrange
      | "" => classRange fuel' chunk r matched nrange
      end
  end
with classRange (fuel : nat) (chunk : string) (r : N) (matched : bool)
  (nrange : nat) : option (bool * string) :=
  match fuel with
  | O => None
  | S fuel' =>
      match getEsc chunk with
      | None => None
      | Some (lo, chunk1) =>
          match chunk1 with
          | String d rest1 =>
              if isByte d bMinus then
                match getEsc rest1 with
                | None => None
                | Some (hi, chunk2) =>
                    classLoop fuel' chunk2 r
                      (matched || ((lo <=? r) && (r <=? hi))%N) (S nrange)
                end
              else classLoop fuel' chunk1 r
                     (matched || ((lo <=? r) && (r <=? lo))%N) (S nrange)
          | "" => None
          end
      end
  end.

(** [matchChunk]: [None] is [ErrBadPattern]; [Some (rest, ok)] otherwise.
    Once the match has failed the chunk is still parsed to the end, so that
    a malformed pattern is reported, but the name is no longer read. *)
Fixpoint matchChunkLoop (fuel : nat) (chunk s : string) (failed : bool)
  : option (string * bool) :=
  match fuel with
  | O => None
  | S fuel' =>
      match chunk with
      | "" => if failed then Some ("", false) else Some (s, true)
      | String c chunk' =>
          let failed := failed || String.eqb s "" in
          if isByte c bLBracket then
            let '(r, n) := if failed then (0%N, 0%nat) else DecodeRuneInString s in
            let s1 := if failed then s else drop n s in
            let '(negated, chunk1) :=
              match chunk' with
              | String d rest => if isByte d bCaret then (true, rest) else (false, chunk')
              | "" => (false, chunk')
              end in
            match classLoop (2 * len chunk1 + 2) chunk1 r false 0 with
            | None => None
            | Some (matched, chunk2) =>
                matchChunkLoop fuel' chunk2 s1 (failed || Bool.eqb matched negated)
            end
          else if isByte c bQuestion then
            if failed then matchChunkLoop fuel' chunk' s failed
            else
              let failed1 := match s with
                             | String d _ => isByte d bSlash
                             | "" => false
                             end in
              let '(_, n) := DecodeRuneInString s in
              matchChunkLoop fuel' chunk' (drop n s) failed1
          else
            let lit :=
              if isByte c bBackslash then
                match chunk' with
                | "" => None
                | String d rest => Some (d, rest)
                end
              else Some (c, chunk') in
            match lit with
            | None => None
            | Some (d, rest) =>
                if failed then matchChunkLoop fuel' rest s failed
                else
                  match s with
                  | String e s' => matchChunkLoop fuel' rest s' (negb (Ascii.eqb d e))
                  | "" => matchChunkLoop fuel' rest s true
                  end
            end
      end
  end.

Definition matchChunk (chunk s : string) : option (string * bool) :=
  matchChunkLoop (S (len chunk)) chunk s false.

(** After a failed match the rest of the pattern is still checked for
    syntax errors. *)
Fixpoint restIsBad (fuel : nat) (pattern : string) : bool :=
  match fuel with
  | O => false
  | S fuel' =>
      match pattern with
      | "" => false
      | _ =>
          let '(_, chunk, rest) := scanChunk pattern in
          match matchChunk chunk "" with
          | None => true
          | Some _ => restIsBad fuel' rest
          end
      end
  end.

(** The inner loop of [Match] for a chunk preceded by [*]: try the chunk
    after skipping [i+1] bytes, never skipping a [/]. *)
Fixpoint starLoop (chunk : string) (lastChunk : bool) (name : string)
  : option (option string) :=
  match name with
  | "" => Some None
  | String c name' =>
      if isByte c bSlash then Some None
      else
        match matchChunk chunk name' with
        | None => None
        | Some (t, true) =>
            if lastChunk && negb (String.eqb t "")
            then starLoop chunk lastChunk name'
            else Some (Some t)
        | Some (_, false) => starLoop chunk lastChunk name'
        end
  end.

Fixpoint matchLoop (fuel : nat) (pattern name : string) : bool * bool :=
  match fuel with
  | O => (false, true)
  | S fuel' =>
      match pattern with
      | "" => (String.eqb name "", false)
      | _ =>
          let '(star, chunk, rest) := scanChunk pattern in
          if star && String.eqb chunk "" then (negb (Contains name "/"), false)
          else
            let fail := (false, restIsBad (S (len rest)) rest) in
            match matchChunk chunk name with
            | Some (t, true) =>
                if String.eqb t "" || negb (String.eqb rest "")
                then matchLoop fuel' rest t
                else if star then
                  match starLoop chunk (String.eqb rest "") name with
                  | None => (false, true)
                  | Some (Some t') => matchLoop fuel' rest t'
                  | Some None => fail
                  end
                else fail
            | Some (_, false) =>
                if star then
                  match starLoop chunk (String.eqb rest "") name with
                  | None => (false, true)
                  | Some (Some t') => matchLoop fuel' rest t'
                  | Some None => fail
                  end
                else fail
            | None => (false, true)
            end
      end
  end.

Definition Match (pattern name : string) : bool * bool :=
  matchLoop (S (len pattern)) pattern name.

(** [path.Base]. *)
Definition Base (path : string) : string :=
  if String.eqb path "" then "."
  else
    let p := TrimRight path "/" in
    let p := match LastIndex p "/" with
             | Some i => drop (S i) p
             | None => p
             end in
    if String.eqb p "" then "/" else p.

(** *** [strings.TrimSpace]

    [unicode.IsSpace] on the decoded runes; the ASCII fast path of the Go
    implementation computes the same slice. *)
Definition IsSpace (r : N) : bool :=
  (inRange 9 13 r || (r =? 32) || (r =? 133) || (r =? 160) || (r =? 5760)
   || inRange 8192 8202 r || (r =? 8232) || (r =? 8233) || (r =? 8239)
   || (r =? 8287) || (r =? 12288))%N.

Definition RuneStart (c : ascii) : bool :=
  negb (N.land (byteN c) 192 =? 128)%N.

Definition byteAt (s : string) (i : nat) : option ascii := String.get i s.

(** [utf8.DecodeLastRuneInString]. *)
Definition DecodeLastRuneInString (s : string) : N * nat :=
  let e := len s in
  match e with
  | O => (RuneError, 0%nat)
  | S e1 =>
      match byteAt s e1 with
      | None => (RuneError, 0%nat)
      | Some c =>
          if (byteN c <? 128)%N then (byteN c, 1%nat)
          else
            let try (k : nat) (otherwise : N * nat) : N * nat :=
              if (k <=? e)%nat then
                match byteAt s (e - k) with
                | Some d =>
                    if RuneStart d then
                      let '(r, size) := DecodeRuneInString (drop (e - k) s) in
                      if (size =? k)%nat then (r, size) else (RuneError, 1%nat)
                    else otherwise
                | None => otherwise
                end
              else (RuneError, 1%nat) in
            try 2%nat (try 3%nat (try 4%nat (RuneError, 1%nat)))
      end
  end.

Fixpoint trimLeftSpace (fuel : nat) (s : string) : string :=
  match fuel with
  | O => s
  | S fuel' =>
      let '(r, n) := DecodeRuneInString s in
      if (0 <? n)%nat && IsSpace r then trimLeftSpace fuel' (drop n s) else s
  end.

Fixpoint trimRightSpace (fuel : nat) (s : string) : string :=
  match fuel with
  | O => s
  | S fuel' =>
      let '(r, n) := DecodeLastRuneInString s in
      if (0 <? n)%nat && IsSpace r
      then trimRightSpace fuel' (take (len s - n) s)
      else s
  end.

Definition TrimSpace (s : string) : string :=
  let s1 := trimLeftSpace (len s) s in
  trimRightSpace (len s1) s1.

(** *** [strconv.ParseInt (s, 10, 64)]: [None] for a syntax or range error. *)
Definition digitVal (c : ascii) : option Z :=
  let n := byteN c in
  if inRange 48 57 n then Some (Z.of_N n - 48)%Z else None.

Fixpoint parseDigits (s : string) (acc : Z) : option Z :=
  match s with
  | "" => Some acc
  | String c s' =>
      match digitVal c with
      | Some d => parseDigits s' (10 * acc + d)%Z
      | None => None
      end
  end.

Definition ParseInt (s : string) : option Z :=
  match s with
  | "" => None
  | String c s' =>
      let neg := isByte c bMinus in
      let body := if isByte c 43%N || neg then s' else s in
      match body with
      | "" => None
      | _ =>
          match parseDigits body 0%Z with
          | None => None
          | Some un =>
              if negb neg && (2 ^ 63 <=? un)%Z then None
              else if neg && (2 ^ 63 <? un)%Z then None
              else Some (if neg then - un else un)%Z
          end
      end
  end.

(** *** [fmt]: the verbs [%d], [%02d] and [%09d] on non-negative numbers
    (at most 20 decimal digits, which covers [int64]). *)
Definition digitChar (n : N) : ascii := ascii_of_N (48 + n).

Fixpoint natDigits (fuel : nat) (n : N) (acc : string) : string :=
  match fuel with
  | O => acc
  | S fuel' =>
      let acc' := String (digitChar (n mod 10)) acc in
      if (n <? 10)%N then acc' else natDigits fuel' (n / 10) acc'
  end.

Definition itoa (n : N) : string := natDigits 20 n "".

Fixpoint zeros (k : nat) : string :=
  match k with O => "" | S k' => String "0"%char (zeros k') end.

Definition padZero (width : nat) (n : N) : string :=
  let d := itoa n in zeros (width - len d) ++ d.

(** [%d] on an [int64]. *)
Definition fmtInt (z : Z) : string :=
  if (z <? 0)%Z then "-" ++ itoa (Z.to_N (- z)) else itoa (Z.to_N z).

(** [strings.Fields]: the maximal runs of non-space runes. *)
Fixpoint fieldsLoop (fuel : nat) (s cur : string) : list string :=
  match fuel with
  | O => if String.eqb cur "" then [] else [cur]
  | S fuel' =>
      match s with
      | "" => if String.eqb cur "" then [] else [cur]
      | _ =>
          let '(r, n) := DecodeRuneInString s in
          if IsSpace r
          then (if String.eqb cur "" then [] else [cur])
                 ++ fieldsLoop fuel' (drop n s) ""
          else fieldsLoop fuel' (drop n s) (cur ++ take n s)
      end
  end.

Definition Fields (s : string) : list string := fieldsLoop (len s) s "".

(** *** 64-bit two's-complement wrap-around of [int64] arithmetic. *)
Definition wrap64 (z : Z) : Z := ((z + 2 ^ 63) mod 2 ^ 64 - 2 ^ 63)%Z.

Definition minInt64 : Z := (- 2 ^ 63)%Z.
Definition maxInt64 : Z := (2 ^ 63 - 1)%Z.

Definition inInt64 (z : Z) : Prop := (minInt64 <= z <= maxInt64)%Z.

End Go.

(* ------------------------------------------------------------------ *)
(** ** Errors                                                          *)
(* ------------------------------------------------------------------ *)

Module Err.

(** The sentinel errors that the sources compare against with
    [errors.Is] or classify through the filesystem port. *)
Inductive sentinel : Type :=
| ErrCritical | ErrUsage | ErrLockBusy | ErrInterrupted
| ctxCanceled | ctxDeadlineExceeded
| osErrNotExist | osErrExist | osErrPermission | sysENOTDIR.

Definition sentinel_eqb (a b : sentinel) : bool :=
  match a, b with
  | ErrCritical, ErrCritical | ErrUsage, ErrUsage
  | ErrLockBusy, ErrLockBusy | ErrInterrupted, ErrInterrupted
  | ctxCanceled, ctxCanceled | ctxDeadlineExceeded, ctxDeadlineExceeded
  | osErrNotExist, osErrNotExist | osErrExist, osErrExist
  | osErrPermission, osErrPermission | sysENOTDIR, sysENOTDIR => true
  | _, _ => false
  end.

(** [Wrap msg e] is [fmt.Errorf (msg ++ ": %w", e)]; [Opaque msg] is an
    error that wraps nothing.  Message texts are kept short: only
    identities are compared. *)
Inductive error : Type :=
| Sentinel (s : sentinel)
| Wrap (msg : string) (e : error)
| Opaque (msg : string).

Fixpoint errors_Is (e : error) (target : sentinel) : bool :=
  match e with
  | Sentinel s => sentinel_eqb s target
  | Wrap _ e' => errors_Is e' target
  | Opaque _ => false
  end.

(** A Go result [(T, error)]. *)
Definition result (T : Type) : Type := (error + T)%type.

End Err.

(* ------------------------------------------------------------------ *)
(** ** Ports (usecase/ports.go, usecase/types.go)                      *)
(* ------------------------------------------------------------------ *)

Module Ports.
Import Err.

(** [usecase.FileInfo]. *)
Record FileInfo : Type := {
  Name : string;
  Size : Z;
  Mode : Z;
  ModTime : Z;          (* an instant of the time library, see [GoTime] *)
  IsDir : bool;
  IsSymlink : bool;
  IsRegular : bool
}.

(** [usecase.DirEntry]. *)
Record DirEntry : Type := { EntryName : string; EntryIsDir : bool }.

(** One invocation of a [WalkFunc]: [walkFn(path, info, err)]. *)
Record WalkStep : Type := {
  StepPath : string;
  StepInfo : option FileInfo;
  StepErr : option error
}.

(** [usecase.FileSystemPort] over a world [W].  Reads are functions of the
    world; writes return the error (if any) and the new world.  [Walk]
    yields the sequence of callback invocations, read from the world in
    which the walk starts. *)
Record FileSystemPort (W : Type) : Type := {
  ReadFile : string -> W -> result string;
  WriteFile : string -> string -> Z -> W -> option error * W;
  CreateDir : string -> Z -> W -> option error * W;
  RemoveAll : string -> W -> option error * W;
  Stat : string -> W -> result FileInfo;
  Lstat : string -> W -> result FileInfo;
  Walk : string -> W -> list WalkStep;
  ReadDir : string -> W -> result (list DirEntry);
  CreateDirExclusive : string -> Z -> W -> option error * W;
  Copy : string -> string -> W -> option error * W;
  Move : string -> string -> W -> option error * W;
  Readlink : string -> W -> result string;
  Symlink : string -> string -> W -> option error * W;
  Chmod : string -> Z -> W -> option error * W;
  Join : list string -> string;
  PathBase : string -> string;
  PathDir : string -> string;
  Rel : string -> string -> result string;
  IsNotExist : error -> bool;
  IsExist : error -> bool;
  IsPermission : error -> bool
}.

Arguments ReadFile {W}. Arguments WriteFile {W}. Arguments CreateDir {W}.
Arguments RemoveAll {W}. Arguments Stat {W}. Arguments Lstat {W}.
Arguments Walk {W}. Arguments ReadDir {W}. Arguments CreateDirExclusive {W}.
Arguments Copy {W}. Arguments Move {W}. Arguments Readlink {W}.
Arguments Symlink {W}. Arguments Chmod {W}. Arguments Join {W}.
Arguments PathBase {W}. Arguments PathDir {W}. Arguments Rel {W}.
Arguments IsNotExist {W}. Arguments IsExist {W}. Arguments IsPermission {W}.

(** The part of [usecase.GitPort] used by the snapshot engine. *)
Record GitPort (W : Type) : Type := {
  GitDir : string -> W -> result string;
  GitCommonDir : string -> W -> result string;
  ListIgnoredUntracked : string -> W -> result (list string)
}.

Arguments GitDir {W}. Arguments GitCommonDir {W}.
Arguments ListIgnoredUntracked {W}.

(** The Go time library as far as the sources use it.  [Sub] is
    [Time.Sub] (a [Duration] in nanoseconds), [Unix s] is [time.Unix(s, 0)],
    [FormatDate] and [FormatClock] are [Format] with the layouts
    ["2006-01-02"] and ["150405"]. *)
Record GoTime : Type := {
  Time : Type;
  Sub : Time -> Time -> Z;
  Unix : Z -> Time;
  FormatDate : Time -> string;
  FormatClock : Time -> string;
  Nanosecond : Time -> N;
  OfInstant : Z -> Time      (* the [Time] behind a [FileInfo.ModTime] *)
}.

(** What a use case receives besides its arguments: the adapters, the
    cancellation state of its context and the clock. *)
Record Dependencies (T : GoTime) (W : Type) : Type := {
  FileSystem : FileSystemPort W;
  Git : GitPort W;
  ctxErr : W -> option error;      (* [ctx.Err()] *)
  Now : W -> Time T                (* [time.Now()] *)
}.

Arguments FileSystem {T W}. Arguments Git {T W}.
Arguments ctxErr {T W}. Arguments Now {T W}.

Definition Second : Z := 1000000000.
Definition Hour : Z := 3600 * Second.

End Ports.

(* ------------------------------------------------------------------ *)
(** ** Exclude list (usecase/backup.go: readDevbackIgnore, shouldSkip) *)
(* ------------------------------------------------------------------ *)

Module Exclude.
Import Go.

Definition backslash : string := String (ascii_of_nat 92) "".
Definition CR : string := String (ascii_of_nat 13) "".
Definition LF : string := String (ascii_of_nat 10) "".

(** The body of the loop of [readDevbackIgnore] over the lines of the
    file. *)
Fixpoint ignoreLines (lines : list string) : list string :=
  match lines with
  | [] => []
  | line :: rest =>
      let line := ReplaceAll line CR "" in
      let line := TrimSpace line in
      if String.eqb line "" || HasPrefix line "#" then ignoreLines rest
      else TrimSuffix line "/" :: ignoreLines rest
  end.

Definition parseDevbackIgnore (data : string) : list string :=
  ignoreLines (Split data LF).

(** [shouldSkip]: the loop over [excludes], with [normalizedPath] computed
    once before it. *)
Fixpoint shouldSkipLoop (normalizedPath : string) (excludes : list string)
  : bool * string :=
  match excludes with
  | [] => (false, "")
  | ex :: rest =>
      let pattern := ReplaceAll ex backslash "/" in
      let hasMeta := ContainsAny pattern "*?[" in
      let hasSlash := Contains pattern "/" in
      if hasMeta then
        if hasSlash then
          if fst (Match pattern normalizedPath) then (true, ex)
          else shouldSkipLoop normalizedPath rest
        else if fst (Match pattern (Base normalizedPath)) then (true, ex)
        else shouldSkipLoop normalizedPath rest
      else if String.eqb normalizedPath pattern
              || HasPrefix normalizedPath (pattern ++ "/")
      then (true, ex)
      else shouldSkipLoop normalizedPath rest
  end.

Definition shouldSkip (p : string) (excludes : list string) : bool * string :=
  shouldSkipLoop (ReplaceAll p backslash "/") excludes.

(** The filter of [copyRepoSnapshot]: the paths that are kept. *)
Definition keepPaths (allPaths excludes : list string) : list string :=
  filter (fun p => negb (fst (shouldSkip p excludes))) allPaths.

(** The matching rule in the words of the specification (Phase D), on a
    path and a pattern taken as they are. *)
Definition specPatternMatches (pattern p : string) : bool :=
  if ContainsAny pattern "*?[" then
    if Contains pattern "/" then fst (Match pattern p)
    else fst (Match pattern (Base p))
  else String.eqb p pattern || HasPrefix p (pattern ++ "/").

Definition specSkips (p : string) (excludes : list string) : bool :=
  existsb (fun pattern => specPatternMatches pattern p) excludes.

End Exclude.

(* ------------------------------------------------------------------ *)
(** ** Remote parsing (usecase/backup.go: parseRemote)                 *)
(* ------------------------------------------------------------------ *)

Module RepoKey.
Import Go.

(** The fields of [net/url.URL] that [parseRemote] reads. *)
Record URL : Type := { Host : string; Path : string }.

Definition lastTwo (parts : list string) : string * string :=
  (nth (length parts - 2) parts "", nth (length parts - 1) parts "").

Section ParseRemote.

(** [net/url.Parse] is library code: it is a parameter of the model.
    [None] stands for a parse error. *)
Variable url_Parse : string -> option URL.

Definition parseRemote (remote : string) : string * string * string :=
  let scp :=
    match Index remote ":" with
    | Some i =>
        if Contains (take i remote) "@" && negb (Contains remote "://") then
          let left := take i remote in
          let right := drop (S i) remote in
          let host := match LastIndex left "@" with
                      | Some a => drop (S a) left
                      | None => left
                      end in
          let parts := Split (TrimSuffix right ".git") "/" in
          if (2 <=? length parts)%nat
          then Some (host, fst (lastTwo parts), snd (lastTwo parts))
          else None
        else None
    | None => None
    end in
  match scp with
  | Some triple => triple
  | None =>
      match url_Parse remote with
      | Some u =>
          if negb (String.eqb (Host u) "") then
            let p := Trim (TrimSuffix (Path u) ".git") "/" in
            let parts := Split p "/" in
            if (2 <=? length parts)%nat
            then (Host u, fst (lastTwo parts), snd (lastTwo parts))
            else ("", "", "")
          else ("", "", "")
      | None => ("", "", "")
      end
  end.

End ParseRemote.

(** The check every caller of [parseRemote] makes
    ([h == "" || o == "" || r == ""]): the remote is not usable. *)
Definition unusable (t : string * string * string) : bool :=
  let '(h, o, r) := t in
  String.eqb h "" || String.eqb o "" || String.eqb r "".

(** The path segments of the specification: the non-empty components of
    the path once a trailing [.git] is stripped. *)
Definition specSegments (path : string) : list string :=
  filter (fun s => negb (String.eqb s "")) (Split (TrimSuffix path ".git") "/").

(** A small instance of [url_Parse] for absolute URLs
    [scheme://[user@]host/path] without query, fragment or escapes, and
    rejecting, as Go does, a scheme-less first path segment that contains a
    colon.  It is used to run [parseRemote] on examples. *)
Definition isSchemeByte (c : ascii) : bool :=
  let n := byteN c in
  inRange 97 122 n || inRange 65 90 n || inRange 48 57 n
  || (n =? 43)%N || (n =? 45)%N || (n =? 46)%N.

Fixpoint allb (f : ascii -> bool) (s : string) : bool :=
  match s with
  | "" => true
  | String c s' => f c && allb f s'
  end.

Definition url_Parse_lite (rawURL : string) : option URL :=
  match Index rawURL "://" with
  | Some i =>
      let scheme := take i rawURL in
      if negb (String.eqb scheme "") && allb isSchemeByte scheme then
        let rest := drop (i + 3) rawURL in
        let '(authority, path) :=
          match Index rest "/" with
          | Some j => (take j rest, drop j rest)
          | None => (rest, "")
          end in
        let host := match LastIndex authority "@" with
                    | Some a => drop (S a) authority
                    | None => authority
                    end in
        Some {| Host := host; Path := path |}
      else None
  | None =>
      if HasPrefix rawURL "/" then Some {| Host := ""; Path := rawURL |}
      else
        let segment := match Index rawURL "/" with
                       | Some j => take j rawURL
                       | None => rawURL
                       end in
        if Contains segment ":" then None
        else Some {| Host := ""; Path := rawURL |}
  end.

End RepoKey.

(* ------------------------------------------------------------------ *)
(** ** Cross-process lock (adapters/lock/lock.go)                      *)
(* ------------------------------------------------------------------ *)

Module Lock.
Import Go Err Ports.

Section LockAdapter.

Context (T : GoTime).

(** [usecase.LockInfo]. *)
Record LockInfo : Type := {
  PID : Z;
  StartTime : Time T;
  RepoPath : string;
  BackupDir : string;
  Hostname : string;
  ProcessStartTicks : Z;
  ProcessStartID : string
}.

(** The operating system as the adapter observes it.  Decoding of the
    [info] file (JSON, or the legacy three-line form) is behind
    [readLockInfo]; the platform files [lock_process_*.go],
    [lock_darwin.go] and [lock_windows.go] are behind [isProcessRunning],
    [getProcessStartTimeDarwin] and [getProcessStartTimeWindows]. *)
Record LockOS : Type := {
  GOOS : string;                                  (* [runtime.GOOS] *)
  timeNow : Time T;                               (* [time.Now()] *)
  osHostname : result string;                     (* [os.Hostname()] *)
  readLockInfo : string -> result LockInfo;
  readProcStat : Z -> result string;              (* [/proc/<pid>/stat] *)
  getProcessStartTimeDarwin : Z -> option Z;      (* [UnixNano] of the start *)
  getProcessStartTimeWindows : Z -> option Z;
  isProcessRunning : Z -> bool
}.

Variable os : LockOS.

Definition osLinux : string := "linux".
Definition osDarwin : string := "darwin".

(** [getProcessStartTicks]: field 22 of [/proc/<pid>/stat]. *)
Definition getProcessStartTicks (pid : Z) : option Z :=
  if (pid <=? 0)%Z then None
  else if negb (String.eqb (GOOS os) osLinux) then None
  else
    match readProcStat os pid with
    | inl _ => None
    | inr data =>
        let parts := Fields data in
        if (length parts <? 22)%nat then None
        else ParseInt (nth 21 parts "")
    end.

(** [getProcessStartID]: [None] stands for [("", false)]. *)
Definition getProcessStartID (pid : Z) : option string :=
  if (pid <=? 0)%Z then None
  else if String.eqb (GOOS os) osLinux then
    match getProcessStartTicks pid with
    | Some ticks => Some ("ticks:" ++ fmtInt ticks)%string
    | None => None
    end
  else if String.eqb (GOOS os) osDarwin then
    match getProcessStartTimeDarwin os pid with
    | Some nanos => Some ("lstart:" ++ fmtInt nanos)%string
    | None => None
    end
  else if String.eqb (GOOS os) "windows" then
    match getProcessStartTimeWindows os pid with
    | Some nanos => Some ("ctime:" ++ fmtInt nanos)%string
    | None => None
    end
  else None.

(** The tail of [validateLockFile] after the process-start-id block: the
    start ticks, then liveness of the PID. *)
Definition validateByTicksOrLiveness (info : LockInfo) : bool :=
  let ticksVerdict :=
    if negb (ProcessStartTicks info =? 0)%Z then
      match getProcessStartTicks (PID info) with
      | Some ticks => Some (ticks =? ProcessStartTicks info)%Z
      | None => None
      end
    else None in
  match ticksVerdict with
  | Some v => v
  | None => isProcessRunning os (PID info)
  end.

(** [validateLockFile]: [true] when the lock is still held. *)
Definition validateLockFile (lockPath : string) (maxAge : Z) : bool :=
  match readLockInfo os lockPath with
  | inl _ => false
  | inr info =>
      if (maxAge <? Sub T (timeNow os) (StartTime info))%Z then false
      else
        let otherHost :=
          if negb (String.eqb (Hostname info) "") then
            match osHostname os with
            | inr hostname => negb (String.eqb hostname (Hostname info))
            | inl _ => false
            end
          else false in
        if otherHost then true
        else
          let idVerdict :=
            if negb (String.eqb (ProcessStartID info) "") then
              match getProcessStartID (PID info) with
              | Some id => Some (String.eqb id (ProcessStartID info))
              | None => None
              end
            else None in
          match idVerdict with
          | Some v => v
          | None => validateByTicksOrLiveness info
          end
  end.

(** The verdict of [AcquireLock] and [IsLocked], which validate with
    [24*time.Hour]. *)
Definition lockIsHeld (lockPath : string) : bool :=
  validateLockFile lockPath (24 * Hour).

End LockAdapter.

Arguments PID {T}. Arguments StartTime {T}. Arguments RepoPath {T}.
Arguments BackupDir {T}. Arguments Hostname {T}.
Arguments ProcessStartTicks {T}. Arguments ProcessStartID {T}.
Arguments GOOS {T}. Arguments timeNow {T}. Arguments osHostname {T}.
Arguments readLockInfo {T}. Arguments readProcStat {T}.
Arguments getProcessStartTimeDarwin {T}.
Arguments getProcessStartTimeWindows {T}. Arguments isProcessRunning {T}.
Arguments getProcessStartTicks {T}. Arguments getProcessStartID {T}.
Arguments validateByTicksOrLiveness {T}. Arguments validateLockFile {T}.
Arguments lockIsHeld {T}.

End Lock.

(* ------------------------------------------------------------------ *)
(** ** Rotation (usecase/backup.go: listSnapshots ... rotateRepo)      *)
(* ------------------------------------------------------------------ *)

Module Rotation.
Import Go Err Ports.

(** [usecase.Config], the fields read by backup and rotation.  The
    integer fields are Go [int]s: integers of the 64-bit range. *)
Record Config : Type := {
  BackupDir : string;
  Verbose : bool;
  DryRun : bool;
  KeepCount : Z;
  KeepDays : Z;
  MaxTotalGBPerRepo : Z;
  SizeMarginMB : Z;
  NoSize : bool
}.

Record snapshot : Type := { DateDir : string; TimeDir : string; Done : string }.

Definition isDigit (c : ascii) : bool := inRange 48 57 (byteN c).

Definition digitAt (s : string) (i : nat) : bool :=
  match byteAt s i with Some c => isDigit c | None => false end.

Definition isByteAt (s : string) (i : nat) (n : N) : bool :=
  match byteAt s i with Some c => isByte c n | None => false end.

Definition matchDateDir (name : string) : bool :=
  if negb (len name =? 10)%nat then false
  else if negb (isByteAt name 4 bMinus) || negb (isByteAt name 7 bMinus) then false
  else forallb (digitAt name) [0; 1; 2; 3; 5; 6; 8; 9]%nat.

Definition sixDigits (s : string) : bool :=
  forallb (digitAt s) [0; 1; 2; 3; 4; 5]%nat.

Definition allDigits (part : string) : bool := RepoKey.allb isDigit part.

Definition matchTimeDir (name : string) : bool :=
  let parts := Split name "-" in
  match parts with
  | [_] => if negb (len name =? 6)%nat then false else sixDigits name
  | p0 :: rest =>
      if negb (len p0 =? 6)%nat then false
      else if negb (sixDigits p0) then false
      else forallb (fun part => negb (String.eqb part "") && allDigits part) rest
  | [] => false
  end.

(** [sort.Slice(snaps, TimeDir less)].  Equal keys only arise for equal
    paths, so the order of ties, which Go leaves open, is immaterial. *)
Fixpoint insertSnapshot (s : snapshot) (l : list snapshot) : list snapshot :=
  match l with
  | [] => [s]
  | x :: r =>
      if String.ltb (TimeDir s) (TimeDir x) then s :: l
      else x :: insertSnapshot s r
  end.

Definition sortSnapshots (l : list snapshot) : list snapshot :=
  fold_right insertSnapshot [] l.

Section Rotate.

Context {T : GoTime} {W : Type} (deps : Dependencies T W).

Let fs := FileSystem deps.

(** The inner loop of [listSnapshots] over the entries of a date
    directory [dd]. *)
Definition timeDirSnapshots (dd : string) (timeDirs : list DirEntry) (w : W)
  : list snapshot :=
  flat_map
    (fun t =>
       if negb (EntryIsDir t) then []
       else if negb (matchTimeDir (EntryName t)) then []
       else
         let td := Join fs [dd; EntryName t] in
         let donePath := Join fs [td; ".done"] in
         match Stat fs donePath w with
         | inr _ => [{| DateDir := dd; TimeDir := td; Done := donePath |}]
         | inl _ => []
         end)
    timeDirs.

Definition listSnapshots (repoDir : string) (w : W) : result (list snapshot) :=
  match ReadDir fs repoDir w with
  | inl err => inl err
  | inr dateDirs =>
      let snaps :=
        flat_map
          (fun d =>
             if negb (EntryIsDir d) then []
             else if negb (matchDateDir (EntryName d)) then []
             else
               let dd := Join fs [repoDir; EntryName d] in
               match ReadDir fs dd w with
               | inl _ => []
               | inr timeDirs => timeDirSnapshots dd timeDirs w
               end)
          dateDirs in
      inr (sortSnapshots snaps)
  end.

(** [dirSizeKB]: the callback never returns an error, so neither does the
    walk; only the size is returned. *)
Definition dirSizeBytes (root : string) (w : W) : Z :=
  fold_left
    (fun total step =>
       match StepErr step with
       | Some _ => total
       | None =>
           match StepInfo step with
           | Some info => if IsRegular info then wrap64 (total + Size info) else total
           | None => total
           end
       end)
    (Walk fs root w) 0%Z.

Definition dirSizeKB (root : string) (w : W) : Z :=
  Z.quot (wrap64 (dirSizeBytes root w + 1023)) 1024.

(** [removeSnapshot]. *)
Definition removeSnapshot (s : snapshot) (w : W) : W :=
  let w1 := snd (RemoveAll fs (TimeDir s) w) in
  match ReadDir fs (DateDir s) w1 with
  | inr [] => snd (RemoveAll fs (DateDir s) w1)
  | _ => w1
  end.

Definition removeUnlessDryRun (dryRun : bool) (s : snapshot) (w : W) : W :=
  if dryRun then w else removeSnapshot s w.

(** [applyKeepDays]: the loop, then the guard. *)
Fixpoint keepDaysLoop (dryRun : bool) (limit : Z) (now : Time T)
  (snaps : list snapshot) (alive : list bool) (w : W) : list bool * W :=
  match snaps, alive with
  | s :: snaps', a :: alive' =>
      if negb a then
        let '(r, w') := keepDaysLoop dryRun limit now snaps' alive' w in
        (a :: r, w')
      else
        match Stat fs (Done s) w with
        | inl _ =>
            let '(r, w') := keepDaysLoop dryRun limit now snaps' alive' w in
            (a :: r, w')
        | inr fi =>
            if (limit <? Sub T now (OfInstant T (ModTime fi)))%Z then
              let w1 := removeUnlessDryRun dryRun s w in
              let '(r, w') := keepDaysLoop dryRun limit now snaps' alive' w1 in
              (false :: r, w')
            else
              let '(r, w') := keepDaysLoop dryRun limit now snaps' alive' w in
              (a :: r, w')
        end
  | _, _ => (alive, w)
  end.

Definition applyKeepDays (cfg : Config) (dryRun : bool)
  (snaps : list snapshot) (alive : list bool) (now : Time T) (w : W)
  : list bool * W :=
  if (KeepDays cfg <=? 0)%Z then (alive, w)
  else
    let limit := wrap64 (KeepDays cfg * 24 * Hour) in
    keepDaysLoop dryRun limit now snaps alive w.

(** [applyKeepCount]. *)
Definition countLive (alive : list bool) : Z :=
  Z.of_nat (length (filter (fun ok => ok) alive)).

Fixpoint keepCountLoop (dryRun : bool) (snaps : list snapshot)
  (alive : list bool) (toRemove : Z) (w : W) : list bool * W :=
  match snaps, alive with
  | s :: snaps', a :: alive' =>
      if negb (0 <? toRemove)%Z then (alive, w)
      else if negb a then
        let '(r, w') := keepCountLoop dryRun snaps' alive' toRemove w in
        (a :: r, w')
      else
        let w1 := removeUnlessDryRun dryRun s w in
        let '(r, w') := keepCountLoop dryRun snaps' alive' (toRemove - 1) w1 in
        (false :: r, w')
  | _, _ => (alive, w)
  end.

Definition applyKeepCount (cfg : Config) (dryRun : bool)
  (snaps : list snapshot) (alive : list bool) (w : W) : list bool * W :=
  if (KeepCount cfg <=? 0)%Z then (alive, w)
  else
    let live := countLive alive in
    if (live <=? KeepCount cfg)%Z then (alive, w)
    else
      let toRemove := (live - KeepCount cfg)%Z in
      keepCountLoop dryRun snaps alive toRemove w.

(** [applySizeLimit]: the limit, the measuring loop and the removal
    loop. *)
Definition sizeLimitKB (cfg : Config) : Z :=
  let kbLimit := wrap64 (wrap64 (MaxTotalGBPerRepo cfg * 1024) * 1024) in
  wrap64 (kbLimit + wrap64 (SizeMarginMB cfg * 1024)).

Fixpoint measureSizes (snaps : list snapshot) (alive : list bool) (w : W)
  : list Z :=
  match snaps, alive with
  | s :: snaps', a :: alive' =>
      (if a then dirSizeKB (TimeDir s) w else 0%Z) :: measureSizes snaps' alive' w
  | _, _ => []
  end.

Definition totalSizeKB (sizes : list Z) : Z :=
  fold_left (fun total kb => wrap64 (total + kb)) sizes 0%Z.

Fixpoint sizeLoop (dryRun : bool) (kbLimit : Z) (snaps : list snapshot)
  (alive : list bool) (sizes : list Z) (totalKB : Z) (w : W) : list bool * W :=
  match snaps, alive, sizes with
  | s :: snaps', a :: alive', kb :: sizes' =>
      if negb (kbLimit <? totalKB)%Z then (alive, w)
      else if negb a then
        let '(r, w') := sizeLoop dryRun kbLimit snaps' alive' sizes' totalKB w in
        (a :: r, w')
      else
        let w1 := removeUnlessDryRun dryRun s w in
        let '(r, w') :=
          sizeLoop dryRun kbLimit snaps' alive' sizes' (wrap64 (totalKB - kb)) w1 in
        (false :: r, w')
  | _, _, _ => (alive, w)
  end.

Definition applySizeLimit (cfg : Config) (dryRun : bool)
  (snaps : list snapshot) (alive : list bool) (w : W) : list bool * W :=
  if (MaxTotalGBPerRepo cfg <=? 0)%Z || NoSize cfg then (alive, w)
  else
    let kbLimit := sizeLimitKB cfg in
    let sizes := measureSizes snaps alive w in
    let totalKB := totalSizeKB sizes in
    sizeLoop dryRun kbLimit snaps alive sizes totalKB w.

(** [logRotationSummary] only reads: the figures it logs. *)
Definition logRotationSummary (repoDir : string) (w : W) : nat * Z :=
  match listSnapshots repoDir w with
  | inl _ => (0%nat, 0%Z)
  | inr snapsFinal =>
      (length snapsFinal,
       fold_left (fun total s => wrap64 (total + dirSizeKB (TimeDir s) w))
         snapsFinal 0%Z)
  end.

(** [rotateRepo].  The Go function returns nothing; the model returns the
    world it leaves and, for observation, its local [snaps] and [alive]
    ([None] when listing failed and nothing was done).  Log output is not
    modelled. *)
Definition rotateRepo (repoDir : string) (cfg : Config) (dryRun : bool) (w : W)
  : option (list snapshot * list bool) * W :=
  match listSnapshots repoDir w with
  | inl _ => (None, w)
  | inr snaps =>
      let alive := map (fun _ => true) snaps in
      let now := Now deps w in
      let '(alive1, w1) := applyKeepDays cfg dryRun snaps alive now w in
      let '(alive2, w2) := applyKeepCount cfg dryRun snaps alive1 w1 in
      let '(alive3, w3) := applySizeLimit cfg dryRun snaps alive2 w2 in
      (Some (snaps, alive3), w3)
  end.

(** The value of [alive] in [rotateRepo] after the age rule, after the
    count rule and after the size rule, for the listed [snaps]. *)
Definition rotationStages (cfg : Config) (dryRun : bool)
  (snaps : list snapshot) (w : W) : list bool * list bool * list bool :=
  let alive := map (fun _ => true) snaps in
  let '(alive1, w1) := applyKeepDays cfg dryRun snaps alive (Now deps w) w in
  let '(alive2, w2) := applyKeepCount cfg dryRun snaps alive1 w1 in
  let '(alive3, _) := applySizeLimit cfg dryRun snaps alive2 w2 in
  (alive1, alive2, alive3).

End Rotate.

(** *** Recording deletions

    A port that behaves as [fs] and also records, next to the world, the
    path of every [RemoveAll] that is issued. *)
Section Recording.

Context {W : Type} (fs : FileSystemPort W).

Definition onWorld (f : W -> option error * W) (wl : W * list string)
  : option error * (W * list string) :=
  let '(e, w') := f (fst wl) in (e, (w', snd wl)).

Definition recording : FileSystemPort (W * list string) :=
  {| ReadFile := fun p wl => ReadFile fs p (fst wl);
     WriteFile := fun p d m => onWorld (WriteFile fs p d m);
     CreateDir := fun p m => onWorld (CreateDir fs p m);
     RemoveAll := fun p wl =>
       let '(e, w') := RemoveAll fs p (fst wl) in (e, (w', snd wl ++ [p]));
     Stat := fun p wl => Stat fs p (fst wl);
     Lstat := fun p wl => Lstat fs p (fst wl);
     Walk := fun p wl => Walk fs p (fst wl);
     ReadDir := fun p wl => ReadDir fs p (fst wl);
     CreateDirExclusive := fun p m => onWorld (CreateDirExclusive fs p m);
     Copy := fun s d => onWorld (Copy fs s d);
     Move := fun s d => onWorld (Move fs s d);
     Readlink := fun p wl => Readlink fs p (fst wl);
     Symlink := fun t p => onWorld (Symlink fs t p);
     Chmod := fun p m => onWorld (Chmod fs p m);
     Join := Join fs;
     PathBase := PathBase fs;
     PathDir := PathDir fs;
     Rel := Rel fs;
     IsNotExist := IsNotExist fs;
     IsExist := IsExist fs;
     IsPermission := IsPermission fs |}.

End Recording.

Definition recordingDeps {T : GoTime} {W : Type} (deps : Dependencies T W)
  : Dependencies T (W * list string) :=
  Build_Dependencies T (W * list string)
    (recording (FileSystem deps))
    {| GitDir := fun r wl => GitDir (Git deps) r (fst wl);
       GitCommonDir := fun r wl => GitCommonDir (Git deps) r (fst wl);
       ListIgnoredUntracked := fun r wl => ListIgnoredUntracked (Git deps) r (fst wl) |}
    (fun wl => ctxErr deps (fst wl))
    (fun wl => Now deps (fst wl)).

End Rotation.

(* ------------------------------------------------------------------ *)
(** ** Snapshot engine (usecase/backup.go: reservation, copy, flow)    *)
(* ------------------------------------------------------------------ *)

Module Snapshot.
Import Go Err Ports Rotation Exclude.

(** [usecase.BackupResult]. *)
Record BackupResult : Type := {
  TotalFiles : Z;
  CopiedFiles : Z;
  SkippedFiles : Z;
  SkippedDirs : Z;
  PermissionErrs : list string;
  OtherErrors : list string;
  PartialSuccess : bool
}.

Definition emptyResult : BackupResult :=
  {| TotalFiles := 0; CopiedFiles := 0; SkippedFiles := 0; SkippedDirs := 0;
     PermissionErrs := []; OtherErrors := []; PartialSuccess := false |}.

(** [err.Error()]. *)
Definition sentinelString (s : sentinel) : string :=
  match s with
  | ErrCritical => "critical error"
  | ErrUsage => "usage error"
  | ErrLockBusy => "lock busy"
  | ErrInterrupted => "interrupted"
  | ctxCanceled => "context canceled"
  | ctxDeadlineExceeded => "context deadline exceeded"
  | osErrNotExist => "file does not exist"
  | osErrExist => "file already exists"
  | osErrPermission => "permission denied"
  | sysENOTDIR => "not a directory"
  end.

Fixpoint errorString (e : error) : string :=
  match e with
  | Sentinel s => sentinelString s
  | Wrap msg e' => msg ++ ": " ++ errorString e'
  | Opaque msg => msg
  end.

(** Octal permission constants of the sources. *)
Definition o755 : Z := 493.
Definition o700 : Z := 448.
Definition o644 : Z := 420.
Definition o777 : Z := 511.

(** [isAbsPath] (usecase/setup.go). *)
Definition isAbsPath (path : string) : bool :=
  if String.eqb path "" then false
  else if HasPrefix path "/" || HasPrefix path backslash then true
  else (2 <=? len path)%nat && Rotation.isByteAt path 1 58%N.

Section Engine.

Context {T : GoTime} {W : Type} (deps : Dependencies T W).

Let fs := FileSystem deps.

(** *** Reservation *)

(** [formatTimeDir]. *)
Definition formatTimeDir (now : Time T) : string :=
  (FormatClock T now ++ "-" ++ padZero 9 (Nanosecond T now))%string.

(** The [timeDir] tried in iteration [i] of [createUniqueSnapshotDir]. *)
Definition candidateTimeDir (baseTimeDir : string) (i : nat) : string :=
  match i with
  | O => baseTimeDir
  | _ => (baseTimeDir ++ "-" ++ padZero 2 (N.of_nat i))%string
  end.

(** The loop [for i := 0; i < 100; i++] of [createUniqueSnapshotDir],
    started at [i] with [n] iterations left. *)
Fixpoint reserveLoop (repoDir dateDir baseTimeDir : string) (n i : nat) (w : W)
  : result string * W :=
  match n with
  | O => (inl (Opaque "failed to create unique snapshot directory"), w)
  | S n' =>
      let timeDir := candidateTimeDir baseTimeDir i in
      let targetPath := Join fs [repoDir; dateDir; timeDir] in
      match CreateDirExclusive fs targetPath o755 w with
      | (Some err, w1) =>
          if IsExist fs err
          then reserveLoop repoDir dateDir baseTimeDir n' (S i) w1
          else (inl err, w1)
      | (None, w1) =>
          let reservePath := Join fs [targetPath; ".reserve"] in
          match CreateDirExclusive fs reservePath o700 w1 with
          | (Some err, w2) =>
              let w3 := snd (RemoveAll fs targetPath w2) in
              if IsExist fs err
              then reserveLoop repoDir dateDir baseTimeDir n' (S i) w3
              else (inl err, w3)
          | (None, w2) => (inr targetPath, w2)
          end
      end
  end.

Definition createUniqueSnapshotDir (repoDir dateDir : string) (now : Time T)
  (w : W) : result string * W :=
  let baseTimeDir := formatTimeDir now in
  match CreateDir fs (Join fs [repoDir; dateDir]) o755 w with
  | (Some err, w1) => (inl err, w1)
  | (None, w1) => reserveLoop repoDir dateDir baseTimeDir 100 0 w1
  end.

(** *** Error accounting *)

(** [recordCopyError] for a non-nil [err] and a non-nil [result]: the
    pair is the result and the list [copyErrors]. *)
Definition recordCopyError (path : string) (err : error)
  (acc : BackupResult * list string) : BackupResult * list string :=
  let '(result, copyErrors) := acc in
  let msg := (path ++ ": " ++ errorString err)%string in
  let isPerm := IsPermission fs err in
  ({| TotalFiles := TotalFiles result;
      CopiedFiles := CopiedFiles result;
      SkippedFiles := SkippedFiles result + 1;
      SkippedDirs := SkippedDirs result;
      PermissionErrs := if isPerm then PermissionErrs result ++ [msg]
                        else PermissionErrs result;
      OtherErrors := if isPerm then OtherErrors result
                     else OtherErrors result ++ [msg];
      PartialSuccess := true |},
   copyErrors ++ [msg]).

Definition recordCopied (result : BackupResult) : BackupResult :=
  {| TotalFiles := TotalFiles result;
     CopiedFiles := CopiedFiles result + 1;
     SkippedFiles := SkippedFiles result;
     SkippedDirs := SkippedDirs result;
     PermissionErrs := PermissionErrs result;
     OtherErrors := OtherErrors result;
     PartialSuccess := PartialSuccess result |}.

(** [copyFile]. *)
Definition copyFile (src dst : string) (mode : Z) (w : W) : option error * W :=
  match Copy fs src dst w with
  | (Some err, w1) => (Some err, w1)
  | (None, w1) =>
      if negb (mode =? 0)%Z
      then (None, snd (Chmod fs dst (Z.land mode o777) w1))
      else (None, w1)
  end.

(** *** Phase A: the git directory *)

(** [copyDirEntry]. *)
Definition copyDirEntry (path target : string) (info : FileInfo)
  (acc : BackupResult * list string) (w : W)
  : BackupResult * list string * W :=
  if IsDir info then
    match CreateDir fs target (Z.land (Mode info) o777) w with
    | (Some err, w1) => (recordCopyError target err acc, w1)
    | (None, w1) => (acc, w1)
    end
  else if IsSymlink info then
    match Readlink fs path w with
    | inl err => (recordCopyError path err acc, w)
    | inr linkTarget =>
        let parentDir := PathDir fs target in
        match CreateDir fs parentDir o755 w with
        | (Some err, w1) => (recordCopyError parentDir err acc, w1)
        | (None, w1) =>
            let w2 := snd (RemoveAll fs target w1) in
            match Symlink fs linkTarget target w2 with
            | (Some err, w3) => (recordCopyError target err acc, w3)
            | (None, w3) => (acc, w3)
            end
        end
    end
  else
    let parentDir := PathDir fs target in
    match CreateDir fs parentDir o755 w with
    | (Some err, w1) => (recordCopyError parentDir err acc, w1)
    | (None, w1) =>
        match copyFile path target (Mode info) w1 with
        | (Some err, w2) => (recordCopyError path err acc, w2)
        | (None, w2) => ((recordCopied (fst acc), snd acc), w2)
        end
    end.

(** The walk of [copyDirRecursive]: the callback is run on each step
    until it returns an error, which is what [ctx.Err()] makes it do. *)
Fixpoint copyDirWalk (src dst : string) (steps : list WalkStep)
  (acc : BackupResult * list string) (w : W)
  : option error * (BackupResult * list string) * W :=
  match steps with
  | [] => (None, acc, w)
  | step :: steps' =>
      match ctxErr deps w with
      | Some cerr => (Some cerr, acc, w)
      | None =>
          match StepErr step with
          | Some err =>
              copyDirWalk src dst steps' (recordCopyError (StepPath step) err acc) w
          | None =>
              match Rel fs src (StepPath step) with
              | inl err =>
                  copyDirWalk src dst steps'
                    (recordCopyError (StepPath step) err acc) w
              | inr rel =>
                  let target := Join fs [dst; rel] in
                  match StepInfo step with
                  | None => copyDirWalk src dst steps' acc w
                  | Some info =>
                      let '(acc1, w1) :=
                        copyDirEntry (StepPath step) target info acc w in
                      copyDirWalk src dst steps' acc1 w1
                  end
              end
          end
      end
  end.

Definition copyDirRecursive (src dst : string) (result : BackupResult) (w : W)
  : option error * BackupResult * W :=
  let '(walkErr, (result1, copyErrors), w1) :=
    copyDirWalk src dst (Walk fs src w) (result, []) w in
  if (0 <? length copyErrors)%nat
  then (Some (Opaque "failed to copy item(s)"), result1, w1)
  else (walkErr, result1, w1).

(** [cleanupSnapshotWorktrees]. *)
Definition cleanupSnapshotWorktrees (dstGit : string) (w : W)
  : option error * W :=
  let worktreesDir := Join fs [dstGit; "worktrees"] in
  match Stat fs worktreesDir w with
  | inl err =>
      if IsNotExist fs err then (None, w)
      else (Some (Wrap "stat worktrees dir" err), w)
  | inr _ =>
      match RemoveAll fs worktreesDir w with
      | (Some err, w1) => (Some (Wrap "remove worktrees dir" err), w1)
      | (None, w1) => (None, w1)
      end
  end.

(** *** Phase B: the exclude file *)

(** [readDevbackIgnore]. *)
Definition readDevbackIgnore (repoRoot : string) (w : W) : result (list string) :=
  match ReadFile fs (Join fs [repoRoot; ".devbackignore"]) w with
  | inl err => if IsNotExist fs err then inr [] else inl err
  | inr data => inr (parseDevbackIgnore data)
  end.

(** *** Phase E: the selected working-tree paths *)

Definition createDirForCopy (dst : string) (w : W) : option error * W :=
  match CreateDir fs dst o755 w with
  | (Some err, w1) => (Some (Wrap "mkdir" err), w1)
  | (None, w1) => (None, w1)
  end.

Definition createParentDirForCopy (dst : string) (w : W) : option error * W :=
  match CreateDir fs (PathDir fs dst) o755 w with
  | (Some err, w1) => (Some (Wrap "mkdir" err), w1)
  | (None, w1) => (None, w1)
  end.

Definition copySelectedSymlink (src dst : string) (w : W) : option error * W :=
  match createParentDirForCopy dst w with
  | (Some err, w1) => (Some err, w1)
  | (None, w1) =>
      match Readlink fs src w1 with
      | inl err => (Some (Wrap "readlink" err), w1)
      | inr linkTarget =>
          let w2 := snd (RemoveAll fs dst w1) in
          match Symlink fs linkTarget dst w2 with
          | (Some err, w3) => (Some (Wrap "symlink" err), w3)
          | (None, w3) => (None, w3)
          end
      end
  end.

(** [copySelectedPath]: the error, whether a regular file was copied
    ([recordCopied]), and the world. *)
Definition copySelectedPath (srcRoot dstRoot rel : string) (w : W)
  : option error * bool * W :=
  let src := Join fs [srcRoot; rel] in
  let dst := Join fs [dstRoot; rel] in
  match Lstat fs src w with
  | inl err => (Some (Wrap "skip" err), false, w)
  | inr fi =>
      if IsDir fi then
        let '(e, w1) := createDirForCopy dst w in (e, false, w1)
      else if IsSymlink fi then
        let '(e, w1) := copySelectedSymlink src dst w in (e, false, w1)
      else
        match createParentDirForCopy dst w with
        | (Some err, w1) => (Some err, false, w1)
        | (None, w1) =>
            match copyFile src dst (Mode fi) w1 with
            | (Some err, w2) => (Some (Wrap "copy" err), false, w2)
            | (None, w2) => (None, true, w2)
            end
        end
  end.

(** The state shared by the workers of [copySelectedFiles]
    ([copySelectedState]): result, [copyErrors], [firstErr]. *)
Record copyState : Type := {
  csResult : BackupResult;
  csErrors : list string;
  csFirstErr : option error
}.

(** [copySelectedState.recordError]. *)
Definition recordError (path : string) (err : error) (st : copyState) : copyState :=
  let '(r, errs) := recordCopyError path err (csResult st, csErrors st) in
  {| csResult := r; csErrors := errs;
     csFirstErr := match csFirstErr st with
                   | Some e => Some e
                   | None => Some err
                   end |}.

(** The jobs of [copySelectedFiles], run in the order in which they are
    queued.  The worker pool of the source runs them concurrently under
    the mutex of the state; the counters do not depend on the
    interleaving.  Dispatch stops once the context is cancelled. *)
Fixpoint copySelectedLoop (srcRoot dstRoot : string) (paths : list string)
  (st : copyState) (w : W) : copyState * W :=
  match paths with
  | [] => (st, w)
  | rel :: paths' =>
      match ctxErr deps w with
      | Some _ => (st, w)
      | None =>
          match copySelectedPath srcRoot dstRoot rel w with
          | (Some err, _, w1) =>
              copySelectedLoop srcRoot dstRoot paths' (recordError rel err st) w1
          | (None, copied, w1) =>
              let st1 := if copied
                         then {| csResult := recordCopied (csResult st);
                                 csErrors := csErrors st;
                                 csFirstErr := csFirstErr st |}
                         else st in
              copySelectedLoop srcRoot dstRoot paths' st1 w1
          end
      end
  end.

Definition copySelectedFiles (paths : list string) (srcRoot dstRoot : string)
  (result : BackupResult) (w : W) : option error * BackupResult * W :=
  match paths with
  | [] => (None, result, w)
  | _ =>
      let '(st, w1) :=
        copySelectedLoop srcRoot dstRoot paths
          {| csResult := result; csErrors := []; csFirstErr := None |} w in
      if (0 <? length (csErrors st))%nat then
        (Some (Wrap "failed to copy item(s)"
                 (match csFirstErr st with
                  | Some e => e
                  | None => Opaque "<nil>"
                  end)),
         csResult st, w1)
      else (None, csResult st, w1)
  end.

(** *** The snapshot of one repository *)

(** [resolveSnapshotGitDirs]: the pair [(gitDir, commonDir)]; the field
    [isWorktree] is not read by the snapshot engine. *)
Definition resolveSnapshotGitDirs (repoRoot : string) (w : W)
  : result (string * string) :=
  match GitDir (Git deps) repoRoot w with
  | inl err => inl (Wrap "resolve git dir" err)
  | inr gitDir0 =>
      match GitCommonDir (Git deps) repoRoot w with
      | inl err => inl (Wrap "resolve git common dir" err)
      | inr commonDir0 =>
          let gitDir := TrimSpace gitDir0 in
          let commonDir := TrimSpace commonDir0 in
          if String.eqb gitDir "" then inl (Opaque "git dir is empty")
          else if String.eqb commonDir "" then inl (Opaque "git common dir is empty")
          else
            let gitPath :=
              if isAbsPath gitDir then gitDir else Join fs [repoRoot; gitDir] in
            let commonPath :=
              if isAbsPath commonDir then commonDir
              else Join fs [repoRoot; commonDir] in
            match Stat fs gitPath w with
            | inl err => inl (Wrap "git dir not found" err)
            | inr info =>
                if negb (IsDir info) then inl (Opaque "git dir is not a directory")
                else
                  match Stat fs commonPath w with
                  | inl err => inl (Wrap "git common dir not found" err)
                  | inr cinfo =>
                      if negb (IsDir cinfo)
                      then inl (Opaque "git common dir is not a directory")
                      else inr (gitPath, commonPath)
                  end
            end
      end
  end.

(** [copyRepoSnapshot]. *)
Definition copyRepoSnapshot (repoRoot targetPath : string)
  (result : BackupResult) (w : W) : option error * BackupResult * W :=
  match resolveSnapshotGitDirs repoRoot w with
  | inl err => (Some err, result, w)
  | inr (_, srcGit) =>
      let dstGit := Join fs [targetPath; ".git"] in
      match Stat fs srcGit w with
      | inl err => (Some (Wrap "git common dir not found" err), result, w)
      | inr _ =>
          match copyDirRecursive srcGit dstGit result w with
          | (Some err, result1, w1) => (Some err, result1, w1)
          | (None, result1, w1) =>
              match cleanupSnapshotWorktrees dstGit w1 with
              | (Some err, w2) => (Some err, result1, w2)
              | (None, w2) =>
                  let excludes :=
                    match readDevbackIgnore repoRoot w2 with
                    | inr ex => ex
                    | inl _ => []
                    end in
                  match ListIgnoredUntracked (Git deps) repoRoot w2 with
                  | inl _ =>
                      (Some (Wrap "git ls-files" (Sentinel ErrCritical)), result1, w2)
                  | inr allPaths =>
                      let keep := keepPaths allPaths excludes in
                      match copySelectedFiles keep repoRoot targetPath result1 w2 with
                      | (Some err, result2, w3) => (Some err, result2, w3)
                      | (None, result2, w3) =>
                          match ctxErr deps w3 with
                          | Some cerr => (Some cerr, result2, w3)
                          | None => (None, result2, w3)
                          end
                      end
                  end
              end
          end
      end
  end.

(** The deferred function of [handleBackupFlow], run when
    [backupSuccessful] is still false. *)
Definition cleanupPartialBackup (targetPath : string) (w : W) : W :=
  let w1 := snd (RemoveAll fs targetPath w) in
  let parentDir := PathDir fs targetPath in
  match ReadDir fs parentDir w1 with
  | inr [] => snd (RemoveAll fs parentDir w1)
  | _ => w1
  end.

(** [handleBackupFlow]: the returned pair of result pointer and error,
    and the world. A panic inside rotation is recovered by the source and is not
    modelled. *)
Definition handleBackupFlow (cfg : Config) (repoRoot repoDir : string) (w : W)
  : option BackupResult * option error * W :=
  match ctxErr deps w with
  | Some _ => (None, Some (Sentinel ErrInterrupted), w)
  | None =>
      let now := Now deps w in
      let dateDir := FormatDate T now in
      match createUniqueSnapshotDir repoDir dateDir now w with
      | (inl _, w1) => (None, Some (Wrap "make target dir" (Sentinel ErrCritical)), w1)
      | (inr targetPath, w1) =>
          let reservePath := Join fs [targetPath; ".reserve"] in
          let partial := Join fs [targetPath; ".partial"] in
          let done := Join fs [targetPath; ".done"] in
          match WriteFile fs partial "" o644 w1 with
          | (Some _, w2) =>
              (None, Some (Wrap "mark partial" (Sentinel ErrCritical)),
               cleanupPartialBackup targetPath w2)
          | (None, w2) =>
              match copyRepoSnapshot repoRoot targetPath emptyResult w2 with
              | (Some err, _, w3) =>
                  if errors_Is err ctxCanceled || errors_Is err ctxDeadlineExceeded
                  then (None, Some (Sentinel ErrInterrupted),
                        cleanupPartialBackup targetPath w3)
                  else (None, Some (Wrap "backup failed" (Sentinel ErrCritical)),
                        cleanupPartialBackup targetPath w3)
              | (None, result, w3) =>
                  let w4 := snd (RemoveAll fs partial w3) in
                  match WriteFile fs done "" o644 w4 with
                  | (Some _, w5) =>
                      (None, Some (Wrap "mark done" (Sentinel ErrCritical)),
                       cleanupPartialBackup targetPath w5)
                  | (None, w5) =>
                      let w6 := snd (RemoveAll fs reservePath w5) in
                      match ctxErr deps w6 with
                      | Some _ => (None, Some (Sentinel ErrInterrupted), w6)
                      | None =>
                          let w7 := snd (rotateRepo deps repoDir cfg false w6) in
                          if PartialSuccess result
                          then (Some result, Some (Sentinel ErrCritical), w7)
                          else (Some result, None, w7)
                      end
                  end
              end
          end
      end
  end.

End Engine.

End Snapshot.

(* ------------------------------------------------------------------ *)
(** ** Hooks (cmd/app: hook.go, hook_post_commit.go,                   *)
(**    hook_post_merge.go, hook_post_rewrite.go, exitcodes.go)         *)
(* ------------------------------------------------------------------ *)

Module Hook.
Import Go Err Ports Rotation Snapshot.

Definition exitSuccess : Z := 0.
Definition exitCriticalError : Z := 1.
Definition exitLockBusy : Z := 76.
Definition exitUsageError : Z := 2.
Definition exitInterrupted : Z := 130.

Definition stampFileName : string := "devback-backup-stamp".
Definition debounceTimeout : Z := 60 * Second.

Record hookConfig : Type := { verbose : bool; dryRun : bool; noNotify : bool }.

(** The parts of [usecase.ConfigFile] the hooks read themselves. *)
Record ConfigFile : Type := {
  NotificationsEnabled : bool;
  NotificationsSound : string
}.

(** [parseHookBool]. *)
Definition parseHookBool (value : string) : bool :=
  let v := ToLower (TrimSpace value) in
  String.eqb v "1" || String.eqb v "true" || String.eqb v "yes" || String.eqb v "on".

Section Hooks.

Context {T : GoTime} {W : Type}.

(** The adapters a hook gets from [depsFactory], all non-nil except the
    notification adapter; [hGit] is the part of the Git port the hooks
    call. *)
Record HookGit : Type := {
  RepoRoot : W -> result string;
  ConfigGet : string -> string -> W -> result string;
  ConfigGetGlobal : string -> W -> result string;
  ConfigGetWorktree : string -> string -> W -> result string;
  hGitDir : string -> W -> result string;
  hGitCommonDir : string -> W -> result string
}.

Record HookDeps : Type := {
  hFileSystem : FileSystemPort W;
  hGit : HookGit;
  hNotification : option (string -> string -> string -> W -> W)  (* [Send] *)
}.

(** What the hooks call outside [cmd/app]'s hook files: the context, the
    process environment, the adapters factory ([None]: [deps] or one of
    its Git, Config, FileSystem adapters is nil), configuration loading
    ([loadConfigFile], [usecase.RuntimeConfigFromFile]), path
    normalisation ([normalizeGitDir], built on [path/filepath]) and
    [usecase.Backup]. *)
Record HookEnv : Type := {
  hCtxErr : W -> option error;
  hNow : W -> Time T;
  hUnixOf : Time T -> Z;                       (* [Time.Unix()] *)
  depsFactory : option HookDeps;
  UserHomeDir : result string;
  Getenv : string -> string;
  loadConfigFile : HookDeps -> string -> W -> result (ConfigFile * bool);
  RuntimeConfigFromFile : ConfigFile -> string -> result Config;
  normalizeGitDir : string -> string -> string;
  Backup : Config -> HookDeps -> W -> option BackupResult * option error * W
}.

Variable env : HookEnv.

Record hookPreflight : Type := {
  pfDeps : HookDeps;
  pfRepoRoot : string;
  pfGitDir : string;
  pfConfigFile : ConfigFile;
  pfRuntimeCfg : Config
}.

(** [readRepoConfig] and [readBackupEnabled]. *)
Definition readRepoConfig (git : HookGit) (repoRoot : string) (w : W) : string :=
  let fromWorktree :=
    match ConfigGetWorktree git repoRoot "backup.enabled" w with
    | inr value => TrimSpace value
    | inl _ => ""
    end in
  if negb (String.eqb fromWorktree "") then fromWorktree
  else
    let fromLocal :=
      match ConfigGet git repoRoot "backup.enabled" w with
      | inr value => TrimSpace value
      | inl _ => ""
      end in
    if negb (String.eqb fromLocal "") then fromLocal
    else
      match ConfigGetGlobal git "backup.enabled" w with
      | inr value => TrimSpace value
      | inl _ => ""
      end.

Definition readBackupEnabled (git : HookGit) (repoRoot : string) (w : W) : bool :=
  let value := readRepoConfig git repoRoot w in
  if String.eqb value "" then false else parseHookBool value.

(** [runHookPreflight]: [None] stands for [(nil, false)]. *)
Definition runHookPreflight (cfg : hookConfig) (w : W) : option hookPreflight :=
  match depsFactory env with
  | None => None
  | Some deps =>
      match RepoRoot (hGit deps) w with
      | inl _ => None
      | inr repoRoot =>
          if negb (readBackupEnabled (hGit deps) repoRoot w) then None
          else
            match UserHomeDir env with
            | inl _ => None
            | inr homeDir =>
                match loadConfigFile env deps homeDir w with
                | inl _ => None
                | inr (configFile, configExists) =>
                    if negb configExists then None
                    else
                      match RuntimeConfigFromFile env configFile homeDir with
                      | inl _ => None
                      | inr runtimeCfg =>
                          if String.eqb (TrimSpace (BackupDir runtimeCfg)) "" then None
                          else
                            match hGitDir (hGit deps) repoRoot w with
                            | inl _ => None
                            | inr gitDir =>
                                Some {| pfDeps := deps;
                                        pfRepoRoot := repoRoot;
                                        pfGitDir := normalizeGitDir env repoRoot gitDir;
                                        pfConfigFile := configFile;
                                        pfRuntimeCfg := runtimeCfg |}
                            end
                      end
                end
            end
      end
  end.

(** [hookPathExists] and [isRebaseInProgress]. *)
Definition hookPathExists (fs : FileSystemPort W) (path : string) (w : W)
  : result bool :=
  match Stat fs path w with
  | inl err => if errors_Is err osErrNotExist then inr false else inl err
  | inr _ => inr true
  end.

Definition isRebaseInProgress (fs : option (FileSystemPort W)) (gitDir : string)
  (w : W) : result bool :=
  match fs with
  | None => inl (Opaque "filesystem dependency is missing")
  | Some fs =>
      if String.eqb (TrimSpace gitDir) "" then inl (Opaque "git dir is empty")
      else
        match hookPathExists fs (Join fs [gitDir; "rebase-merge"]) w with
        | inl err => inl err
        | inr true => inr true
        | inr false =>
            match hookPathExists fs (Join fs [gitDir; "rebase-apply"]) w with
            | inl err => inl err
            | inr true => inr true
            | inr false => hookPathExists fs (Join fs [gitDir; "REBASE_HEAD"]) w
            end
        end
  end.

(** [isRebaseReflogAction]. *)
Definition isRebaseReflogAction : bool :=
  Contains (ToLower (Getenv env "GIT_REFLOG_ACTION")) "rebase".

(** *** Debounce stamp *)

(** [resolveStampPath] for a non-nil preflight with non-nil adapters. *)
Definition resolveStampPath (preflight : hookPreflight) (w : W) : string :=
  let deps := pfDeps preflight in
  let fromCommon :=
    match hGitCommonDir (hGit deps) (pfRepoRoot preflight) w with
    | inr commonDir =>
        let commonDir := normalizeGitDir env (pfRepoRoot preflight) commonDir in
        if negb (String.eqb (TrimSpace commonDir) "")
        then Some (Join (hFileSystem deps) [commonDir; stampFileName])
        else None
    | inl _ => None
    end in
  match fromCommon with
  | Some p => p
  | None =>
      if String.eqb (TrimSpace (pfGitDir preflight)) "" then ""
      else Join (hFileSystem deps) [pfGitDir preflight; stampFileName]
  end.

(** [isDebounceActive]. *)
Definition isDebounceActive (fs : option (FileSystemPort W)) (stampPath : string)
  (now : Time T) (w : W) : bool * option error :=
  match fs with
  | None => (false, None)
  | Some fs =>
      if String.eqb (TrimSpace stampPath) "" then (false, None)
      else
        match ReadFile fs stampPath w with
        | inl err =>
            if errors_Is err osErrNotExist then (false, None)
            else (false, Some err)
        | inr data =>
            let stampValue := TrimSpace data in
            if String.eqb stampValue "" then (false, None)
            else
              match ParseInt stampValue with
              | None => (false, None)
              | Some ts =>
                  let stampTime := Unix T ts in
                  ((Sub T now stampTime <? debounceTimeout)%Z, None)
              end
        end
  end.

(** [updateStamp]. *)
Definition updateStamp (fs : option (FileSystemPort W)) (stampPath : string)
  (w : W) : option error * W :=
  match fs with
  | None => (Some (Opaque "filesystem dependency is missing"), w)
  | Some fs =>
      if String.eqb (TrimSpace stampPath) "" then (Some (Opaque "stamp path is empty"), w)
      else
        match hCtxErr env w with
        | Some cerr => (Some cerr, w)
        | None =>
            let tmpPath := (stampPath ++ ".tmp")%string in
            let timestamp := fmtInt (hUnixOf env (hNow env w)) in
            match WriteFile fs tmpPath timestamp o644 w with
            | (Some err, w1) => (Some err, w1)
            | (None, w1) => Move fs tmpPath stampPath w1
            end
        end
  end.

(** [updateStampWithLog] for a non-nil preflight. *)
Definition updateStampWithLog (preflight : hookPreflight) (stampPath : string)
  (w : W) : W :=
  if String.eqb (TrimSpace stampPath) "" then w
  else snd (updateStamp (Some (hFileSystem (pfDeps preflight))) stampPath w).

(** *** Notifications *)

Definition notificationSound (preflight : hookPreflight) : string :=
  let sound := TrimSpace (NotificationsSound (pfConfigFile preflight)) in
  if String.eqb sound "" then "default" else sound.

(** [shortenHome]. *)
Definition shortenHome (path : string) : string :=
  match UserHomeDir env with
  | inl _ => path
  | inr home =>
      if String.eqb home "" then path
      else if HasPrefix path (home ++ "/") then ("~" ++ drop (len home) path)%string
      else if String.eqb path home then "~"
      else path
  end.

(** [sendHookNotification] for non-nil [hookCfg] and [preflight]. *)
Definition sendHookNotification (hookCfg : hookConfig) (preflight : hookPreflight)
  (success : bool) (result : option BackupResult) (w : W) : W :=
  if noNotify hookCfg then w
  else
    match hNotification (pfDeps preflight) with
    | None => w
    | Some send =>
        if negb (NotificationsEnabled (pfConfigFile preflight)) then w
        else
          let repo := shortenHome (pfRepoRoot preflight) in
          let '(message, sound) :=
            if negb success then ((repo ++ ": Backup failed")%string, "Basso")
            else
              match result with
              | Some r =>
                  if PartialSuccess r then
                    ((repo ++ ": " ++ fmtInt (CopiedFiles r) ++ " files copied, "
                        ++ fmtInt (SkippedFiles r) ++ " errors")%string,
                     notificationSound preflight)
                  else
                    ((repo ++ ": " ++ fmtInt (CopiedFiles r) ++ " files copied")%string,
                     notificationSound preflight)
              | None =>
                  ((repo ++ ": Backup completed")%string, notificationSound preflight)
              end in
          send "DevBack" message sound w
    end.

(** The [usecase.Config] both backup runners build. *)
Definition hookBackupConfig (hookCfg : hookConfig) (preflight : hookPreflight)
  : Config :=
  let rc := pfRuntimeCfg preflight in
  {| BackupDir := BackupDir rc;
     Verbose := verbose hookCfg;
     DryRun := dryRun hookCfg;
     KeepCount := KeepCount rc;
     KeepDays := KeepDays rc;
     MaxTotalGBPerRepo := MaxTotalGBPerRepo rc;
     SizeMarginMB := SizeMarginMB rc;
     NoSize := NoSize rc |}.

(** *** The hook runners: exit code and world *)

(** [runBackupWithNotify]. *)
Definition runBackupWithNotify (hookCfg : option hookConfig)
  (preflight : option hookPreflight) (w : W) : Z * W :=
  match hookCfg, preflight with
  | Some hookCfg, Some preflight =>
      match hCtxErr env w with
      | Some _ => (exitSuccess, w)
      | None =>
          if dryRun hookCfg then (exitSuccess, w)
          else
            let cfg := hookBackupConfig hookCfg preflight in
            match Backup env cfg (pfDeps preflight) w with
            | (result, Some err, w1) =>
                if errors_Is err ErrLockBusy || errors_Is err ErrInterrupted
                   || errors_Is err ctxCanceled
                then (exitSuccess, w1)
                else (exitSuccess, sendHookNotification hookCfg preflight false result w1)
            | (result, None, w1) =>
                (exitSuccess, sendHookNotification hookCfg preflight true result w1)
            end
      end
  | _, _ => (exitSuccess, w)
  end.

(** [runHookPostCommit]. *)
Definition runHookPostCommit (hookCfg : hookConfig) (w : W) : Z * W :=
  match runHookPreflight hookCfg w with
  | None => (exitSuccess, w)
  | Some preflight =>
      match hCtxErr env w with
      | Some _ => (exitSuccess, w)
      | None =>
          if isRebaseReflogAction then (exitSuccess, w)
          else
            match isRebaseInProgress (Some (hFileSystem (pfDeps preflight)))
                    (pfGitDir preflight) w with
            | inl _ => (exitSuccess, w)
            | inr true => (exitSuccess, w)
            | inr false => runBackupWithNotify (Some hookCfg) (Some preflight) w
            end
      end
  end.

(** [runHookPostMerge]. *)
Definition runHookPostMerge (hookCfg : hookConfig) (w : W) : Z * W :=
  match runHookPreflight hookCfg w with
  | None => (exitSuccess, w)
  | Some preflight =>
      match hCtxErr env w with
      | Some _ => (exitSuccess, w)
      | None =>
          match isRebaseInProgress (Some (hFileSystem (pfDeps preflight)))
                  (pfGitDir preflight) w with
          | inl _ => (exitSuccess, w)
          | inr true => (exitSuccess, w)
          | inr false => runBackupWithNotify (Some hookCfg) (Some preflight) w
          end
      end
  end.

(** [runPostRewriteBackup]. *)
Definition runPostRewriteBackup (hookCfg : option hookConfig)
  (preflight : option hookPreflight) (stampPath : string) (w : W) : Z * W :=
  match hookCfg, preflight with
  | Some hookCfg, Some preflight =>
      match hCtxErr env w with
      | Some _ => (exitSuccess, w)
      | None =>
          if dryRun hookCfg then (exitSuccess, w)
          else
            let cfg := hookBackupConfig hookCfg preflight in
            match Backup env cfg (pfDeps preflight) w with
            | (result, Some err, w1) =>
                if errors_Is err ErrLockBusy then (exitSuccess, w1)
                else if errors_Is err ErrInterrupted || errors_Is err ctxCanceled
                then (exitSuccess, w1)
                else
                  let w2 := updateStampWithLog preflight stampPath w1 in
                  (exitSuccess, sendHookNotification hookCfg preflight false result w2)
            | (result, None, w1) =>
                let w2 := updateStampWithLog preflight stampPath w1 in
                (exitSuccess, sendHookNotification hookCfg preflight true result w2)
            end
      end
  | _, _ => (exitSuccess, w)
  end.

(** [runHookPostRewrite]. *)
Definition runHookPostRewrite (hookCfg : hookConfig) (command : string) (w : W)
  : Z * W :=
  match runHookPreflight hookCfg w with
  | None => (exitSuccess, w)
  | Some preflight =>
      match hCtxErr env w with
      | Some _ => (exitSuccess, w)
      | None =>
          let command := ToLower (TrimSpace command) in
          let isRebase := String.eqb command "rebase" in
          let stampPath := resolveStampPath preflight w in
          let fs := hFileSystem (pfDeps preflight) in
          if isRebase then
            match isRebaseInProgress (Some fs) (pfGitDir preflight) w with
            | inl _ => (exitSuccess, w)
            | inr true => (exitSuccess, w)
            | inr false =>
                if fst (isDebounceActive (Some fs) stampPath (hNow env w) w)
                then (exitSuccess, w)
                else runPostRewriteBackup (Some hookCfg) (Some preflight) stampPath w
            end
          else runPostRewriteBackup (Some hookCfg) (Some preflight) stampPath w
      end
  end.

(** The three hook subcommands. *)
Inductive hookCommand : Type :=
| PostCommit
| PostMerge
| PostRewrite (command : string).

Definition runHook (c : hookCommand) (hookCfg : hookConfig) (w : W) : Z * W :=
  match c with
  | PostCommit => runHookPostCommit hookCfg w
  | PostMerge => runHookPostMerge hookCfg w
  | PostRewrite command => runHookPostRewrite hookCfg command w
  end.

End Hooks.

Arguments HookGit : clear implicits.
Arguments HookDeps : clear implicits.
Arguments HookEnv : clear implicits.
Arguments hookPreflight : clear implicits.

End Hook.

(* ------------------------------------------------------------------ *)
(** ** An in-memory instance of the ports                              *)
(* ------------------------------------------------------------------ *)

(** A small filesystem, clock and Git listing on which the use cases can
    be run.  It plays the role of the test adapters of the repository
    ([usecase/test_adapters_test.go]): directories hold their entries
    sorted by name, [Stat] does not follow symbolic links, and paths are
    taken to be clean ([filepath.Clean] is not modelled). *)
Module Mem.
Import Go Err Ports.

#[local] Set Warnings "-register-all".
Inductive node : Type :=
| FileNode (data : string) (mode : Z) (mtime : Z)
| LinkNode (target : string)
| DirNode (entries : list (string * node)).

Definition segments (path : string) : list string :=
  filter (fun s => negb (String.eqb s "")) (Split path "/").

Fixpoint lookupEntry (name : string) (es : list (string * node)) : option node :=
  match es with
  | [] => None
  | (k, v) :: r => if String.eqb name k then Some v else lookupEntry name r
  end.

Fixpoint insertEntry (name : string) (c : node) (es : list (string * node))
  : list (string * node) :=
  match es with
  | [] => [(name, c)]
  | (k, v) :: r =>
      if String.eqb name k then (name, c) :: r
      else if String.ltb name k then (name, c) :: es
      else (k, v) :: insertEntry name c r
  end.

Fixpoint removeEntry (name : string) (es : list (string * node))
  : list (string * node) :=
  match es with
  | [] => []
  | (k, v) :: r => if String.eqb name k then r else (k, v) :: removeEntry name r
  end.

Fixpoint find (segs : list string) (n : node) : option node :=
  match segs with
  | [] => Some n
  | s :: r =>
      match n with
      | DirNode es =>
          match lookupEntry s es with
          | Some c => find r c
          | None => None
          end
      | _ => None
      end
  end.

(** Replace, create or delete the entry at [segs]; the parent must be an
    existing directory. *)
Fixpoint alterAt (segs : list string) (f : option node -> result (option node))
  (n : node) : result node :=
  match segs with
  | [] => inl (Opaque "invalid path")
  | s :: r =>
      match n with
      | DirNode es =>
          match r with
          | [] =>
              match f (lookupEntry s es) with
              | inl e => inl e
              | inr (Some c) => inr (DirNode (insertEntry s c es))
              | inr None => inr (DirNode (removeEntry s es))
              end
          | _ =>
              match lookupEntry s es with
              | Some c =>
                  match alterAt r f c with
                  | inl e => inl e
                  | inr c' => inr (DirNode (insertEntry s c' es))
                  end
              | None => inl (Sentinel osErrNotExist)
              end
          end
      | _ => inl (Sentinel sysENOTDIR)
      end
  end.

Fixpoint mkdirAll (segs : list string) (n : node) : result node :=
  match n with
  | DirNode es =>
      match segs with
      | [] => inr n
      | s :: r =>
          let child := match lookupEntry s es with
                       | Some c => c
                       | None => DirNode []
                       end in
          match mkdirAll r child with
          | inl e => inl e
          | inr c' => inr (DirNode (insertEntry s c' es))
          end
      end
  | _ => inl (Sentinel sysENOTDIR)
  end.

(** The world: the tree, the clock (nanoseconds since the epoch, UTC),
    the cancellation state of the context and the answers of Git. *)
Record World : Type := {
  root : node;
  clock : Z;
  cancelled : option error;
  gitDirAnswer : result string;
  gitCommonDirAnswer : result string;
  ignoredUntracked : result (list string)
}.

Definition withRoot (w : World) (n : node) : World :=
  {| root := n; clock := clock w; cancelled := cancelled w;
     gitDirAnswer := gitDirAnswer w;
     gitCommonDirAnswer := gitCommonDirAnswer w;
     ignoredUntracked := ignoredUntracked w |}.

Definition update (w : World) (r : result node) : option error * World :=
  match r with
  | inl e => (Some e, w)
  | inr n => (None, withRoot w n)
  end.

Definition infoOf (name : string) (n : node) : FileInfo :=
  match n with
  | FileNode data mode mtime =>
      {| Name := name; Size := Z.of_nat (len data); Mode := mode; ModTime := mtime;
         IsDir := false; IsSymlink := false; IsRegular := true |}
  | LinkNode _ =>
      {| Name := name; Size := 0; Mode := 511; ModTime := 0;
         IsDir := false; IsSymlink := true; IsRegular := false |}
  | DirNode _ =>
      {| Name := name; Size := 0; Mode := 493; ModTime := 0;
         IsDir := true; IsSymlink := false; IsRegular := false |}
  end.

Definition lstat (path : string) (w : World) : result FileInfo :=
  match find (segments path) (root w) with
  | Some n => inr (infoOf (Base path) n)
  | None => inl (Sentinel osErrNotExist)
  end.

Definition readFile (path : string) (w : World) : result string :=
  match find (segments path) (root w) with
  | Some (FileNode data _ _) => inr data
  | Some _ => inl (Opaque "is a directory")
  | None => inl (Sentinel osErrNotExist)
  end.

Definition readDir (path : string) (w : World) : result (list DirEntry) :=
  match find (segments path) (root w) with
  | Some (DirNode es) =>
      inr (map (fun e => {| EntryName := fst e;
                            EntryIsDir := match snd e with DirNode _ => true | _ => false end |})
             es)
  | Some _ => inl (Sentinel sysENOTDIR)
  | None => inl (Sentinel osErrNotExist)
  end.

Definition mkdir (path : string) (perm : Z) (w : World) : option error * World :=
  update w (alterAt (segments path)
              (fun slot => match slot with
                           | Some _ => inl (Sentinel osErrExist)
                           | None => inr (Some (DirNode []))
                           end)
              (root w)).

Definition createDir (path : string) (perm : Z) (w : World) : option error * World :=
  update w (mkdirAll (segments path) (root w)).

Definition removeAll (path : string) (w : World) : option error * World :=
  match alterAt (segments path) (fun _ => inr None) (root w) with
  | inr n => (None, withRoot w n)
  | inl _ => (None, w)
  end.

Definition writeFile (path data : string) (perm : Z) (w : World)
  : option error * World :=
  update w (alterAt (segments path)
              (fun slot => match slot with
                           | Some (DirNode _) => inl (Opaque "is a directory")
                           | _ => inr (Some (FileNode data perm (clock w)))
                           end)
              (root w)).

Definition pathDir (path : string) : string :=
  match LastIndex path "/" with
  | Some O => "/"
  | Some i => take i path
  | None => "."
  end.

Definition copy (src dst : string) (w : World) : option error * World :=
  match createDir (pathDir dst) 488 w with
  | (Some e, w1) => (Some e, w1)
  | (None, w1) =>
      match find (segments src) (root w1) with
      | Some (FileNode data mode _) => writeFile dst data mode w1
      | Some _ => (Some (Opaque "is a directory"), w1)
      | None => (Some (Sentinel osErrNotExist), w1)
      end
  end.

Definition move (src dst : string) (w : World) : option error * World :=
  match find (segments src) (root w) with
  | None => (Some (Sentinel osErrNotExist), w)
  | Some n =>
      let w1 := snd (removeAll src w) in
      update w1 (alterAt (segments dst) (fun _ => inr (Some n)) (root w1))
  end.

Definition readlink (path : string) (w : World) : result string :=
  match find (segments path) (root w) with
  | Some (LinkNode target) => inr target
  | Some _ => inl (Opaque "invalid argument")
  | None => inl (Sentinel osErrNotExist)
  end.

Definition symlink (target path : string) (w : World) : option error * World :=
  update w (alterAt (segments path)
              (fun slot => match slot with
                           | Some _ => inl (Sentinel osErrExist)
                           | None => inr (Some (LinkNode target))
                           end)
              (root w)).

Definition chmod (path : string) (perm : Z) (w : World) : option error * World :=
  match find (segments path) (root w) with
  | None => (Some (Sentinel osErrNotExist), w)
  | Some (FileNode data _ mtime) =>
      update w (alterAt (segments path)
                  (fun _ => inr (Some (FileNode data perm mtime))) (root w))
  | Some _ => (None, w)
  end.

(** [filepath.Walk]: pre-order, entries in lexical order, links not
    followed. *)
Fixpoint walkNode (path : string) (n : node) : list WalkStep :=
  {| StepPath := path; StepInfo := Some (infoOf (Base path) n); StepErr := None |}
  :: match n with
     | DirNode es =>
         (fix walkEntries (es : list (string * node)) : list WalkStep :=
            match es with
            | [] => []
            | (name, c) :: r =>
                walkNode (path ++ "/" ++ name)%string c ++ walkEntries r
            end) es
     | _ => []
     end.

Definition walk (rootPath : string) (w : World) : list WalkStep :=
  match find (segments rootPath) (root w) with
  | Some n => walkNode rootPath n
  | None => [{| StepPath := rootPath; StepInfo := None;
                StepErr := Some (Sentinel osErrNotExist) |}]
  end.

Definition join (elements : list string) : string :=
  String.concat "/"
    (filter (fun s => negb (String.eqb s "") && negb (String.eqb s ".")) elements).

Definition rel (basepath targpath : string) : result string :=
  if String.eqb basepath targpath then inr "."
  else if HasPrefix targpath (basepath ++ "/")
  then inr (drop (S (len basepath)) targpath)
  else inl (Opaque "Rel: can't make path relative").

Definition fileSystem : FileSystemPort World :=
  {| ReadFile := readFile;
     WriteFile := writeFile;
     CreateDir := createDir;
     RemoveAll := removeAll;
     Stat := lstat;
     Lstat := lstat;
     Walk := walk;
     ReadDir := readDir;
     CreateDirExclusive := mkdir;
     Copy := copy;
     Move := move;
     Readlink := readlink;
     Symlink := symlink;
     Chmod := chmod;
     Join := join;
     PathBase := Base;
     PathDir := pathDir;
     Rel := rel;
     IsNotExist := fun e => errors_Is e osErrNotExist || errors_Is e sysENOTDIR;
     IsExist := fun e => errors_Is e osErrExist;
     IsPermission := fun e => errors_Is e osErrPermission |}.

Definition git : GitPort World :=
  {| GitDir := fun _ w => gitDirAnswer w;
     GitCommonDir := fun _ w => gitCommonDirAnswer w;
     ListIgnoredUntracked := fun _ w => ignoredUntracked w |}.

(** *** The clock: instants are nanoseconds since the epoch, in UTC. *)

Local Open Scope Z_scope.

Definition saturate64 (z : Z) : Z := Z.max minInt64 (Z.min maxInt64 z).

(** Civil date of a day number counted from 1970-01-01. *)
Definition civilFromDays (days : Z) : Z * Z * Z :=
  let z := days + 719468 in
  let era := z / 146097 in
  let doe := z - era * 146097 in
  let yoe := (doe - doe / 1460 + doe / 36524 - doe / 146096) / 365 in
  let doy := doe - (365 * yoe + yoe / 4 - yoe / 100) in
  let mp := (5 * doy + 2) / 153 in
  let d := doy - (153 * mp + 2) / 5 + 1 in
  let m := if mp <? 10 then mp + 3 else mp - 9 in
  let y := yoe + era * 400 + (if m <=? 2 then 1 else 0) in
  (y, m, d).

Definition formatDate (t : Z) : string :=
  let '(y, m, d) := civilFromDays (t / (86400 * Second)) in
  (padZero 4 (Z.to_N y) ++ "-" ++ padZero 2 (Z.to_N m) ++ "-" ++ padZero 2 (Z.to_N d))%string.

Definition formatClock (t : Z) : string :=
  let s := (t / Second) mod 86400 in
  (padZero 2 (Z.to_N (s / 3600)) ++ padZero 2 (Z.to_N ((s / 60) mod 60))
     ++ padZero 2 (Z.to_N (s mod 60)))%string.

Definition utc : GoTime :=
  {| Time := Z;
     Sub := fun t u => saturate64 (t - u);
     Unix := fun s => s * Second;
     FormatDate := formatDate;
     FormatClock := formatClock;
     Nanosecond := fun t => Z.to_N (t mod Second);
     OfInstant := fun t => t |}.

Definition deps : Dependencies utc World :=
  Build_Dependencies utc World fileSystem git cancelled clock.

End Mem.

(* ================================================================== *)
(** * Properties                                                       *)
(* ================================================================== *)

(* ------------------------------------------------------------------ *)
(** ** Exclude filter                                                  *)
(* ------------------------------------------------------------------ *)

Module ExcludeFacts.
Import Go Exclude.

Definition normalize (s : string) : string := ReplaceAll s backslash "/".

(** The loop of [shouldSkip] decides by the specification's rule, applied
    to the normalised path and the normalised patterns. *)
Lemma shouldSkipLoop_specSkips (np : string) (excludes : list string) :
  fst (shouldSkipLoop np excludes) = specSkips np (map normalize excludes).
Proof.
  induction excludes as [|ex rest IH]; simpl; [reflexivity|].
  unfold specPatternMatches at 1. fold (normalize ex).
  destruct (ContainsAny (normalize ex) "*?[").
  - destruct (Contains (normalize ex) "/").
    + destruct (fst (Match (normalize ex) np)); simpl; [reflexivity | exact IH].
    + destruct (fst (Match (normalize ex) (Base np))); simpl; [reflexivity | exact IH].
  - destruct (String.eqb np (normalize ex) || HasPrefix np (normalize ex ++ "/"));
      simpl; [reflexivity | exact IH].
Qed.

(** When a path is skipped, the pattern reported for logging is one of the
    exclude patterns, as written in the file. *)
Lemma shouldSkipLoop_reports (np : string) (excludes : list string) :
  fst (shouldSkipLoop np excludes) = true ->
  In (snd (shouldSkipLoop np excludes)) excludes.
Proof.
  induction excludes as [|ex rest IH]; simpl; [discriminate|].
  destruct (ContainsAny (ReplaceAll ex backslash "/") "*?[").
  - destruct (Contains (ReplaceAll ex backslash "/") "/").
    + destruct (fst (Match (ReplaceAll ex backslash "/") np)); simpl; auto.
    + destruct (fst (Match (ReplaceAll ex backslash "/") (Base np))); simpl; auto.
  - destruct (String.eqb np (ReplaceAll ex backslash "/")
              || HasPrefix np (ReplaceAll ex backslash "/" ++ "/")); simpl; auto.
Qed.

(** C5, as stated, fails: the path [a\b] (a file whose name contains a
    backslash) is skipped by the literal pattern [a], although it neither
    equals [a] nor starts with [a/]. *)
Lemma shouldSkip_backslash_path :
  fst (shouldSkip "a\b" ["a"]) = true /\ specSkips "a\b" ["a"] = false.
Proof. split; reflexivity. Qed.

(** C5, amended: [shouldSkip] skips [p] exactly when some pattern matches
    under the rule of Phase D once every backslash of the path and of the
    pattern has been replaced by a slash; and in scenario S7 only
    [keep.txt] survives the filter. *)
Theorem shouldSkip_iff_normalized_match :
  (forall (p : string) (excludes : list string),
      fst (shouldSkip p excludes) = true <->
      exists pattern, In pattern excludes /\
        specPatternMatches (normalize pattern) (normalize p) = true)
  /\ keepPaths ["logs/app.log"; "notes.tmp"; "keep.txt"] ["*.tmp"; "logs/*.log"]
     = ["keep.txt"].
Proof.
  split; [|reflexivity].
  intros p excludes. unfold shouldSkip. rewrite shouldSkipLoop_specSkips.
  unfold specSkips. rewrite existsb_exists. split.
  - intros [x [Hin Hx]]. apply in_map_iff in Hin. destruct Hin as [ex [<- Hin]].
    exists ex. split; assumption.
  - intros [ex [Hin Hx]]. exists (normalize ex). split; [|exact Hx].
    apply in_map. exact Hin.
Qed.

End ExcludeFacts.
(* ------------------------------------------------------------------ *)
(** ** Facts about the string functions                                *)
(* ------------------------------------------------------------------ *)

Module GoFacts.
Import Go.

Lemma prefix_single (c : ascii) (s : string) :
  String.prefix (String c "") s = match s with String d _ => Ascii.eqb c d | "" => false end.
Proof.
  destruct s as [|d s']; simpl; [reflexivity|].
  destruct (ascii_dec c d) as [->|Hne].
  - rewrite Ascii.eqb_refl. destruct s'; reflexivity.
  - destruct (Ascii.eqb c d) eqn:E; [apply Ascii.eqb_eq in E; contradiction | reflexivity].
Qed.

Lemma Index_cons (x : ascii) (s sep : string) :
  Index (String x s) sep =
  if String.prefix sep (String x s) then Some 0%nat else option_map S (Index s sep).
Proof. reflexivity. Qed.

Lemma LastIndex_cons (x : ascii) (s sep : string) :
  LastIndex (String x s) sep =
  match LastIndex s sep with
  | Some i => Some (S i)
  | None => if String.prefix sep (String x s) then Some 0%nat else None
  end.
Proof. reflexivity. Qed.

Lemma splitLoop_cons (sep cur : string) (x : ascii) (s : string) :
  splitLoop sep 0 cur (String x s) =
  if String.prefix sep (String x s)
  then cur :: splitLoop sep (len sep - 1) "" s
  else splitLoop sep 0 (cur ++ String x "") s.
Proof. reflexivity. Qed.

Lemma take_app (a b : string) : take (len a) (a ++ b) = a.
Proof. induction a as [|c a IH]; simpl; [destruct b; reflexivity | now rewrite IH]. Qed.

Lemma drop_app (a b : string) : drop (len a) (a ++ b) = b.
Proof. induction a as [|c a IH]; simpl; [destruct b; reflexivity | exact IH]. Qed.

Lemma drop_S_app (a : string) (c : ascii) (b : string) :
  drop (S (len a)) (a ++ String c b) = b.
Proof. induction a as [|x a IH]; simpl; [reflexivity | exact IH]. Qed.

Lemma len_app (a b : string) : len (a ++ b) = (len a + len b)%nat.
Proof. induction a as [|c a IH]; simpl; [reflexivity | now rewrite IH]. Qed.

Lemma app_assoc (a b c : string) : ((a ++ b) ++ c = a ++ (b ++ c))%string.
Proof. induction a as [|x a IH]; simpl; [reflexivity | now rewrite IH]. Qed.

Lemma app_empty_r (a : string) : (a ++ "")%string = a.
Proof. induction a as [|x a IH]; simpl; [reflexivity | now rewrite IH]. Qed.

Lemma inb_app (c : ascii) (a b : string) : inb c (a ++ b) = inb c a || inb c b.
Proof. induction a as [|x a IH]; simpl; [reflexivity | now rewrite IH, orb_assoc]. Qed.

(** A one-byte separator. *)
Lemma Index_single (c : ascii) (a b : string) :
  inb c a = false -> Index (a ++ String c b) (String c "") = Some (len a).
Proof.
  induction a as [|x a IH]; intros H; cbn [append].
  - rewrite Index_cons, prefix_single, Ascii.eqb_refl. reflexivity.
  - simpl in H. apply orb_false_iff in H. destruct H as [Hx Ha].
    rewrite Index_cons, prefix_single, Hx, (IH Ha). reflexivity.
Qed.

Lemma Contains_single (c : ascii) (s : string) :
  Contains s (String c "") = inb c s.
Proof.
  unfold Contains. induction s as [|x s IH]; [reflexivity|].
  rewrite Index_cons, prefix_single. simpl. destruct (Ascii.eqb c x); [reflexivity|].
  simpl. destruct (Index s (String c "")); simpl in *; exact IH.
Qed.

Lemma Index_single_none (c : ascii) (a : string) :
  inb c a = false -> Index a (String c "") = None.
Proof.
  intros H. rewrite <- Contains_single in H. unfold Contains in H.
  destruct (Index a (String c "")); [discriminate | reflexivity].
Qed.

Lemma LastIndex_single_none (c : ascii) (s : string) :
  inb c s = false -> LastIndex s (String c "") = None.
Proof.
  induction s as [|x s IH]; intros H; [reflexivity|].
  simpl in H. apply orb_false_iff in H. destruct H as [Hx Hs].
  rewrite LastIndex_cons, (IH Hs), prefix_single, Hx. reflexivity.
Qed.

Lemma LastIndex_single (c : ascii) (a b : string) :
  inb c b = false -> LastIndex (a ++ String c b) (String c "") = Some (len a).
Proof.
  intros Hb. induction a as [|x a IH]; cbn [append].
  - rewrite LastIndex_cons, (LastIndex_single_none _ _ Hb), prefix_single,
      Ascii.eqb_refl. reflexivity.
  - rewrite LastIndex_cons, IH. reflexivity.
Qed.

Lemma splitLoop_plain (c : ascii) (cur o s : string) :
  inb c o = false ->
  splitLoop (String c "") 0 cur (o ++ s) = splitLoop (String c "") 0 (cur ++ o) s.
Proof.
  revert cur. induction o as [|x o IH]; intros cur H; cbn [append].
  - now rewrite app_empty_r.
  - simpl in H. apply orb_false_iff in H. destruct H as [Hx Ho].
    rewrite splitLoop_cons, prefix_single, Hx, (IH _ Ho), app_assoc. reflexivity.
Qed.

Lemma splitLoop_sep (c : ascii) (cur s : string) :
  splitLoop (String c "") 0 cur (String c s) = cur :: splitLoop (String c "") 0 "" s.
Proof. rewrite splitLoop_cons, prefix_single, Ascii.eqb_refl. reflexivity. Qed.

Lemma Split_plain (c : ascii) (o : string) :
  inb c o = false -> Split o (String c "") = [o].
Proof.
  intros H. unfold Split. rewrite <- (app_empty_r o) at 1.
  rewrite (splitLoop_plain c "" o "" H). reflexivity.
Qed.

Lemma Split_cons (c : ascii) (o s : string) :
  inb c o = false ->
  Split (o ++ String c s) (String c "") = o :: Split s (String c "").
Proof.
  intros H. unfold Split. rewrite (splitLoop_plain c "" o _ H). cbn [append].
  apply splitLoop_sep.
Qed.

Lemma HasSuffix_app (s suf : string) : HasSuffix (s ++ suf) suf = true.
Proof.
  unfold HasSuffix. rewrite len_app.
  replace (len s + len suf - len suf)%nat with (len s) by lia.
  rewrite drop_app, String.eqb_refl.
  apply andb_true_iff; split; [apply Nat.leb_le; lia | reflexivity].
Qed.

Lemma TrimSuffix_app (s suf : string) : TrimSuffix (s ++ suf) suf = s.
Proof.
  unfold TrimSuffix. rewrite HasSuffix_app, len_app.
  replace (len s + len suf - len suf)%nat with (len s) by lia. apply take_app.
Qed.

Lemma inb_cons (c d : ascii) (s : string) :
  inb c (String d s) = Ascii.eqb c d || inb c s.
Proof. reflexivity. Qed.

Lemma prefix_cons (c x : ascii) (p s : string) :
  String.prefix (String c p) (String x s) = Ascii.eqb c x && String.prefix p s.
Proof.
  simpl. destruct (ascii_dec c x) as [->|Hne].
  - now rewrite Ascii.eqb_refl.
  - destruct (Ascii.eqb c x) eqn:E; [apply Ascii.eqb_eq in E; contradiction | reflexivity].
Qed.

Lemma prefix_nil (s : string) : String.prefix "" s = true.
Proof. destruct s; reflexivity. Qed.

Lemma prefix_app (sep b : string) : String.prefix sep (sep ++ b) = true.
Proof.
  induction sep as [|c sep IH]; cbn [append]; [apply prefix_nil|].
  now rewrite prefix_cons, Ascii.eqb_refl.
Qed.

(** A separator that occurs in a string is found. *)
Lemma Contains_app (a sep b : string) : Contains (a ++ sep ++ b) sep = true.
Proof.
  unfold Contains. induction a as [|x a IH]; cbn [append].
  - destruct sep as [|c sep]; [destruct b; reflexivity|].
    cbn [append]. rewrite Index_cons.
    change (String c (sep ++ b)) with (String c sep ++ b)%string.
    now rewrite prefix_app.
  - rewrite Index_cons. destruct (String.prefix sep (String x (a ++ sep ++ b))); [reflexivity|].
    destruct (Index (a ++ sep ++ b) sep); [reflexivity | discriminate].
Qed.

(** A string without the first byte of a separator does not contain it. *)
Lemma Index_none_first (c : ascii) (p s : string) :
  inb c s = false -> Index s (String c p) = None.
Proof.
  induction s as [|x s IH]; intros H; [reflexivity|].
  simpl in H. apply orb_false_iff in H. destruct H as [Hx Hs].
  rewrite Index_cons, prefix_cons, Hx, (IH Hs). reflexivity.
Qed.

(** [://] needs two adjacent slashes. *)
Lemma Contains_scheme_sep (s : string) :
  Contains s "//" = false -> Contains s "://" = false.
Proof.
  unfold Contains. induction s as [|x s IH]; intros H; [reflexivity|].
  rewrite Index_cons in H. rewrite Index_cons.
  destruct (String.prefix "//" (String x s)) eqn:E1; [discriminate|].
  destruct (Index s "//") eqn:E2; [discriminate|].
  rewrite prefix_cons.
  destruct s as [|y s'].
  - rewrite andb_false_r. reflexivity.
  - rewrite Index_cons in E2.
    destruct (String.prefix "//" (String y s')) eqn:E3; [discriminate|].
    replace (String.prefix "//" (String y s')) with false.
    rewrite andb_false_r.
    assert (IH' := IH eq_refl).
    destruct (Index (String y s') "://"); [discriminate | reflexivity].
Qed.

Lemma no_double_slash (x y : string) :
  inb "/" x = false -> inb "/" y = false -> Contains (x ++ "/" ++ y) "//" = false.
Proof.
  intros Hx Hy. unfold Contains. induction x as [|c x IH]; cbn [append].
  - rewrite Index_cons. rewrite prefix_cons.
    rewrite (Index_none_first "/" "/" y Hy).
    destruct y as [|d y']; [reflexivity|].
    rewrite inb_cons in Hy. apply orb_false_iff in Hy. destruct Hy as [Hd _].
    rewrite prefix_cons, Hd. reflexivity.
  - rewrite inb_cons in Hx. apply orb_false_iff in Hx. destruct Hx as [Hc Hx].
    rewrite Index_cons, prefix_cons, Hc. cbn [andb option_map].
    specialize (IH Hx). cbn [append] in IH.
    destruct (Index (x ++ String "/" y) "//"); [discriminate | reflexivity].
Qed.

(** Trimming. *)
Lemma eqb_sym (a b : ascii) : Ascii.eqb a b = Ascii.eqb b a.
Proof.
  destruct (Ascii.eqb a b) eqn:E.
  - apply Ascii.eqb_eq in E. subst. now rewrite Ascii.eqb_refl.
  - destruct (Ascii.eqb b a) eqn:E'; [|reflexivity].
    apply Ascii.eqb_eq in E'. subst. now rewrite Ascii.eqb_refl in E.
Qed.

Lemma TrimRight_plain (c : ascii) (r : string) :
  inb c r = false -> TrimRight r (String c "") = r.
Proof.
  induction r as [|x r IH]; intros H; [reflexivity|].
  simpl in H. apply orb_false_iff in H. destruct H as [Hx Hr].
  simpl. rewrite (IH Hr), (eqb_sym x c), Hx. simpl. now rewrite andb_false_r.
Qed.

Lemma TrimRight_app (cut a r : string) :
  TrimRight r cut = r -> r <> "" -> TrimRight (a ++ r) cut = (a ++ r)%string.
Proof.
  intros Hr Hne. induction a as [|x a IH]; cbn [append]; [exact Hr|].
  simpl. rewrite IH.
  destruct (a ++ r)%string eqn:E; [|reflexivity].
  destruct a; [simpl in E; contradiction | discriminate].
Qed.

Lemma TrimLeft_keep (cut : string) (x : ascii) (s : string) :
  inb x cut = false -> TrimLeft (String x s) cut = String x s.
Proof. intros H. simpl. now rewrite H. Qed.


(** *** Splitting on [/] and trimming slashes *)

Definition nonEmpty (s : string) : bool := negb (String.eqb s "").

Lemma splitLoop_snoc (c : ascii) (cur u : string) :
  splitLoop (String c "") 0 cur (u ++ String c "")
  = splitLoop (String c "") 0 cur u ++ [""].
Proof.
  revert cur. induction u as [|x u IH]; intros cur; cbn [append].
  - rewrite splitLoop_sep. reflexivity.
  - rewrite !splitLoop_cons, !prefix_single.
    destruct (Ascii.eqb c x); cbn [len String.length Nat.sub]; rewrite IH; reflexivity.
Qed.

Lemma splitLoop_head (c : ascii) (cur s : string) :
  exists h t, splitLoop (String c "") 0 cur s = h :: t /\ (cur <> "" -> h <> "").
Proof.
  revert cur. induction s as [|x s IH]; intros cur.
  - exists cur, []. split; [reflexivity | auto].
  - rewrite splitLoop_cons, prefix_single. destruct (Ascii.eqb c x).
    + eexists _, _. split; [reflexivity | auto].
    + destruct (IH (cur ++ String x "")%string) as [h [t [E Hh]]].
      exists h, t. split; [exact E|]. intros _. apply Hh.
      destruct cur; discriminate.
Qed.

Fixpoint slashes (k : nat) : string :=
  match k with O => "" | S k' => String "/" (slashes k') end.

Lemma TrimRight_decomp (s : string) :
  exists k, s = (TrimRight s "/" ++ slashes k)%string.
Proof.
  induction s as [|x s [k IH]].
  - exists 0%nat. reflexivity.
  - cbn [TrimRight].
    destruct (String.eqb (TrimRight s "/") "" && inb x "/") eqn:E.
    + apply andb_true_iff in E. destruct E as [E1 E2].
      apply String.eqb_eq in E1. rewrite E1 in IH. cbn [append] in IH.
      exists (S k). cbn [append slashes].
      rewrite inb_cons, orb_false_r in E2. apply Ascii.eqb_eq in E2. subst x.
      now rewrite <- IH.
    + exists k. cbn [append]. now rewrite <- IH.
Qed.

Lemma filter_Split_slashes (u : string) (k : nat) :
  filter nonEmpty (Split (u ++ slashes k) "/") = filter nonEmpty (Split u "/").
Proof.
  revert u. induction k as [|k IH]; intros u; cbn [slashes].
  - now rewrite app_empty_r.
  - replace (u ++ String "/" (slashes k))%string
      with ((u ++ String "/" "") ++ slashes k)%string
      by (rewrite app_assoc; reflexivity).
    rewrite IH. unfold Split. rewrite splitLoop_snoc, filter_app. cbn [filter nonEmpty].
    simpl. now rewrite List.app_nil_r.
Qed.

Lemma filter_Split_TrimRight (s : string) :
  filter nonEmpty (Split (TrimRight s "/") "/") = filter nonEmpty (Split s "/").
Proof.
  destruct (TrimRight_decomp s) as [k E]. rewrite E at 2.
  symmetry. apply filter_Split_slashes.
Qed.

Lemma filter_Split_TrimLeft (s : string) :
  filter nonEmpty (Split (TrimLeft s "/") "/") = filter nonEmpty (Split s "/").
Proof.
  induction s as [|x s IH]; [reflexivity|].
  cbn [TrimLeft]. rewrite inb_cons, orb_false_r.
  destruct (Ascii.eqb x "/") eqn:E; [|reflexivity].
  apply Ascii.eqb_eq in E. subst x. rewrite IH.
  unfold Split at 2. rewrite splitLoop_sep. reflexivity.
Qed.

Lemma TrimRight_idem (s : string) :
  TrimRight (TrimRight s "/") "/" = TrimRight s "/".
Proof.
  induction s as [|x s IH]; [reflexivity|].
  cbn [TrimRight].
  destruct (String.eqb (TrimRight s "/") "" && inb x "/") eqn:E; [reflexivity|].
  cbn [TrimRight]. rewrite IH, E. reflexivity.
Qed.

Lemma TrimLeft_head (s : string) (x : ascii) (r : string) :
  TrimLeft s "/" = String x r -> inb x "/" = false.
Proof.
  induction s as [|y s IH]; [discriminate|].
  cbn [TrimLeft]. destruct (inb y "/") eqn:E; [exact IH|].
  intros H. injection H as -> _. exact E.
Qed.

Lemma TrimRight_head (s : string) (x : ascii) (r : string) :
  TrimRight s "/" = String x r -> exists r', s = String x r'.
Proof.
  destruct s as [|y s]; [discriminate|].
  cbn [TrimRight].
  destruct (String.eqb (TrimRight s "/") "" && inb y "/"); [discriminate|].
  intros H. injection H as -> _. eauto.
Qed.

Lemma last_splitLoop (cur s : string) :
  TrimRight s "/" = s -> (s <> "" \/ cur <> "") ->
  last (splitLoop "/" 0 cur s) "" <> "".
Proof.
  revert cur. induction s as [|x s IH]; intros cur Ht Hne.
  - simpl. destruct Hne as [H|H]; [contradiction | exact H].
  - cbn [TrimRight] in Ht.
    destruct (String.eqb (TrimRight s "/") "" && inb x "/") eqn:E; [discriminate|].
    injection Ht as Ht.
    rewrite splitLoop_cons, prefix_single.
    destruct (Ascii.eqb "/" x) eqn:Ex.
    + cbn [len String.length Nat.sub].
      assert (Hs : s <> "").
      { intros ->. rewrite inb_cons, orb_false_r, eqb_sym, Ex in E. discriminate. }
      destruct (splitLoop_head "/" "" s) as [h [t [Eh _]]].
      specialize (IH "" Ht (or_introl Hs)). rewrite Eh in IH |- *. exact IH.
    + apply IH; [exact Ht|]. right. destruct cur; discriminate.
Qed.

Lemma filter_nonEmpty_last (l : list string) :
  l <> [] -> last l "" <> "" -> filter nonEmpty l <> [].
Proof.
  induction l as [|a l IH]; intros Hne Hl; [contradiction|].
  cbn [filter]. destruct l as [|b l'].
  - simpl in Hl. unfold nonEmpty.
    destruct (String.eqb a "") eqn:E; [apply String.eqb_eq in E; contradiction|].
    discriminate.
  - destruct (nonEmpty a); [discriminate|].
    apply IH; [discriminate | exact Hl].
Qed.

(** A slash-trimmed string that splits into two parts or more has at least
    two non-empty components. *)
Lemma Split_Trim_two (s : string) :
  (2 <= length (Split (Trim s "/") "/"))%nat ->
  (2 <= length (filter nonEmpty (Split s "/")))%nat.
Proof.
  intros H.
  rewrite <- filter_Split_TrimLeft, <- filter_Split_TrimRight.
  fold (Trim s "/").
  assert (Hidem : TrimRight (Trim s "/") "/" = Trim s "/") by apply TrimRight_idem.
  remember (Trim s "/") as p eqn:Ep.
  destruct p as [|x p']; [simpl in H; lia|].
  assert (Hx : Ascii.eqb "/" x = false).
  { symmetry in Ep. unfold Trim in Ep.
    destruct (TrimRight_head _ _ _ Ep) as [r' Er].
    pose proof (TrimLeft_head _ _ _ Er) as Hx.
    rewrite inb_cons, orb_false_r in Hx. rewrite eqb_sym. exact Hx. }
  assert (Hne : String x p' <> "" \/ "" <> "") by (left; discriminate).
  pose proof (last_splitLoop "" (String x p') Hidem Hne) as Hlast.
  unfold Split in H |- *.
  rewrite splitLoop_cons, prefix_single, Hx in H, Hlast |- *.
  destruct (splitLoop_head "/" ("" ++ String x "") p') as [h [t [Eh Hh]]].
  rewrite Eh in H, Hlast |- *.
  assert (Hhne : h <> "") by (apply Hh; discriminate).
  cbn [filter]. unfold nonEmpty at 1.
  destruct (String.eqb h "") eqn:E; [apply String.eqb_eq in E; contradiction|].
  cbn [negb length].
  destruct t as [|b t']; [cbn [length] in H; lia|].
  assert (Hf : filter nonEmpty (b :: t') <> []).
  { apply filter_nonEmpty_last; [discriminate | exact Hlast]. }
  destruct (filter nonEmpty (b :: t')); [contradiction | cbn [length]; lia].
Qed.

(** Of two trailing parts, one is empty when fewer than two parts are
    non-empty. *)
Lemma lastTwo_empty (l : list string) :
  (length (filter nonEmpty l) < 2)%nat -> (2 <= length l)%nat ->
  nth (length l - 2) l "" = "" \/ nth (length l - 1) l "" = "".
Proof.
  intros Hf Hl.
  destruct (exists_last (l := l)) as [l1 [b E]]; [intros ->; simpl in Hl; lia|].
  subst l. rewrite length_app in Hl. simpl in Hl.
  destruct (exists_last (l := l1)) as [l2 [a E]]; [intros ->; simpl in Hl; lia|].
  subst l1. rewrite <- List.app_assoc in *. cbn [app] in *.
  rewrite length_app. cbn [length].
  replace (length l2 + 2 - 2)%nat with (length l2) by lia.
  replace (length l2 + 2 - 1)%nat with (S (length l2)) by lia.
  rewrite !app_nth2 by lia.
  replace (length l2 - length l2)%nat with 0%nat by lia.
  replace (S (length l2) - length l2)%nat with 1%nat by lia.
  cbn [nth].
  rewrite filter_app, length_app in Hf. cbn [filter] in Hf.
  unfold nonEmpty in Hf.
  destruct (String.eqb a "") eqn:Ea; [left; now apply String.eqb_eq|].
  destruct (String.eqb b "") eqn:Eb; [right; now apply String.eqb_eq|].
  simpl in Hf. lia.
Qed.

End GoFacts.

(* ------------------------------------------------------------------ *)
(** ** Remote parsing                                                  *)
(* ------------------------------------------------------------------ *)

Module RepoKeyFacts.
Import Go RepoKey GoFacts.

Definition noByte (c : ascii) (s : string) : Prop := inb c s = false.

(** The host of an SCP-like remote, from the text before its first colon:
    what follows the last [@] ([left[at+1:]]). *)
Definition scpHost (left : string) : string :=
  match LastIndex left "@" with
  | Some a => drop (S a) left
  | None => left
  end.

(** The parts of the path of an SCP-like remote, the text after its first
    colon. *)
Definition scpParts (right : string) : list string :=
  Split (TrimSuffix right ".git") "/".

Lemma take_drop (n : nat) (s : string) : (take n s ++ drop n s)%string = s.
Proof.
  revert n. induction s as [|c s IH]; intros [|n]; simpl; try reflexivity.
  now rewrite IH.
Qed.

(** Stripping [.git] neither adds nor removes a slash. *)
Lemma inb_TrimSuffix_git (s : string) :
  inb "/" (TrimSuffix s ".git") = inb "/" s.
Proof.
  unfold TrimSuffix. destruct (HasSuffix s ".git") eqn:E; [|reflexivity].
  unfold HasSuffix in E. apply andb_true_iff in E. destruct E as [_ E].
  apply String.eqb_eq in E.
  transitivity (inb "/" (take (len s - len ".git") s ++ drop (len s - len ".git") s)).
  - rewrite inb_app, E. cbn. now rewrite orb_false_r.
  - now rewrite take_drop.
Qed.

(** A string that contains the separator splits into two parts or more. *)
Lemma splitLoop_two (c : ascii) (cur s : string) :
  inb c s = true -> (2 <= length (splitLoop (String c "") 0 cur s))%nat.
Proof.
  revert cur. induction s as [|x s IH]; intros cur H; [discriminate|].
  rewrite splitLoop_cons, prefix_single.
  rewrite inb_cons in H. destruct (Ascii.eqb c x) eqn:E.
  - cbn [len String.length Nat.sub].
    destruct (splitLoop_head c "" s) as [h [t [Eq _]]]. rewrite Eq. simpl. lia.
  - apply IH. exact H.
Qed.

Section Facts.
Variable url_Parse : string -> option URL.

Lemma lastTwo_pair (o r : string) : lastTwo [o; r] = (o, r).
Proof. reflexivity. Qed.

(** The SCP-like spelling. *)
Lemma parseRemote_scp (user host o r : string) :
  noByte ":" user -> noByte "/" user ->
  noByte ":" host -> noByte "@" host -> noByte "/" host ->
  noByte "/" o -> noByte "/" r ->
  parseRemote url_Parse (user ++ "@" ++ host ++ ":" ++ o ++ "/" ++ r ++ ".git")
  = (host, o, r).
Proof.
  unfold noByte. intros Hu1 Hu2 Hh1 Hh2 Hh3 Ho Hr.
  pose (left := (user ++ String "@" host)%string).
  pose (right := ((o ++ String "/" r) ++ ".git")%string).
  replace (user ++ "@" ++ host ++ ":" ++ o ++ "/" ++ r ++ ".git")%string
    with (left ++ String ":" right)%string
    by (unfold left, right; cbn [append]; rewrite !app_assoc; reflexivity).
  assert (Hleft : inb ":" left = false).
  { unfold left. rewrite inb_app, Hu1, inb_cons, Hh1. reflexivity. }
  assert (Hat : Contains left "@" = true).
  { unfold left. apply (Contains_app user "@" host). }
  assert (Hno : Contains (left ++ String ":" right) "://" = false).
  { apply Contains_scheme_sep.
    replace (left ++ String ":" right)%string
      with ((left ++ String ":" o) ++ "/" ++ (r ++ ".git"))%string
      by (unfold right; cbn [append]; rewrite !app_assoc; reflexivity).
    apply no_double_slash.
    - unfold left. rewrite !inb_app, Hu2, !inb_cons, Hh3, Ho. reflexivity.
    - rewrite inb_app, Hr. reflexivity. }
  unfold parseRemote.
  rewrite (Index_single ":" left right Hleft), take_app, Hat, Hno.
  cbn [negb andb]. rewrite drop_S_app.
  unfold left at 1. rewrite (LastIndex_single "@" user host Hh2).
  unfold left. rewrite drop_S_app.
  unfold right. rewrite TrimSuffix_app.
  rewrite (Split_cons "/" o r Ho), (Split_plain "/" r Hr).
  reflexivity.
Qed.

(** A remote that contains [://] is parsed as a URL. *)
Lemma parseRemote_not_scp (remote : string) :
  Contains remote "://" = true ->
  parseRemote url_Parse remote =
  match url_Parse remote with
  | Some u =>
      if negb (String.eqb (Host u) "") then
        let parts := Split (Trim (TrimSuffix (Path u) ".git") "/") "/" in
        if (2 <=? length parts)%nat
        then (Host u, fst (lastTwo parts), snd (lastTwo parts))
        else ("", "", "")
      else ("", "", "")
  | None => ("", "", "")
  end.
Proof.
  intros Hc. unfold parseRemote. rewrite Hc.
  destruct (Index remote ":"); cbn [negb]; rewrite ?andb_false_r; reflexivity.
Qed.

(** The URL-like spelling, for a parsed URL with host [host] and path
    [/o/r.git]. *)
Lemma parseRemote_url (remote host o r : string) :
  Contains remote "://" = true ->
  url_Parse remote = Some {| Host := host; Path := "/" ++ o ++ "/" ++ r ++ ".git" |} ->
  host <> "" -> o <> "" -> r <> "" -> noByte "/" o -> noByte "/" r ->
  parseRemote url_Parse remote = (host, o, r).
Proof.
  unfold noByte. intros Hc Hu Hh Ho Hr Hos Hrs.
  assert (Hneq : String.eqb host "" = false).
  { destruct (String.eqb host "") eqn:E; [apply String.eqb_eq in E; contradiction | reflexivity]. }
  rewrite (parseRemote_not_scp remote Hc), Hu. cbv zeta. cbn [Host Path].
  rewrite Hneq. cbn [negb].
  replace ("/" ++ o ++ "/" ++ r ++ ".git")%string
    with ((String "/" (o ++ String "/" r)) ++ ".git")%string
    by (cbn [append]; rewrite !app_assoc; reflexivity).
  rewrite TrimSuffix_app. unfold Trim. cbn [TrimLeft inb]. cbn [Ascii.eqb Bool.eqb orb].
  destruct o as [|x o']; [contradiction|].
  rewrite inb_cons in Hos. apply orb_false_iff in Hos. destruct Hos as [Hx Ho'].
  cbn [append].
  rewrite (TrimLeft_keep "/" x (o' ++ String "/" r)).
  2:{ rewrite inb_cons, orb_false_r, eqb_sym. exact Hx. }
  change (String x (o' ++ String "/" r)) with ((String x o' ++ String "/" "") ++ r)%string
    || replace (String x (o' ++ String "/" r))
         with ((String x o' ++ String "/" "") ++ r)%string
         by (cbn [append]; rewrite app_assoc; reflexivity).
  rewrite (TrimRight_app "/" _ r (TrimRight_plain "/" r Hrs) Hr).
  replace ((String x o' ++ String "/" "") ++ r)%string
    with (String x o' ++ String "/" r)%string
    by (rewrite app_assoc; reflexivity).
  rewrite (Split_cons "/" (String x o') r), (Split_plain "/" r Hrs).
  - reflexivity.
  - rewrite inb_cons, Hx, Ho'. reflexivity.
Qed.

(** A URL-like remote whose path has fewer than two segments parses to
    the empty triple. *)
Lemma parseRemote_url_short (remote : string) (u : URL) :
  Contains remote "://" = true ->
  url_Parse remote = Some u ->
  (length (specSegments (Path u)) < 2)%nat ->
  parseRemote url_Parse remote = ("", "", "").
Proof.
  intros Hc Hu Hseg. rewrite (parseRemote_not_scp remote Hc), Hu. cbv zeta.
  destruct (negb (String.eqb (Host u) "")); [|reflexivity].
  destruct (2 <=? length (Split (Trim (TrimSuffix (Path u) ".git") "/") "/"))%nat eqn:E;
    [|reflexivity].
  apply Nat.leb_le in E. apply Split_Trim_two in E.
  unfold specSegments in Hseg. fold nonEmpty in Hseg. lia.
Qed.

(** An SCP-like remote whose path has fewer than two segments parses to a
    triple that callers reject, when URL parsing rejects the remote. *)
Lemma parseRemote_scp_short (remote : string) (i : nat) :
  Index remote ":" = Some i ->
  Contains (take i remote) "@" = true ->
  Contains remote "://" = false ->
  url_Parse remote = None ->
  (length (specSegments (drop (S i) remote)) < 2)%nat ->
  unusable (parseRemote url_Parse remote) = true.
Proof.
  intros Hi Hat Hc Hu Hseg. unfold parseRemote. rewrite Hi, Hat, Hc, Hu.
  cbn [negb andb]. cbv zeta.
  destruct (2 <=? length (Split (TrimSuffix (drop (S i) remote) ".git") "/"))%nat eqn:E;
    [|reflexivity].
  apply Nat.leb_le in E. unfold specSegments in Hseg. fold nonEmpty in Hseg.
  destruct (lastTwo_empty _ Hseg E) as [H|H]; unfold unusable, lastTwo; cbn [fst snd];
    rewrite H; cbn [String.eqb]; rewrite ?orb_true_r; reflexivity.
Qed.

(** The same remote, exactly: without a slash in the path the SCP-like
    reading gives up and the result is the empty triple; with a slash the
    result is the host and the last two parts of the path, one of which is
    empty. *)
Lemma parseRemote_scp_short_triple (remote : string) (i : nat) :
  Index remote ":" = Some i ->
  Contains (take i remote) "@" = true ->
  Contains remote "://" = false ->
  url_Parse remote = None ->
  (length (specSegments (drop (S i) remote)) < 2)%nat ->
  (noByte "/" (drop (S i) remote) ->
   parseRemote url_Parse remote = ("", "", ""))
  /\ (inb "/" (drop (S i) remote) = true ->
      exists owner repo,
        lastTwo (scpParts (drop (S i) remote)) = (owner, repo)
        /\ parseRemote url_Parse remote = (scpHost (take i remote), owner, repo)
        /\ (owner = "" \/ repo = "")).
Proof.
  intros Hi Hat Hc Hu Hseg. split.
  - unfold noByte. intros Hs. unfold parseRemote. rewrite Hi, Hat, Hc, Hu.
    cbn [negb andb]. cbv zeta.
    rewrite (Split_plain "/" (TrimSuffix (drop (S i) remote) ".git"))
      by (rewrite inb_TrimSuffix_git; exact Hs).
    reflexivity.
  - intros Hs.
    assert (E : (2 <= length (scpParts (drop (S i) remote)))%nat).
    { unfold scpParts, Split. apply splitLoop_two.
      rewrite inb_TrimSuffix_git. exact Hs. }
    exists (fst (lastTwo (scpParts (drop (S i) remote)))),
           (snd (lastTwo (scpParts (drop (S i) remote)))).
    split; [now destruct (lastTwo _)|]. split.
    + unfold parseRemote. rewrite Hi, Hat, Hc. cbn [negb andb]. cbv zeta.
      fold (scpParts (drop (S i) remote)). fold (scpHost (take i remote)).
      apply Nat.leb_le in E. rewrite E. reflexivity.
    + unfold specSegments in Hseg. fold nonEmpty in Hseg.
      fold (scpParts (drop (S i) remote)) in Hseg.
      unfold lastTwo. cbn [fst snd]. exact (lastTwo_empty _ Hseg E).
Qed.

End Facts.
End RepoKeyFacts.

Module RepoKeyClaims.
Import Go RepoKey GoFacts RepoKeyFacts.

(** C9, as stated, fails: the SCP-like remote [git@host:/repo.git] has
    one path segment after the host, and yet it does not parse to the
    empty triple: the owner is empty, the host and the repository are
    not. *)
Lemma parseRemote_scp_leading_slash :
  parseRemote url_Parse_lite "git@host:/repo.git" = ("host", "", "repo")
  /\ specSegments "/repo.git" = ["repo"]
  /\ parseRemote url_Parse_lite "git@host:/repo.git" <> ("", "", "").
Proof. split; [reflexivity | split; [reflexivity | discriminate]]. Qed.

(** C9, amended: for plain segments, the SCP-like and the URL-like
    spelling of a remote parse to the same triple [(host, o, r)], the
    trailing [.git] stripped; a URL-like remote with fewer than two path
    segments parses to the empty triple; an SCP-like remote with fewer
    than two path segments, which URL parsing rejects, parses to a triple
    with an empty component, which callers reject: to the empty triple
    when its path has no slash, and otherwise to its host with the last
    two parts of its path, of which the owner or the repository is
    empty.
    [url_Parse] is any function that behaves as [net/url.Parse] does on
    the remotes concerned. *)
Theorem parseRemote_spellings (url_Parse : string -> option URL)
  (user host o r : string) :
  noByte ":" user -> noByte "/" user ->
  noByte ":" host -> noByte "@" host -> noByte "/" host -> host <> "" ->
  noByte "/" o -> o <> "" -> noByte "/" r -> r <> "" ->
  url_Parse ("https://" ++ host ++ "/" ++ o ++ "/" ++ r ++ ".git")%string
  = Some {| Host := host; Path := ("/" ++ o ++ "/" ++ r ++ ".git")%string |} ->
  parseRemote url_Parse (user ++ "@" ++ host ++ ":" ++ o ++ "/" ++ r ++ ".git")%string
  = (host, o, r)
  /\ parseRemote url_Parse ("https://" ++ host ++ "/" ++ o ++ "/" ++ r ++ ".git")%string
     = (host, o, r)
  /\ (forall remote u,
        Contains remote "://" = true -> url_Parse remote = Some u ->
        (length (specSegments (Path u)) < 2)%nat ->
        parseRemote url_Parse remote = ("", "", ""))
  /\ (forall remote i,
        Index remote ":" = Some i -> Contains (take i remote) "@" = true ->
        Contains remote "://" = false -> url_Parse remote = None ->
        (length (specSegments (drop (S i) remote)) < 2)%nat ->
        unusable (parseRemote url_Parse remote) = true
        /\ (noByte "/" (drop (S i) remote) ->
            parseRemote url_Parse remote = ("", "", ""))
        /\ (inb "/" (drop (S i) remote) = true ->
            exists owner repo,
              lastTwo (scpParts (drop (S i) remote)) = (owner, repo)
              /\ parseRemote url_Parse remote
                 = (scpHost (take i remote), owner, repo)
              /\ (owner = "" \/ repo = ""))).
Proof.
  intros Hu1 Hu2 Hh1 Hh2 Hh3 Hh Ho Hone Hr Hrne Hurl.
  split; [|split; [|split]].
  - apply parseRemote_scp; assumption.
  - apply parseRemote_url; try assumption.
    apply (Contains_app "https" "://").
  - intros remote u. apply parseRemote_url_short.
  - intros remote i Hi Hat Hc Hu Hseg. split.
    + now apply (parseRemote_scp_short url_Parse remote i).
    + now apply (parseRemote_scp_short_triple url_Parse remote i).
Qed.

Lemma parseRemote_spellings_witness :
  parseRemote url_Parse_lite "git@host:o/r.git" = ("host", "o", "r")
  /\ parseRemote url_Parse_lite "https://host/o/r.git" = ("host", "o", "r")
  /\ parseRemote url_Parse_lite "git@host:repo.git" = ("", "", "")
  /\ (exists owner repo,
        lastTwo (scpParts "/repo.git") = (owner, repo)
        /\ parseRemote url_Parse_lite "git@host:/repo.git" = ("host", owner, repo)
        /\ (owner = "" \/ repo = "")).
Proof.
  destruct (parseRemote_spellings url_Parse_lite "git" "host" "o" "r")
    as [H1 [H2 [_ H4]]]; try reflexivity; try discriminate.
  split; [exact H1 | split; [exact H2 | split]].
  - assert (Hs : (length (specSegments (drop 9 "git@host:repo.git")) < 2)%nat)
      by (vm_compute; lia).
    exact (proj1 (proj2 (H4 "git@host:repo.git" 8%nat
                            eq_refl eq_refl eq_refl eq_refl Hs)) eq_refl).
  - assert (Hs : (length (specSegments (drop 9 "git@host:/repo.git")) < 2)%nat)
      by (vm_compute; lia).
    exact (proj2 (proj2 (H4 "git@host:/repo.git" 8%nat
                            eq_refl eq_refl eq_refl eq_refl Hs)) eq_refl).
Defined.
End RepoKeyClaims.

(* ------------------------------------------------------------------ *)
(** ** Lock validation                                                 *)
(* ------------------------------------------------------------------ *)

Module LockFacts.
Import Go Err Ports Lock.

Section Validate.

Context {T : GoTime} (os : LockOS T).

(** A record older than [maxAge] is stale. *)
Lemma validateLockFile_old (lockPath : string) (maxAge : Z) (info : LockInfo T) :
  readLockInfo os lockPath = inr info ->
  (maxAge < Sub T (timeNow os) (StartTime info))%Z ->
  validateLockFile os lockPath maxAge = false.
Proof.
  intros Hr Hage. unfold validateLockFile. rewrite Hr.
  apply Z.ltb_lt in Hage. now rewrite Hage.
Qed.

(** A record written on another host is held: locks are not stolen
    across hosts. *)
Lemma validateLockFile_other_host (lockPath : string) (maxAge : Z)
  (info : LockInfo T) (hostname : string) :
  readLockInfo os lockPath = inr info ->
  (Sub T (timeNow os) (StartTime info) <= maxAge)%Z ->
  Hostname info <> "" ->
  osHostname os = inr hostname ->
  hostname <> Hostname info ->
  validateLockFile os lockPath maxAge = true.
Proof.
  intros Hr Hage Hh Hos Hne. unfold validateLockFile. rewrite Hr, Hos.
  apply Z.ltb_ge in Hage. rewrite Hage.
  destruct (String.eqb_spec (Hostname info) ""); [contradiction|].
  destruct (String.eqb_spec hostname (Hostname info)); [contradiction|].
  reflexivity.
Qed.

(** The record is not known to come from another host. *)
Definition sameHost (info : LockInfo T) : Prop :=
  Hostname info = "" \/ osHostname os = inr (Hostname info)
  \/ exists e, osHostname os = inl e.

Lemma validateLockFile_local (lockPath : string) (maxAge : Z) (info : LockInfo T) :
  readLockInfo os lockPath = inr info ->
  (Sub T (timeNow os) (StartTime info) <= maxAge)%Z ->
  sameHost info ->
  validateLockFile os lockPath maxAge =
  match (if negb (String.eqb (ProcessStartID info) "")
         then match getProcessStartID os (PID info) with
              | Some id => Some (String.eqb id (ProcessStartID info))
              | None => None
              end
         else None) with
  | Some v => v
  | None => validateByTicksOrLiveness os info
  end.
Proof.
  intros Hr Hage Hsame. unfold validateLockFile. rewrite Hr.
  apply Z.ltb_ge in Hage. rewrite Hage.
  destruct Hsame as [H | [H | [e H]]].
  - rewrite H. reflexivity.
  - rewrite H, String.eqb_refl. destruct (negb (String.eqb (Hostname info) "")); reflexivity.
  - rewrite H. destruct (negb (String.eqb (Hostname info) "")); reflexivity.
Qed.

End Validate.

(** *** A Linux host on which [/proc] cannot be read *)

Definition sampleInfo (hostname : string) : LockInfo Mem.utc :=
  Build_LockInfo Mem.utc 4242 (1000 * Second)%Z "/repo" "/backup" hostname 0
    "ticks:12345".

Definition linuxHost (hostname : string) (procStat : Z -> result string)
  : LockOS Mem.utc :=
  Build_LockOS Mem.utc "linux" (1060 * Second)%Z (inr hostname)
    (fun _ => inr (sampleInfo "alpha")) procStat
    (fun _ => None) (fun _ => None) (fun _ => true).

Definition noProcHost : LockOS Mem.utc :=
  linuxHost "alpha" (fun _ => inl (Sentinel osErrNotExist)).

(** A Linux host named [beta] that reads the record written on [alpha];
    the process that now has the recorded PID started at another tick. *)
Definition statLine : string :=
  "4242 (devback) S 1 4242 4242 0 -1 4194304 100 0 0 0 1 1 0 0 20 0 1 0 99999 1000 10 18446744073709551615".

Definition betaHost : LockOS Mem.utc := linuxHost "beta" (fun _ => inr statLine).

(** The same reader on the host [alpha] itself. *)
Definition alphaHost : LockOS Mem.utc := linuxHost "alpha" (fun _ => inr statLine).

(** C2, as stated, fails on both counts: a record with a process start id
    is reported held when the local id cannot be obtained and the PID is
    alive, and when the local id differs but the record comes from another
    host. *)
Lemma validateLockFile_start_id_not_decisive :
  (ProcessStartID (sampleInfo "alpha") <> ""
   /\ getProcessStartID noProcHost 4242 = None
   /\ validateLockFile noProcHost "/backup/key/.backup.lock/info" (24 * Hour) = true)
  /\ (getProcessStartID betaHost 4242 = Some "ticks:99999"
      /\ "ticks:99999" <> ProcessStartID (sampleInfo "alpha")
      /\ validateLockFile betaHost "/backup/key/.backup.lock/info" (24 * Hour) = true).
Proof.
  split; (split; [|split]); try reflexivity; discriminate.
Qed.

(** C2, amended: for a record with a process start id that is not older
    than the maximum age and is not known to come from another host, the
    lock is held exactly when the locally computed id equals the recorded
    one (so it is stale whenever they differ); when the local id cannot be
    obtained, the verdict is that of the start ticks and of the liveness
    of the PID. *)
Theorem validateLockFile_start_id (T : GoTime) (os : LockOS T)
  (lockPath : string) (maxAge : Z) (info : LockInfo T) :
  readLockInfo os lockPath = inr info ->
  ProcessStartID info <> "" ->
  (Sub T (timeNow os) (StartTime info) <= maxAge)%Z ->
  sameHost os info ->
  (forall id, getProcessStartID os (PID info) = Some id ->
              validateLockFile os lockPath maxAge = String.eqb id (ProcessStartID info))
  /\ (getProcessStartID os (PID info) = None ->
      validateLockFile os lockPath maxAge = validateByTicksOrLiveness os info).
Proof.
  intros Hr Hid Hage Hsame.
  rewrite (validateLockFile_local os lockPath maxAge info Hr Hage Hsame).
  destruct (String.eqb_spec (ProcessStartID info) ""); [contradiction|].
  cbn [negb]. split.
  - intros id ->. reflexivity.
  - intros ->. reflexivity.
Qed.

Lemma validateLockFile_start_id_witness :
  validateLockFile alphaHost "/backup/key/.backup.lock/info" (24 * Hour) = false
  /\ validateLockFile noProcHost "/backup/key/.backup.lock/info" (24 * Hour) = true.
Proof.
  assert (Hage : (Sub Mem.utc (timeNow alphaHost) (StartTime (sampleInfo "alpha"))
                  <= 24 * Hour)%Z) by (vm_compute; discriminate).
  destruct (validateLockFile_start_id Mem.utc alphaHost
              "/backup/key/.backup.lock/info" (24 * Hour) (sampleInfo "alpha"))
    as [Hdiff _]; [reflexivity | discriminate | exact Hage | right; left; reflexivity |].
  destruct (validateLockFile_start_id Mem.utc noProcHost
              "/backup/key/.backup.lock/info" (24 * Hour) (sampleInfo "alpha"))
    as [_ Hnone]; [reflexivity | discriminate | exact Hage | right; left; reflexivity |].
  split.
  - rewrite (Hdiff "ticks:99999" eq_refl). reflexivity.
  - rewrite (Hnone eq_refl). reflexivity.
Defined.

End LockFacts.
(* ------------------------------------------------------------------ *)
(** ** Rotation                                                        *)
(* ------------------------------------------------------------------ *)

Module RotationFacts.
Import Go Err Ports Rotation.

Section DryRun.

Context {T : GoTime} {W : Type} (deps : Dependencies T W).

Lemma keepDaysLoop_dry (limit : Z) (now : Time T) (snaps : list snapshot)
  (alive : list bool) (w : W) :
  snd (keepDaysLoop deps true limit now snaps alive w) = w.
Proof.
  revert alive. induction snaps as [|s snaps IH]; intros [|a alive]; try reflexivity.
  cbn [keepDaysLoop]. unfold removeUnlessDryRun.
  specialize (IH alive).
  destruct (keepDaysLoop deps true limit now snaps alive w) as [r w'] eqn:E.
  cbn [snd] in IH. subst w'.
  destruct (negb a); [reflexivity|].
  destruct (Stat (FileSystem deps) (Done s) w); [reflexivity|].
  destruct (limit <? Sub T now (OfInstant T (ModTime f)))%Z; reflexivity.
Qed.

Lemma keepCountLoop_dry (snaps : list snapshot) (alive : list bool)
  (toRemove : Z) (w : W) :
  snd (keepCountLoop deps true snaps alive toRemove w) = w.
Proof.
  revert alive toRemove.
  induction snaps as [|s snaps IH]; intros [|a alive] toRemove; try reflexivity.
  cbn [keepCountLoop]. unfold removeUnlessDryRun.
  destruct (negb (0 <? toRemove)%Z); [reflexivity|].
  destruct (negb a).
  - specialize (IH alive toRemove).
    destruct (keepCountLoop deps true snaps alive toRemove w); exact IH.
  - specialize (IH alive (toRemove - 1)%Z).
    destruct (keepCountLoop deps true snaps alive (toRemove - 1) w); exact IH.
Qed.

Lemma sizeLoop_dry (kbLimit : Z) (snaps : list snapshot) (alive : list bool)
  (sizes : list Z) (totalKB : Z) (w : W) :
  snd (sizeLoop deps true kbLimit snaps alive sizes totalKB w) = w.
Proof.
  revert alive sizes totalKB.
  induction snaps as [|s snaps IH]; intros [|a alive] [|kb sizes] totalKB;
    try reflexivity.
  cbn [sizeLoop]. unfold removeUnlessDryRun.
  destruct (negb (kbLimit <? totalKB)%Z); [reflexivity|].
  destruct (negb a).
  - specialize (IH alive sizes totalKB).
    destruct (sizeLoop deps true kbLimit snaps alive sizes totalKB w); exact IH.
  - specialize (IH alive sizes (wrap64 (totalKB - kb))).
    destruct (sizeLoop deps true kbLimit snaps alive sizes (wrap64 (totalKB - kb)) w);
      exact IH.
Qed.

Lemma applyKeepDays_dry cfg snaps alive now w :
  snd (applyKeepDays deps cfg true snaps alive now w) = w.
Proof.
  unfold applyKeepDays. destruct (KeepDays cfg <=? 0)%Z; [reflexivity|].
  apply keepDaysLoop_dry.
Qed.

Lemma applyKeepCount_dry cfg snaps alive w :
  snd (applyKeepCount deps cfg true snaps alive w) = w.
Proof.
  unfold applyKeepCount. destruct (KeepCount cfg <=? 0)%Z; [reflexivity|].
  destruct (countLive alive <=? KeepCount cfg)%Z; [reflexivity|].
  apply keepCountLoop_dry.
Qed.

Lemma applySizeLimit_dry cfg snaps alive w :
  snd (applySizeLimit deps cfg true snaps alive w) = w.
Proof.
  unfold applySizeLimit.
  destruct ((MaxTotalGBPerRepo cfg <=? 0)%Z || NoSize cfg); [reflexivity|].
  apply sizeLoop_dry.
Qed.

Lemma rotateRepo_dry_world (repoDir : string) (cfg : Config) (w : W) :
  snd (rotateRepo deps repoDir cfg true w) = w.
Proof.
  unfold rotateRepo. destruct (listSnapshots deps repoDir w) as [e|snaps]; [reflexivity|].
  pose proof (applyKeepDays_dry cfg snaps (map (fun _ => true) snaps) (Now deps w) w) as H1.
  destruct (applyKeepDays deps cfg true snaps (map (fun _ => true) snaps) (Now deps w) w)
    as [a1 w1]. cbn [snd] in H1. subst w1.
  pose proof (applyKeepCount_dry cfg snaps a1 w) as H2.
  destruct (applyKeepCount deps cfg true snaps a1 w) as [a2 w2]. cbn [snd] in H2. subst w2.
  pose proof (applySizeLimit_dry cfg snaps a2 w) as H3.
  destruct (applySizeLimit deps cfg true snaps a2 w) as [a3 w3]. exact H3.
Qed.

End DryRun.

(** C8: rotation in dry-run mode leaves the world as it found it, whatever
    the filesystem adapter, the snapshots on disk and the configuration;
    run on an adapter that records deletions it issues no [RemoveAll]; and
    running it again gives the same outcome. *)
Theorem rotateRepo_dry_run_frame (T : GoTime) (W : Type) (deps : Dependencies T W)
  (repoDir : string) (cfg : Config) (w : W) (log : list string) :
  snd (rotateRepo deps repoDir cfg true w) = w
  /\ snd (snd (rotateRepo (recordingDeps deps) repoDir cfg true (w, log))) = log
  /\ rotateRepo deps repoDir cfg true (snd (rotateRepo deps repoDir cfg true w))
     = rotateRepo deps repoDir cfg true w.
Proof.
  split; [|split].
  - apply rotateRepo_dry_world.
  - now rewrite rotateRepo_dry_world.
  - now rewrite rotateRepo_dry_world.
Qed.


(** *** The count rule *)

Definition afterAge (st : list bool * list bool * list bool) : list bool := fst (fst st).
Definition afterCount (st : list bool * list bool * list bool) : list bool := snd (fst st).
Definition afterSize (st : list bool * list bool * list bool) : list bool := snd st.

(** [a] is not younger than [b]: the order in which [listSnapshots]
    returns the snapshots. *)
Definition notYounger (a b : snapshot) : Prop :=
  String.ltb (TimeDir b) (TimeDir a) = false.

Lemma ltb_asym (a b : string) : String.ltb a b = true -> String.ltb b a = false.
Proof.
  unfold String.ltb. rewrite (String.compare_antisym a b).
  destruct (String.compare b a); simpl; congruence.
Qed.

Lemma notLt_trans (a b c : string) :
  String.ltb b a = false -> String.ltb c b = false -> String.ltb c a = false.
Proof.
  unfold String.ltb. intros Hab Hbc.
  destruct (String.compare c a) eqn:Eca; try reflexivity. exfalso.
  destruct (String.compare b a) eqn:Eba; try discriminate.
  - apply String.compare_eq_iff in Eba. subst b. rewrite Eca in Hbc. discriminate.
  - rewrite String.compare_antisym in Eba.
    destruct (String.compare a b) eqn:Eab; try discriminate.
    apply String_as_OT.cmp_lt in Eca, Eab.
    pose proof (String_as_OT.lt_trans _ _ _ Eca Eab) as Hcb.
    apply String_as_OT.cmp_lt in Hcb.
    unfold String_as_OT.cmp in Hcb. rewrite Hcb in Hbc. discriminate.
Qed.

Lemma insertSnapshot_Forall (P : snapshot -> Prop) (s : snapshot) (l : list snapshot) :
  P s -> Forall P l -> Forall P (insertSnapshot s l).
Proof.
  intros Hs Hl. induction l as [|x r IH]; simpl.
  - constructor; [exact Hs | constructor].
  - destruct (String.ltb (TimeDir s) (TimeDir x)).
    + constructor; assumption.
    + inversion Hl; subst. constructor; auto.
Qed.

Lemma insertSnapshot_sorted (s : snapshot) (l : list snapshot) :
  StronglySorted notYounger l -> StronglySorted notYounger (insertSnapshot s l).
Proof.
  induction l as [|x r IH]; intros Hl; simpl.
  - constructor; constructor.
  - inversion Hl as [|? ? Hr Hx]; subst.
    destruct (String.ltb (TimeDir s) (TimeDir x)) eqn:E.
    + constructor; [exact Hl|]. constructor.
      * unfold notYounger. now apply ltb_asym.
      * eapply Forall_impl; [|exact Hx]. intros y Hy. unfold notYounger in *.
        apply (notLt_trans _ (TimeDir x) _); [now apply ltb_asym | exact Hy].
    + constructor; [apply IH; exact Hr|].
      apply insertSnapshot_Forall; [exact E | exact Hx].
Qed.

Lemma sortSnapshots_sorted (l : list snapshot) :
  StronglySorted notYounger (sortSnapshots l).
Proof.
  induction l as [|s l IH]; simpl; [constructor|].
  apply insertSnapshot_sorted. exact IH.
Qed.

Section CountRule.

Context {T : GoTime} {W : Type} (deps : Dependencies T W).

Lemma listSnapshots_sorted (repoDir : string) (w : W) (snaps : list snapshot) :
  listSnapshots deps repoDir w = inr snaps -> StronglySorted notYounger snaps.
Proof.
  unfold listSnapshots. destruct (ReadDir (FileSystem deps) repoDir w); [discriminate|].
  intros H. injection H as <-. apply sortSnapshots_sorted.
Qed.

Lemma all_true_repeat (snaps : list snapshot) :
  map (fun _ => true) snaps = repeat true (length snaps).
Proof. induction snaps; simpl; congruence. Qed.

Lemma countLive_split (a b : nat) :
  countLive (repeat false a ++ repeat true b) = Z.of_nat b.
Proof.
  unfold countLive. rewrite filter_app, length_app.
  replace (filter (fun ok : bool => ok) (repeat false a)) with (@nil bool)
    by (induction a; simpl; auto).
  replace (filter (fun ok : bool => ok) (repeat true b)) with (repeat true b)
    by (induction b; simpl; congruence).
  rewrite repeat_length. reflexivity.
Qed.

Lemma keepCountLoop_all_true (dryRun : bool) (snaps : list snapshot)
  (toRemove : nat) (w : W) :
  (toRemove <= length snaps)%nat ->
  fst (keepCountLoop deps dryRun snaps (repeat true (length snaps))
         (Z.of_nat toRemove) w)
  = repeat false toRemove ++ repeat true (length snaps - toRemove).
Proof.
  revert toRemove w. induction snaps as [|s snaps IH]; intros toRemove w Hle.
  - simpl in Hle. assert (toRemove = 0)%nat by lia. subst. reflexivity.
  - cbn [length repeat keepCountLoop].
    destruct toRemove as [|t].
    + reflexivity.
    + replace (0 <? Z.of_nat (S t))%Z with true by (symmetry; apply Z.ltb_lt; lia).
      cbn [negb]. replace (Z.of_nat (S t) - 1)%Z with (Z.of_nat t) by lia.
      specialize (IH t (removeUnlessDryRun deps dryRun s w) ltac:(simpl in Hle; lia)).
      destruct (keepCountLoop deps dryRun snaps (repeat true (length snaps))
                  (Z.of_nat t) (removeUnlessDryRun deps dryRun s w)) as [r w'].
      cbn [fst] in IH |- *. rewrite IH. reflexivity.
Qed.

(** On a list where every snapshot is alive the count rule kills the
    first [n - min n k] snapshots and no other. *)
Lemma applyKeepCount_all_true (cfg : Config) (dryRun : bool)
  (snaps : list snapshot) (w : W) :
  (0 < KeepCount cfg)%Z ->
  let n := length snaps in
  let m := Z.to_nat (Z.min (Z.of_nat n) (KeepCount cfg)) in
  fst (applyKeepCount deps cfg dryRun snaps (repeat true n) w)
  = repeat false (n - m) ++ repeat true m.
Proof.
  intros Hk n m. unfold applyKeepCount.
  replace (KeepCount cfg <=? 0)%Z with false by (symmetry; apply Z.leb_gt; lia).
  assert (Hlive : countLive (repeat true n) = Z.of_nat n).
  { change (repeat true n) with (repeat false 0 ++ repeat true n). apply countLive_split. }
  rewrite Hlive.
  destruct (Z.of_nat n <=? KeepCount cfg)%Z eqn:E.
  - apply Z.leb_le in E. cbn [fst].
    assert (m = n) by (unfold m; rewrite Z.min_l by lia; apply Nat2Z.id).
    rewrite H. replace (n - n)%nat with 0%nat by lia. reflexivity.
  - apply Z.leb_gt in E.
    assert (Hm : (m = Z.to_nat (KeepCount cfg))%nat) by (unfold m; now rewrite Z.min_r by lia).
    replace (Z.of_nat n - KeepCount cfg)%Z with (Z.of_nat (n - m)) by lia.
    unfold n. rewrite keepCountLoop_all_true by lia.
    fold n. replace (n - (n - m))%nat with m by lia. reflexivity.
Qed.

End CountRule.

(** *** What the rules do to the disk *)

Section Disk.

Context {T : GoTime} {W : Type} (deps : Dependencies T W).

(** What the removal of a snapshot asks of the filesystem: [RemoveAll] on
    its time directory, then [RemoveAll] on its date directory if that is
    left empty. *)
Definition withoutSnapshot (s : snapshot) (w : W) : W :=
  let w1 := snd (RemoveAll (FileSystem deps) (TimeDir s) w) in
  match ReadDir (FileSystem deps) (DateDir s) w1 with
  | inr [] => snd (RemoveAll (FileSystem deps) (DateDir s) w1)
  | _ => w1
  end.

(** The world once the [j] oldest of [snaps] are removed, the oldest
    first. *)
Definition removeOldest (j : nat) (snaps : list snapshot) (w : W) : W :=
  fold_left (fun w' s => withoutSnapshot s w') (firstn j snaps) w.

Lemma removeSnapshot_withoutSnapshot (s : snapshot) (w : W) :
  removeSnapshot deps s w = withoutSnapshot s w.
Proof. reflexivity. Qed.

(** The filesystem carries out the removal of the [j] oldest of [snaps]:
    the snapshots then listed under [repoDir] are the others.
    [removeSnapshot] discards the error of [RemoveAll], so that this is a
    property of the filesystem, not of the code. *)
Definition removalsTakeEffect (repoDir : string) (snaps : list snapshot)
  (j : nat) (w : W) : Prop :=
  listSnapshots deps repoDir (removeOldest j snaps w) = inr (skipn j snaps).

(** A rule that changes no mark has removed nothing. *)
Lemma keepDaysLoop_idle (dryRun : bool) (limit : Z) (now : Time T)
  (snaps : list snapshot) (alive : list bool) (w : W) :
  fst (keepDaysLoop deps dryRun limit now snaps alive w) = alive ->
  snd (keepDaysLoop deps dryRun limit now snaps alive w) = w.
Proof.
  revert alive w. induction snaps as [|s snaps IH]; intros [|a alive] w;
    try reflexivity.
  cbn [keepDaysLoop].
  assert (Hkeep : fst (let '(r, w') := keepDaysLoop deps dryRun limit now snaps alive w in
                       (a :: r, w')) = a :: alive ->
                  snd (let '(r, w') := keepDaysLoop deps dryRun limit now snaps alive w in
                       (a :: r, w')) = w).
  { specialize (IH alive w).
    destruct (keepDaysLoop deps dryRun limit now snaps alive w) as [r w'].
    cbn [fst snd] in *. intros H. injection H as H. exact (IH H). }
  destruct a; cbn [negb]; [|exact Hkeep].
  destruct (Stat (FileSystem deps) (Done s) w) as [e|fi]; [exact Hkeep|].
  destruct (limit <? Sub T now (OfInstant T (ModTime fi)))%Z; [|exact Hkeep].
  cbv zeta.
  destruct (keepDaysLoop deps dryRun limit now snaps alive
              (removeUnlessDryRun deps dryRun s w)) as [r w'].
  cbn [fst]. discriminate.
Qed.

Lemma applyKeepDays_idle (cfg : Config) (dryRun : bool) (snaps : list snapshot)
  (alive : list bool) (now : Time T) (w : W) :
  fst (applyKeepDays deps cfg dryRun snaps alive now w) = alive ->
  snd (applyKeepDays deps cfg dryRun snaps alive now w) = w.
Proof.
  unfold applyKeepDays. destruct (KeepDays cfg <=? 0)%Z; [reflexivity|].
  apply keepDaysLoop_idle.
Qed.

Lemma sizeLoop_idle (dryRun : bool) (kbLimit : Z) (snaps : list snapshot)
  (alive : list bool) (sizes : list Z) (totalKB : Z) (w : W) :
  fst (sizeLoop deps dryRun kbLimit snaps alive sizes totalKB w) = alive ->
  snd (sizeLoop deps dryRun kbLimit snaps alive sizes totalKB w) = w.
Proof.
  revert alive sizes totalKB w.
  induction snaps as [|s snaps IH]; intros [|a alive] [|kb sizes] totalKB w;
    try reflexivity.
  cbn [sizeLoop].
  destruct (negb (kbLimit <? totalKB)%Z); [reflexivity|].
  destruct a; cbn [negb].
  - cbv zeta.
    destruct (sizeLoop deps dryRun kbLimit snaps alive sizes (wrap64 (totalKB - kb))
                (removeUnlessDryRun deps dryRun s w)) as [r w'].
    cbn [fst]. discriminate.
  - specialize (IH alive sizes totalKB w).
    destruct (sizeLoop deps dryRun kbLimit snaps alive sizes totalKB w) as [r w'].
    cbn [fst snd] in *. intros H. injection H as H. exact (IH H).
Qed.

Lemma applySizeLimit_idle (cfg : Config) (dryRun : bool) (snaps : list snapshot)
  (alive : list bool) (w : W) :
  fst (applySizeLimit deps cfg dryRun snaps alive w) = alive ->
  snd (applySizeLimit deps cfg dryRun snaps alive w) = w.
Proof.
  unfold applySizeLimit.
  destruct ((MaxTotalGBPerRepo cfg <=? 0)%Z || NoSize cfg); [reflexivity|].
  apply sizeLoop_idle.
Qed.

(** On a list where every snapshot is alive the count rule removes the
    first [toRemove] snapshots, in the order of the list, and touches
    nothing else. *)
Lemma keepCountLoop_world (dryRun : bool) (snaps : list snapshot)
  (toRemove : nat) (w : W) :
  snd (keepCountLoop deps dryRun snaps (repeat true (length snaps))
         (Z.of_nat toRemove) w)
  = fold_left (fun w' s => removeUnlessDryRun deps dryRun s w')
      (firstn toRemove snaps) w.
Proof.
  revert toRemove w. induction snaps as [|s snaps IH]; intros toRemove w.
  - destruct toRemove; reflexivity.
  - cbn [length repeat keepCountLoop].
    destruct toRemove as [|t]; [reflexivity|].
    replace (0 <? Z.of_nat (S t))%Z with true by (symmetry; apply Z.ltb_lt; lia).
    cbn [negb]. replace (Z.of_nat (S t) - 1)%Z with (Z.of_nat t) by lia.
    specialize (IH t (removeUnlessDryRun deps dryRun s w)).
    destruct (keepCountLoop deps dryRun snaps (repeat true (length snaps))
                (Z.of_nat t) (removeUnlessDryRun deps dryRun s w)) as [r w'].
    cbn [snd firstn fold_left] in IH |- *. exact IH.
Qed.

Lemma applyKeepCount_world (cfg : Config) (dryRun : bool)
  (snaps : list snapshot) (w : W) :
  (0 < KeepCount cfg)%Z ->
  let n := length snaps in
  let m := Z.to_nat (Z.min (Z.of_nat n) (KeepCount cfg)) in
  snd (applyKeepCount deps cfg dryRun snaps (repeat true n) w)
  = if dryRun then w else removeOldest (n - m) snaps w.
Proof.
  intros Hk n m.
  assert (Hfold : forall l,
             fold_left (fun w' s => removeUnlessDryRun deps dryRun s w') l w
             = if dryRun then w else fold_left (fun w' s => withoutSnapshot s w') l w).
  { intros l. unfold removeUnlessDryRun. destruct dryRun.
    - induction l as [|x l IHl]; [reflexivity | exact IHl].
    - revert w. induction l as [|x l IHl]; intros w0; [reflexivity|].
      cbn [fold_left]. rewrite removeSnapshot_withoutSnapshot. apply IHl. }
  unfold applyKeepCount.
  replace (KeepCount cfg <=? 0)%Z with false by (symmetry; apply Z.leb_gt; lia).
  assert (Hlive : countLive (repeat true n) = Z.of_nat n).
  { change (repeat true n) with (repeat false 0 ++ repeat true n). apply countLive_split. }
  rewrite Hlive.
  destruct (Z.of_nat n <=? KeepCount cfg)%Z eqn:E.
  - apply Z.leb_le in E. cbn [snd].
    assert (m = n) by (unfold m; rewrite Z.min_l by lia; apply Nat2Z.id).
    rewrite H. replace (n - n)%nat with 0%nat by lia.
    destruct dryRun; reflexivity.
  - apply Z.leb_gt in E.
    assert (Hm : (m = Z.to_nat (KeepCount cfg))%nat) by (unfold m; now rewrite Z.min_r by lia).
    replace (Z.of_nat n - KeepCount cfg)%Z with (Z.of_nat (n - m)) by lia.
    unfold n at 1. rewrite keepCountLoop_world. apply Hfold.
Qed.

End Disk.

(** C3, amended: when rotation runs with [keepCount = k > 0] and neither
    the age rule nor the size rule removes a snapshot, the snapshots that
    stay alive number [min (pre-count, k)], and the ones removed are the
    first of the list, which is ordered by [TimeDir]: the oldest.  On the
    disk a dry run changes nothing; otherwise rotation leaves the world
    that the removal of these oldest snapshots, one after the other,
    leaves, and on a filesystem that carries the removals out the [.done]
    snapshots listed afterwards are the others, [min (pre-count, k)] of
    them. *)
Theorem rotateRepo_keep_count (T : GoTime) (W : Type) (deps : Dependencies T W)
  (repoDir : string) (cfg : Config) (dryRun : bool) (w : W)
  (snaps : list snapshot) :
  listSnapshots deps repoDir w = inr snaps ->
  (0 < KeepCount cfg)%Z ->
  afterAge (rotationStages deps cfg dryRun snaps w) = map (fun _ => true) snaps ->
  afterSize (rotationStages deps cfg dryRun snaps w)
  = afterCount (rotationStages deps cfg dryRun snaps w) ->
  let n := length snaps in
  let m := Z.to_nat (Z.min (Z.of_nat n) (KeepCount cfg)) in
  let alive := repeat false (n - m) ++ repeat true m in
  let after := snd (rotateRepo deps repoDir cfg dryRun w) in
  fst (rotateRepo deps repoDir cfg dryRun w) = Some (snaps, alive)
  /\ countLive alive = Z.min (Z.of_nat n) (KeepCount cfg)
  /\ StronglySorted notYounger snaps
  /\ after = (if dryRun then w else removeOldest deps (n - m) snaps w)
  /\ (dryRun = false ->
      removalsTakeEffect deps repoDir snaps (n - m) w ->
      listSnapshots deps repoDir after = inr (skipn (n - m) snaps)
      /\ Z.of_nat (length (skipn (n - m) snaps))
         = Z.min (Z.of_nat n) (KeepCount cfg)).
Proof.
  intros Hlist Hk Hage Hsize n m alive after.
  assert (Hrun : rotateRepo deps repoDir cfg dryRun w
                 = (Some (snaps, alive),
                    if dryRun then w else removeOldest deps (n - m) snaps w)).
  { unfold rotateRepo. rewrite Hlist.
    unfold afterAge, afterSize, afterCount, rotationStages in Hage, Hsize.
    pose proof (applyKeepDays_idle deps cfg dryRun snaps (map (fun _ => true) snaps)
                  (Now deps w) w) as Hw1.
    destruct (applyKeepDays deps cfg dryRun snaps (map (fun _ => true) snaps)
                (Now deps w) w) as [a1 w1].
    pose proof (applyKeepCount_all_true deps cfg dryRun snaps w1 Hk) as Hc.
    pose proof (applyKeepCount_world deps cfg dryRun snaps w1 Hk) as Hw2.
    cbv zeta in Hc, Hw2. fold n m in Hc, Hw2.
    destruct (applyKeepCount deps cfg dryRun snaps a1 w1) as [a2 w2] eqn:E2.
    pose proof (applySizeLimit_idle deps cfg dryRun snaps a2 w2) as Hw3.
    destruct (applySizeLimit deps cfg dryRun snaps a2 w2) as [a3 w3].
    cbn [fst snd] in Hage, Hsize, Hw1, Hw3 |- *. subst a1 a3.
    specialize (Hw1 eq_refl). specialize (Hw3 eq_refl). subst w1 w3.
    rewrite all_true_repeat in E2. fold n in E2. rewrite E2 in Hc, Hw2.
    cbn [fst snd] in Hc, Hw2. subst a2 w2. reflexivity. }
  split; [|split; [|split; [|split]]].
  - rewrite Hrun. reflexivity.
  - unfold alive. rewrite countLive_split. unfold m. lia.
  - exact (listSnapshots_sorted deps repoDir w snaps Hlist).
  - unfold after. rewrite Hrun. reflexivity.
  - intros Hdry Heff. unfold after. rewrite Hrun, Hdry. cbn [snd]. split.
    + exact Heff.
    + rewrite length_skipn. fold n. unfold m. lia.
Qed.


(** *** The size rule *)

(** Kill the [j] oldest living snapshots. *)
Fixpoint killOldest (j : nat) (alive : list bool) : list bool :=
  match j, alive with
  | S j', true :: rest => false :: killOldest j' rest
  | S _, false :: rest => false :: killOldest j rest
  | _, _ => alive
  end.

(** The total size of the living snapshots. *)
Fixpoint liveTotal (alive : list bool) (sizes : list Z) : Z :=
  match alive, sizes with
  | a :: alive', kb :: sizes' =>
      ((if a then kb else 0) + liveTotal alive' sizes')%Z
  | _, _ => 0%Z
  end.

Definition sumZ (l : list Z) : Z := fold_right Z.add 0%Z l.

(** Dead snapshots are measured as 0. *)
Definition deadAreZero (alive : list bool) (sizes : list Z) : Prop :=
  Forall2 (fun (a : bool) kb => a = false -> kb = 0%Z) alive sizes.

Lemma wrap64_id (z : Z) : inInt64 z -> wrap64 z = z.
Proof.
  unfold inInt64, minInt64, maxInt64, wrap64. intros H.
  rewrite Z.mod_small by lia. lia.
Qed.

Lemma sumZ_nonneg (l : list Z) :
  Forall (fun kb => 0 <= kb)%Z l -> (0 <= sumZ l)%Z.
Proof.
  induction 1 as [|kb l Hkb _ IH]; cbn [sumZ fold_right]; [lia|].
  fold (sumZ l). lia.
Qed.

Lemma killOldest_zero (alive : list bool) : killOldest 0 alive = alive.
Proof. destruct alive; reflexivity. Qed.

Lemma killOldest_dead (j : nat) (rest : list bool) :
  killOldest j (false :: rest) = false :: killOldest j rest.
Proof. destruct j; [now rewrite !killOldest_zero | reflexivity]. Qed.

Lemma liveTotal_all (alive : list bool) (sizes : list Z) :
  deadAreZero alive sizes -> liveTotal alive sizes = sumZ sizes.
Proof.
  induction 1 as [|a kb alive sizes Ha _ IH]; [reflexivity|].
  cbn [liveTotal sumZ fold_right]. fold (sumZ sizes). rewrite IH.
  destruct a; [reflexivity | rewrite (Ha eq_refl); reflexivity].
Qed.

Lemma totalSizeKB_sum (sizes : list Z) :
  Forall (fun kb => 0 <= kb)%Z sizes -> (sumZ sizes <= maxInt64)%Z ->
  totalSizeKB sizes = sumZ sizes.
Proof.
  unfold totalSizeKB.
  assert (G : forall acc, (0 <= acc)%Z -> Forall (fun kb => 0 <= kb)%Z sizes ->
              (acc + sumZ sizes <= maxInt64)%Z ->
              fold_left (fun total kb => wrap64 (total + kb)) sizes acc
              = (acc + sumZ sizes)%Z).
  { induction sizes as [|kb sizes IH]; intros acc Hacc Hs Hsum.
    - simpl. lia.
    - inversion Hs as [|? ? Hkb Hs']; subst. cbn [fold_left sumZ fold_right] in *.
      fold (sumZ sizes) in *.
      pose proof (sumZ_nonneg _ Hs') as Hnn.
      rewrite wrap64_id by (unfold inInt64, minInt64, maxInt64 in *; lia).
      rewrite IH; [lia | lia | exact Hs' | lia]. }
  intros Hs Hsum. rewrite G; [lia | lia | exact Hs | lia].
Qed.

Section SizeRule.

Context {T : GoTime} {W : Type} (deps : Dependencies T W).

Lemma measureSizes_dead (snaps : list snapshot) (alive : list bool) (w : W) :
  length snaps = length alive ->
  deadAreZero alive (measureSizes deps snaps alive w).
Proof.
  revert alive. induction snaps as [|s snaps IH]; intros [|a alive] Hlen;
    try discriminate; [constructor|].
  cbn [measureSizes]. constructor.
  - intros ->. reflexivity.
  - apply IH. simpl in Hlen. lia.
Qed.

(** The removal loop of the size rule, when the running total cannot
    wrap: it kills the oldest living snapshots, one at a time, as long as
    the total of the living ones exceeds the limit. *)
Lemma sizeLoop_kills_oldest (dryRun : bool) (kbLimit : Z)
  (snaps : list snapshot) (alive : list bool) (sizes : list Z) (w : W) :
  length snaps = length alive ->
  deadAreZero alive sizes ->
  Forall (fun kb => 0 <= kb)%Z sizes ->
  (sumZ sizes <= maxInt64)%Z ->
  exists j,
    fst (sizeLoop deps dryRun kbLimit snaps alive sizes (sumZ sizes) w)
    = killOldest j alive
    /\ (liveTotal (killOldest j alive) sizes <= kbLimit
        \/ countLive (killOldest j alive) = 0)%Z
    /\ (forall j', (j' < j)%nat ->
                   (kbLimit < liveTotal (killOldest j' alive) sizes)%Z).
Proof.
  intros Hlen Hdead. revert snaps w Hlen.
  induction Hdead as [|a kb alive sizes Ha Hdead IH]; intros snaps w Hlen Hnn Hsum.
  - exists 0%nat. destruct snaps; cbn; repeat split; auto; intros; lia.
  - destruct snaps as [|s snaps]; [discriminate|].
    inversion Hnn as [|? ? Hkb Hnn']; subst.
    cbn [sumZ fold_right] in *. fold (sumZ sizes) in *.
    pose proof (sumZ_nonneg _ Hnn') as Hs0.
    cbn [sizeLoop].
    destruct (kbLimit <? kb + sumZ sizes)%Z eqn:E; cbn [negb].
    2:{ apply Z.ltb_ge in E. exists 0%nat. rewrite killOldest_zero. cbn [fst].
        repeat split; [|intros; lia]. left.
        rewrite (liveTotal_all (a :: alive) (kb :: sizes)) by (constructor; assumption).
        cbn [sumZ fold_right]. exact E. }
    apply Z.ltb_lt in E.
    assert (Hlen' : length snaps = length alive) by (simpl in Hlen; lia).
    destruct a; cbn [negb].
    + rewrite wrap64_id
        by (unfold inInt64, minInt64, maxInt64 in *; lia).
      replace (kb + sumZ sizes - kb)%Z with (sumZ sizes) by lia.
      destruct (IH snaps (removeUnlessDryRun deps dryRun s w) Hlen' Hnn' ltac:(lia))
        as [j [Hr [Hstop Hmin]]].
      destruct (sizeLoop deps dryRun kbLimit snaps alive sizes (sumZ sizes)
                  (removeUnlessDryRun deps dryRun s w)) as [r w'].
      cbn [fst] in Hr |- *. subst r.
      exists (S j). cbn [killOldest liveTotal]. repeat split.
      * destruct Hstop as [H|H]; [left; lia | right; exact H].
      * intros [|j'] Hj'.
        -- rewrite (liveTotal_all (true :: alive) (kb :: sizes))
             by (constructor; assumption).
           cbn [sumZ fold_right]. exact E.
        -- cbn [killOldest liveTotal]. specialize (Hmin j' ltac:(lia)). lia.
    + rewrite (Ha eq_refl) in *.
      destruct (IH snaps w Hlen' Hnn' ltac:(lia)) as [j [Hr [Hstop Hmin]]].
      replace (0 + sumZ sizes)%Z with (sumZ sizes) in * by lia.
      destruct (sizeLoop deps dryRun kbLimit snaps alive sizes (sumZ sizes) w)
        as [r w'].
      cbn [fst] in Hr |- *. subst r.
      exists j. rewrite killOldest_dead. cbn [liveTotal]. repeat split.
      * destruct Hstop as [H|H]; [left; lia | right; exact H].
      * intros j' Hj'. rewrite killOldest_dead. cbn [liveTotal].
        specialize (Hmin j' Hj'). lia.
Qed.

(** The size of a snapshot in KiB is the total of its regular files
    rounded up, as long as that total stays in the 64-bit range. *)
Definition regularSize (step : WalkStep) : list Z :=
  match StepErr step, StepInfo step with
  | None, Some info => if IsRegular info then [Size info] else []
  | _, _ => []
  end.

Definition regularSizes (root : string) (w : W) : list Z :=
  flat_map regularSize (Walk (FileSystem deps) root w).

Definition addRegular (total : Z) (step : WalkStep) : Z :=
  match StepErr step with
  | Some _ => total
  | None =>
      match StepInfo step with
      | Some info => if IsRegular info then wrap64 (total + Size info) else total
      | None => total
      end
  end.

Lemma addRegular_sum (steps : list WalkStep) (acc : Z) :
  (0 <= acc)%Z ->
  Forall (fun sz => 0 <= sz)%Z (flat_map regularSize steps) ->
  (acc + sumZ (flat_map regularSize steps) <= maxInt64)%Z ->
  fold_left addRegular steps acc = (acc + sumZ (flat_map regularSize steps))%Z.
Proof.
  revert acc. induction steps as [|step steps IH]; intros acc Hacc Hs Hsum.
  - cbn. lia.
  - cbn [flat_map fold_left] in *.
    unfold regularSize at 1 in Hs. unfold regularSize at 1 in Hsum.
    unfold regularSize at 1. unfold addRegular at 2.
    destruct (StepErr step); [apply IH; assumption|].
    destruct (StepInfo step) as [info|]; [|apply IH; assumption].
    destruct (IsRegular info); [|apply IH; assumption].
    cbn [app] in *. inversion Hs as [|? ? Hsz Hs']; subst.
    cbn [sumZ fold_right] in *. fold (sumZ (flat_map regularSize steps)) in *.
    pose proof (sumZ_nonneg _ Hs') as Hnn.
    rewrite wrap64_id by (unfold inInt64, minInt64, maxInt64 in *; lia).
    rewrite IH; [lia | lia | exact Hs' | lia].
Qed.

Lemma dirSizeBytes_sum (root : string) (w : W) :
  Forall (fun sz => 0 <= sz)%Z (regularSizes root w) ->
  (sumZ (regularSizes root w) <= maxInt64)%Z ->
  dirSizeBytes deps root w = sumZ (regularSizes root w).
Proof.
  intros Hs Hsum. unfold dirSizeBytes, regularSizes in *.
  change (fold_left addRegular (Walk (FileSystem deps) root w) 0%Z
          = sumZ (flat_map regularSize (Walk (FileSystem deps) root w))).
  rewrite addRegular_sum; [lia | lia | exact Hs | lia].
Qed.

Lemma dirSizeKB_rounds_up (root : string) (w : W) :
  Forall (fun sz => 0 <= sz)%Z (regularSizes root w) ->
  (sumZ (regularSizes root w) + 1023 <= maxInt64)%Z ->
  let bytes := sumZ (regularSizes root w) in
  let kb := dirSizeKB deps root w in
  (0 <= kb /\ 1024 * (kb - 1) < bytes <= 1024 * kb)%Z.
Proof.
  intros Hs Hsum bytes kb. unfold kb, dirSizeKB.
  rewrite dirSizeBytes_sum by (try assumption; lia). fold bytes.
  pose proof (sumZ_nonneg _ Hs) as Hnn. fold bytes in Hnn.
  rewrite wrap64_id by (unfold inInt64, minInt64, maxInt64 in *; lia).
  rewrite Z.quot_div_nonneg by lia.
  pose proof (Z.div_mod (bytes + 1023) 1024 ltac:(lia)) as Hdm.
  pose proof (Z.mod_pos_bound (bytes + 1023) 1024 ltac:(lia)) as Hb.
  split; [apply Z.div_pos; lia | lia].
Qed.

(** The limit, when the products stay in the 64-bit range. *)
Lemma sizeLimitKB_in_range (cfg : Config) :
  inInt64 (MaxTotalGBPerRepo cfg * 1048576) ->
  inInt64 (SizeMarginMB cfg * 1024) ->
  inInt64 (MaxTotalGBPerRepo cfg * 1048576 + SizeMarginMB cfg * 1024) ->
  (0 < MaxTotalGBPerRepo cfg)%Z ->
  sizeLimitKB cfg = (MaxTotalGBPerRepo cfg * 1048576 + SizeMarginMB cfg * 1024)%Z.
Proof.
  intros H1 H2 H3 Hpos. unfold sizeLimitKB.
  rewrite (wrap64_id (MaxTotalGBPerRepo cfg * 1024))
    by (unfold inInt64, minInt64, maxInt64 in *; lia).
  replace (MaxTotalGBPerRepo cfg * 1024 * 1024)%Z
    with (MaxTotalGBPerRepo cfg * 1048576)%Z by lia.
  rewrite (wrap64_id _ H1), (wrap64_id _ H2), (wrap64_id _ H3). reflexivity.
Qed.

(** The size rule as the specification has it, for a configuration and
    snapshot sizes that stay within the 64-bit range. *)
Lemma applySizeLimit_in_range (cfg : Config) (dryRun : bool)
  (snaps : list snapshot) (alive : list bool) (w : W) :
  (0 < MaxTotalGBPerRepo cfg)%Z -> NoSize cfg = false ->
  inInt64 (MaxTotalGBPerRepo cfg * 1048576) ->
  inInt64 (SizeMarginMB cfg * 1024) ->
  inInt64 (MaxTotalGBPerRepo cfg * 1048576 + SizeMarginMB cfg * 1024) ->
  length snaps = length alive ->
  let sizes := measureSizes deps snaps alive w in
  let limit := (MaxTotalGBPerRepo cfg * 1048576 + SizeMarginMB cfg * 1024)%Z in
  Forall (fun kb => 0 <= kb)%Z sizes -> (sumZ sizes <= maxInt64)%Z ->
  exists j,
    fst (applySizeLimit deps cfg dryRun snaps alive w) = killOldest j alive
    /\ (liveTotal (killOldest j alive) sizes <= limit
        \/ countLive (killOldest j alive) = 0)%Z
    /\ (forall j', (j' < j)%nat -> (limit < liveTotal (killOldest j' alive) sizes)%Z).
Proof.
  intros Hpos Hno H1 H2 H3 Hlen sizes limit Hnn Hsum.
  unfold applySizeLimit. rewrite Hno.
  replace (MaxTotalGBPerRepo cfg <=? 0)%Z with false by (symmetry; apply Z.leb_gt; lia).
  cbn [orb]. rewrite (sizeLimitKB_in_range cfg H1 H2 H3 Hpos). fold sizes limit.
  rewrite (totalSizeKB_sum sizes Hnn Hsum).
  apply sizeLoop_kills_oldest; try assumption.
  apply measureSizes_dead. exact Hlen.
Qed.

End SizeRule.

End RotationFacts.

(** *** Rotation on a concrete backup directory *)

Module RotationCases.
Import Go Err Ports Rotation Mem RotationFacts.

(** A snapshot directory: the [.done] marker and one regular file. *)
Definition snapNode (payload : string) : node :=
  DirNode [(".done", FileNode "" 420 0); ("data.bin", FileNode payload 420 0)].

(** [/backup/key/2024-01-01/<name>] for each of [names]. *)
Definition rotTree (names : list string) : node :=
  DirNode
    [("backup",
      DirNode
        [("key",
          DirNode
            [("2024-01-01",
              DirNode (map (fun n => (n, snapNode "x")) names))])])].

Definition rotWorld (names : list string) : World :=
  {| root := rotTree names; clock := 1700000000 * Second; cancelled := None;
     gitDirAnswer := inr ".git"; gitCommonDirAnswer := inr ".git";
     ignoredUntracked := inr [] |}.

Definition snapshotAt (name : string) : snapshot :=
  {| DateDir := "/backup/key/2024-01-01";
     TimeDir := "/backup/key/2024-01-01/" ++ name;
     Done := "/backup/key/2024-01-01/" ++ name ++ "/.done" |}.

Definition twoSnapshots : World :=
  rotWorld ["010101-000000001"; "020202-000000002"].

Definition threeSnapshots : World :=
  rotWorld ["030303-000000003"; "010101-000000001"; "020202-000000002"].

Definition rotationConfig (keepCount keepDays maxTotalGB sizeMarginMB : Z)
  (noSize : bool) : Config :=
  {| BackupDir := "/backup"; Verbose := false; DryRun := false;
     KeepCount := keepCount; KeepDays := keepDays;
     MaxTotalGBPerRepo := maxTotalGB; SizeMarginMB := sizeMarginMB;
     NoSize := noSize |}.

(** The in-memory filesystem with every removal refused, as on a
    read-only mount. *)
Definition refusingRemovals : FileSystemPort World :=
  {| ReadFile := ReadFile fileSystem;
     WriteFile := WriteFile fileSystem;
     CreateDir := CreateDir fileSystem;
     RemoveAll := fun _ w => (Some (Sentinel osErrPermission), w);
     Stat := Stat fileSystem;
     Lstat := Lstat fileSystem;
     Walk := Walk fileSystem;
     ReadDir := ReadDir fileSystem;
     CreateDirExclusive := CreateDirExclusive fileSystem;
     Copy := Copy fileSystem;
     Move := Move fileSystem;
     Readlink := Readlink fileSystem;
     Symlink := Symlink fileSystem;
     Chmod := Chmod fileSystem;
     Join := Join fileSystem;
     PathBase := PathBase fileSystem;
     PathDir := PathDir fileSystem;
     Rel := Rel fileSystem;
     IsNotExist := IsNotExist fileSystem;
     IsExist := IsExist fileSystem;
     IsPermission := IsPermission fileSystem |}.

Definition refusingDeps : Dependencies utc World :=
  Build_Dependencies utc World refusingRemovals git cancelled clock.

(** With keepCount = 2, two snapshots of 1 KiB each and a size limit of
    1 GiB - 1024 MiB = 0 KiB, the age rule and the count rule remove
    nothing, and the size rule then removes both snapshots: none survives,
    although min(pre-count, keepCount) = 2.

    With keepCount = 2, the size rule off and three snapshots, a dry run
    leaves the three on the disk, and so does a run on a filesystem that
    refuses the removals, whose error [removeSnapshot] discards: three
    survive, although min(pre-count, keepCount) = 2. *)
Lemma rotateRepo_size_rule_after_count :
  let cfg := rotationConfig 2 0 1 (-1024) false in
  let snaps := [snapshotAt "010101-000000001"; snapshotAt "020202-000000002"] in
  let after := rotateRepo deps "/backup/key" cfg false twoSnapshots in
  let cfg3 := rotationConfig 2 0 0 0 true in
  let snaps3 := [snapshotAt "010101-000000001"; snapshotAt "020202-000000002";
                 snapshotAt "030303-000000003"] in
  listSnapshots deps "/backup/key" twoSnapshots = inr snaps
  /\ afterAge (rotationStages deps cfg false snaps twoSnapshots) = [true; true]
  /\ afterCount (rotationStages deps cfg false snaps twoSnapshots) = [true; true]
  /\ fst after = Some (snaps, [false; false])
  /\ listSnapshots deps "/backup/key" (snd after) = inr []
  /\ countLive [false; false] <> Z.min (Z.of_nat (length snaps)) (KeepCount cfg)
  /\ (listSnapshots deps "/backup/key" threeSnapshots = inr snaps3
      /\ afterAge (rotationStages deps cfg3 true snaps3 threeSnapshots)
         = [true; true; true]
      /\ afterSize (rotationStages deps cfg3 true snaps3 threeSnapshots)
         = afterCount (rotationStages deps cfg3 true snaps3 threeSnapshots)
      /\ listSnapshots deps "/backup/key"
           (snd (rotateRepo deps "/backup/key" cfg3 true threeSnapshots))
         = inr snaps3
      /\ Z.of_nat (length snaps3)
         <> Z.min (Z.of_nat (length snaps3)) (KeepCount cfg3))
  /\ (listSnapshots refusingDeps "/backup/key" threeSnapshots = inr snaps3
      /\ afterAge (rotationStages refusingDeps cfg3 false snaps3 threeSnapshots)
         = [true; true; true]
      /\ afterSize (rotationStages refusingDeps cfg3 false snaps3 threeSnapshots)
         = afterCount (rotationStages refusingDeps cfg3 false snaps3 threeSnapshots)
      /\ fst (rotateRepo refusingDeps "/backup/key" cfg3 false threeSnapshots)
         = Some (snaps3, [false; true; true])
      /\ listSnapshots refusingDeps "/backup/key"
           (snd (rotateRepo refusingDeps "/backup/key" cfg3 false threeSnapshots))
         = inr snaps3).
Proof.
  cbv zeta. repeat split; try (vm_compute; reflexivity); vm_compute; discriminate.
Qed.

Lemma rotateRepo_keep_count_witness :
  fst (rotateRepo deps "/backup/key" (rotationConfig 2 0 0 0 true) false threeSnapshots)
  = Some ([snapshotAt "010101-000000001"; snapshotAt "020202-000000002";
           snapshotAt "030303-000000003"],
          [false; true; true])
  /\ countLive [false; true; true] = 2%Z
  /\ listSnapshots deps "/backup/key"
       (snd (rotateRepo deps "/backup/key" (rotationConfig 2 0 0 0 true) false
               threeSnapshots))
     = inr [snapshotAt "020202-000000002"; snapshotAt "030303-000000003"].
Proof.
  pose proof (rotateRepo_keep_count utc World deps "/backup/key"
                (rotationConfig 2 0 0 0 true) false threeSnapshots
                [snapshotAt "010101-000000001"; snapshotAt "020202-000000002";
                 snapshotAt "030303-000000003"]) as H.
  destruct H as [H1 [H2 [_ [_ H5]]]].
  - vm_compute. reflexivity.
  - vm_compute. reflexivity.
  - vm_compute. reflexivity.
  - vm_compute. reflexivity.
  - split; [exact H1 | split; [exact H2|]].
    apply H5; [reflexivity|].
    unfold removalsTakeEffect. vm_compute. reflexivity.
Defined.

(** C6. [max_total_gb = 8796093022208] (2^43): the limit of the
    specification is 2^63 KiB, the two snapshots total 2 KiB, so nothing is
    to be removed; in the code the product wraps around to -2^63 and the
    size rule removes every snapshot. *)
Theorem applySizeLimit_limit_wraps :
  let cfg := rotationConfig 0 0 8796093022208 0 false in
  let snaps := [snapshotAt "010101-000000001"; snapshotAt "020202-000000002"] in
  let after := rotateRepo deps "/backup/key" cfg false twoSnapshots in
  listSnapshots deps "/backup/key" twoSnapshots = inr snaps
  /\ map (fun s => dirSizeKB deps (TimeDir s) twoSnapshots) snaps = [1; 1]%Z
  /\ (MaxTotalGBPerRepo cfg * 1048576 + SizeMarginMB cfg * 1024
      = 9223372036854775808)%Z
  /\ sizeLimitKB cfg = (-9223372036854775808)%Z
  /\ fst after = Some (snaps, [false; false])
  /\ listSnapshots deps "/backup/key" (snd after) = inr [].
Proof.
  cbv zeta. repeat split; vm_compute; reflexivity.
Qed.

End RotationCases.

(* ------------------------------------------------------------------ *)
(** ** Snapshot reservation                                            *)
(* ------------------------------------------------------------------ *)

Module ReserveFacts.
Import Go Err Ports Snapshot.

Section Reserve.

Context {T : GoTime} {W : Type} (deps : Dependencies T W).
Variables repoDir dateDir baseTimeDir : string.

Let fs := FileSystem deps.

(** The path of candidate [i]. *)
Definition candidatePath (i : nat) : string :=
  Join fs [repoDir; dateDir; candidateTimeDir baseTimeDir i].

(** Candidates [i], [i+1], ..., [i+k-1] are all taken: for each of them
    either the exclusive create of the candidate reports that it exists,
    or the candidate is created, the exclusive create of its [.reserve]
    reports that it exists and the candidate is removed again.  The
    result is the world after these [k] attempts. *)
Fixpoint collisions (i k : nat) (w : W) : option W :=
  match k with
  | O => Some w
  | S k' =>
      match CreateDirExclusive fs (candidatePath i) o755 w with
      | (Some err, w1) =>
          if IsExist fs err then collisions (S i) k' w1 else None
      | (None, w1) =>
          match CreateDirExclusive fs (Join fs [candidatePath i; ".reserve"]) o700 w1 with
          | (Some err, w2) =>
              if IsExist fs err
              then collisions (S i) k' (snd (RemoveAll fs (candidatePath i) w2))
              else None
          | (None, _) => None
          end
      end
  end.

(** Candidate [i] is free in [w]: both exclusive creates succeed. *)
Definition reservedAt (i : nat) (w w' : W) : Prop :=
  exists wa,
    CreateDirExclusive fs (candidatePath i) o755 w = (None, wa)
    /\ CreateDirExclusive fs (Join fs [candidatePath i; ".reserve"]) o700 wa
       = (None, w').

Lemma reserveLoop_success (n i : nat) (w w' : W) (p : string) :
  reserveLoop deps repoDir dateDir baseTimeDir n i w = (inr p, w')
  <-> exists k wk,
        (k < n)%nat /\ collisions i k w = Some wk
        /\ reservedAt (i + k) wk w' /\ p = candidatePath (i + k).
Proof.
  revert i w. induction n as [|n IH]; intros i w.
  - cbn. split; [discriminate | intros (k & _ & Hk & _); lia].
  - cbn [reserveLoop]. fold fs. fold (candidatePath i).
    destruct (CreateDirExclusive fs (candidatePath i) o755 w) as [[err|] w1] eqn:E1.
    + destruct (IsExist fs err) eqn:Ex.
      * rewrite IH. split.
        -- intros (k & wk & Hk & Hc & Hr & Hp).
           exists (S k), wk. replace (i + S k)%nat with (S i + k)%nat by lia.
           repeat split; [lia | | exact Hr | exact Hp].
           cbn [collisions]. rewrite E1, Ex. exact Hc.
        -- intros ([|k] & wk & Hk & Hc & Hr & Hp).
           ++ destruct Hr as (wa & Ha & _). rewrite Nat.add_0_r in Ha.
              cbn in Hc. injection Hc as <-. rewrite E1 in Ha. discriminate.
           ++ cbn [collisions] in Hc. rewrite E1, Ex in Hc.
              exists k, wk. replace (S i + k)%nat with (i + S k)%nat by lia.
              repeat split; [lia | exact Hc | exact Hr | exact Hp].
      * split; [discriminate|].
        intros ([|k] & wk & Hk & Hc & Hr & Hp).
        -- destruct Hr as (wa & Ha & _). rewrite Nat.add_0_r in Ha.
           cbn in Hc. injection Hc as <-. rewrite E1 in Ha. discriminate.
        -- cbn [collisions] in Hc. rewrite E1, Ex in Hc. discriminate.
    + destruct (CreateDirExclusive fs (Join fs [candidatePath i; ".reserve"]) o700 w1)
        as [[err|] w2] eqn:E2.
      * destruct (IsExist fs err) eqn:Ex.
        -- rewrite IH. split.
           ++ intros (k & wk & Hk & Hc & Hr & Hp).
              exists (S k), wk. replace (i + S k)%nat with (S i + k)%nat by lia.
              repeat split; [lia | | exact Hr | exact Hp].
              cbn [collisions]. rewrite E1, E2, Ex. exact Hc.
           ++ intros ([|k] & wk & Hk & Hc & Hr & Hp).
              ** destruct Hr as (wa & Ha & Hb). rewrite Nat.add_0_r in Ha, Hb.
                 cbn in Hc. injection Hc as <-. rewrite E1 in Ha.
                 injection Ha as <-. rewrite E2 in Hb. discriminate.
              ** cbn [collisions] in Hc. rewrite E1, E2, Ex in Hc.
                 exists k, wk. replace (S i + k)%nat with (i + S k)%nat by lia.
                 repeat split; [lia | exact Hc | exact Hr | exact Hp].
        -- split; [discriminate|].
           intros ([|k] & wk & Hk & Hc & Hr & Hp).
           ++ destruct Hr as (wa & Ha & Hb). rewrite Nat.add_0_r in Ha, Hb.
              cbn in Hc. injection Hc as <-. rewrite E1 in Ha.
              injection Ha as <-. rewrite E2 in Hb. discriminate.
           ++ cbn [collisions] in Hc. rewrite E1, E2, Ex in Hc. discriminate.
      * split.
        -- intros H. injection H as <- <-. exists 0%nat, w.
           rewrite Nat.add_0_r. repeat split; [lia|].
           exists w1. split; assumption.
        -- intros ([|k] & wk & Hk & Hc & Hr & Hp).
           ++ destruct Hr as (wa & Ha & Hb). rewrite Nat.add_0_r in Ha, Hb, Hp.
              cbn in Hc. injection Hc as <-. rewrite E1 in Ha.
              injection Ha as <-. rewrite E2 in Hb. injection Hb as <-.
              subst p. reflexivity.
           ++ cbn [collisions] in Hc. rewrite E1, E2 in Hc. discriminate.
Qed.

Lemma reserveLoop_exhausted (n i : nat) (w w' : W) :
  collisions i n w = Some w' ->
  reserveLoop deps repoDir dateDir baseTimeDir n i w
  = (inl (Opaque "failed to create unique snapshot directory"), w').
Proof.
  revert i w. induction n as [|n IH]; intros i w H.
  - cbn in H. injection H as <-. reflexivity.
  - cbn [reserveLoop collisions] in *. fold fs. fold (candidatePath i).
    destruct (CreateDirExclusive fs (candidatePath i) o755 w) as [[err|] w1].
    + destruct (IsExist fs err); [apply IH; exact H | discriminate].
    + destruct (CreateDirExclusive fs (Join fs [candidatePath i; ".reserve"]) o700 w1)
        as [[err|] w2]; [|discriminate].
      destruct (IsExist fs err); [apply IH; exact H | discriminate].
Qed.

End Reserve.

(** [%02d] of 1..99 is the two decimal digits. *)
Definition twoDigits (i : nat) : string :=
  String (ascii_of_nat (48 + i / 10)) (String (ascii_of_nat (48 + i mod 10)) "").

Lemma candidateTimeDir_suffix (base : string) (i : nat) :
  (1 <= i <= 99)%nat ->
  candidateTimeDir base i = (base ++ "-" ++ twoDigits i)%string.
Proof.
  intros Hi. destruct i as [|i]; [lia|]. unfold candidateTimeDir.
  do 2 f_equal.
  assert (G : forallb (fun j => String.eqb (padZero 2 (N.of_nat j)) (twoDigits j))
                (seq 1 99) = true) by (vm_compute; reflexivity).
  rewrite forallb_forall in G. apply String.eqb_eq, G, in_seq. lia.
Qed.


(** C4. [createUniqueSnapshotDir], once the date directory is there: the
    candidates are the base name, then the base name with [-01] to [-99];
    it returns candidate [k] exactly when the [k] candidates before it are
    all taken (the candidate exists, or its [.reserve] exists and the
    candidate is removed again) and both exclusive creates succeed for
    candidate [k]; when all 100 candidates are taken it fails. *)
Theorem createUniqueSnapshotDir_first_free (T : GoTime) (W : Type)
  (deps : Dependencies T W) (repoDir dateDir : string) (now : Time T) (w w1 : W) :
  CreateDir (FileSystem deps) (Join (FileSystem deps) [repoDir; dateDir]) o755 w
  = (None, w1) ->
  let base := formatTimeDir now in
  let candidate := candidatePath deps repoDir dateDir base in
  candidate 0%nat = Join (FileSystem deps) [repoDir; dateDir; base]
  /\ (forall i, (1 <= i <= 99)%nat ->
        candidate i
        = Join (FileSystem deps) [repoDir; dateDir; (base ++ "-" ++ twoDigits i)%string])
  /\ (forall p w',
        createUniqueSnapshotDir deps repoDir dateDir now w = (inr p, w')
        <-> exists k wk,
              (k < 100)%nat
              /\ collisions deps repoDir dateDir base 0 k w1 = Some wk
              /\ reservedAt deps repoDir dateDir base k wk w'
              /\ p = candidate k)
  /\ (forall w',
        collisions deps repoDir dateDir base 0 100 w1 = Some w' ->
        createUniqueSnapshotDir deps repoDir dateDir now w
        = (inl (Opaque "failed to create unique snapshot directory"), w')).
Proof.
  intros Hdate base candidate. repeat split.
  - intros i Hi. unfold candidate, candidatePath.
    rewrite (candidateTimeDir_suffix base i Hi). reflexivity.
  - unfold createUniqueSnapshotDir. rewrite Hdate. fold base.
    intros H. apply reserveLoop_success in H. exact H.
  - unfold createUniqueSnapshotDir. rewrite Hdate. fold base.
    intros H. apply reserveLoop_success. exact H.
  - intros w' H. unfold createUniqueSnapshotDir. rewrite Hdate. fold base.
    apply reserveLoop_exhausted. exact H.
Qed.

End ReserveFacts.

Module ReserveCases.
Import Go Err Ports Snapshot Mem ReserveFacts.

(** 2023-11-14 22:13:20.123456789 UTC. *)
Definition reserveTime : Z := 1700000000 * Second + 123456789.

(** The base name and [-01] are taken. *)
Definition busyWorld : World :=
  {| root :=
       DirNode
         [("backup",
           DirNode
             [("key",
               DirNode
                 [("2023-11-14",
                   DirNode [("221320-123456789", DirNode []);
                            ("221320-123456789-01", DirNode [])])])])];
     clock := reserveTime; cancelled := None;
     gitDirAnswer := inr ".git"; gitCommonDirAnswer := inr ".git";
     ignoredUntracked := inr [] |}.

Lemma createUniqueSnapshotDir_first_free_witness :
  exists k,
    (k < 100)%nat
    /\ fst (createUniqueSnapshotDir deps "/backup/key" "2023-11-14" reserveTime busyWorld)
       = inr (candidatePath deps "/backup/key" "2023-11-14"
                (@formatTimeDir utc reserveTime) k)
    /\ candidatePath deps "/backup/key" "2023-11-14" (@formatTimeDir utc reserveTime) k
       = "/backup/key/2023-11-14/221320-123456789-02".
Proof.
  pose proof (createUniqueSnapshotDir_first_free utc World deps
                "/backup/key" "2023-11-14" reserveTime busyWorld
                (snd (CreateDir fileSystem "/backup/key/2023-11-14" o755 busyWorld)))
    as H.
  destruct H as (_ & _ & Hiff & _).
  - vm_compute. reflexivity.
  - destruct (createUniqueSnapshotDir deps "/backup/key" "2023-11-14"
                reserveTime busyWorld) as [[err|p] w'] eqn:E.
    + vm_compute in E. discriminate.
    + destruct (proj1 (Hiff p w') eq_refl) as (k & wk & Hk & _ & _ & Hp).
      exists k. split; [exact Hk|]. split; [cbn [fst]; now rewrite Hp|].
      rewrite <- Hp. vm_compute in E. now injection E as <- _.
Defined.

End ReserveCases.

(* ------------------------------------------------------------------ *)
(** ** The backup flow                                                 *)
(* ------------------------------------------------------------------ *)

Module FlowFacts.
Import Go Err Ports Exclude Rotation Snapshot.

Section Flow.

Context {T : GoTime} {W : Type} (deps : Dependencies T W).

Let fs := FileSystem deps.

(** A recorded error is a listed error: the flag [PartialSuccess] is set
    only together with an entry of [copyErrors]. *)
Definition flagged (acc : BackupResult * list string) : Prop :=
  PartialSuccess (fst acc) = true -> snd acc <> [].

Lemma recordCopyError_listed (path : string) (err : error)
  (acc : BackupResult * list string) :
  snd (recordCopyError deps path err acc) <> []
  /\ PartialSuccess (fst (recordCopyError deps path err acc)) = true.
Proof.
  destruct acc as [r errs]. cbn. split; [|reflexivity].
  destruct errs; discriminate.
Qed.

Lemma recordCopyError_flagged (path : string) (err : error)
  (acc : BackupResult * list string) :
  flagged (recordCopyError deps path err acc).
Proof. intros _. apply recordCopyError_listed. Qed.

Lemma copyDirEntry_flagged (path target : string) (info : FileInfo)
  (acc : BackupResult * list string) (w : W) :
  flagged acc -> flagged (fst (copyDirEntry deps path target info acc w)).
Proof.
  intros Hacc. unfold copyDirEntry.
  repeat match goal with
         | |- context [match ?x with _ => _ end] => destruct x
         | |- context [if ?x then _ else _] => destruct x
         end; cbn [fst]; try apply recordCopyError_flagged; try exact Hacc;
    destruct acc as [r errs]; exact Hacc.
Qed.

Lemma copyDirWalk_flagged (src dst : string) (steps : list WalkStep)
  (acc : BackupResult * list string) (w : W) :
  flagged acc -> flagged (snd (fst (copyDirWalk deps src dst steps acc w))).
Proof.
  revert acc w. induction steps as [|step steps IH]; intros acc w Hacc.
  - exact Hacc.
  - cbn [copyDirWalk]. destruct (ctxErr deps w); [exact Hacc|].
    destruct (StepErr step); [apply IH, recordCopyError_flagged|].
    destruct (Rel (FileSystem deps) src (StepPath step));
      [apply IH, recordCopyError_flagged|].
    destruct (StepInfo step) as [info|]; [|apply IH, Hacc].
    pose proof (copyDirEntry_flagged (StepPath step)
                  (Join (FileSystem deps) [dst; s]) info acc w Hacc) as H.
    destruct (copyDirEntry deps (StepPath step) (Join (FileSystem deps) [dst; s])
                info acc w) as [acc1 w1].
    apply IH, H.
Qed.

(** Phase A: when [copyDirRecursive] returns no error, nothing was
    recorded. *)
Lemma copyDirRecursive_clean (src dst : string) (result r : BackupResult)
  (w w' : W) :
  PartialSuccess result = false ->
  copyDirRecursive deps src dst result w = (None, r, w') ->
  PartialSuccess r = false.
Proof.
  intros Hres. unfold copyDirRecursive.
  pose proof (copyDirWalk_flagged src dst (Walk (FileSystem deps) src w)
                (result, []) w) as H.
  destruct (copyDirWalk deps src dst (Walk (FileSystem deps) src w) (result, []) w)
    as [[walkErr [r1 errs]] w1].
  cbn [fst snd] in H.
  destruct errs as [|e errs]; cbn [length Nat.ltb Nat.leb]; [|discriminate].
  intros E. injection E as _ <- _.
  destruct (PartialSuccess r1) eqn:P; [|reflexivity].
  exfalso. apply H; [|exact P|reflexivity].
  intros P0. cbn in P0. congruence.
Qed.

Definition stateFlagged (st : copyState) : Prop :=
  PartialSuccess (csResult st) = true <-> csErrors st <> [].

Lemma recordError_flagged (rel : string) (err : error) (st : copyState) :
  stateFlagged (recordError deps rel err st).
Proof.
  unfold recordError, stateFlagged.
  pose proof (recordCopyError_listed rel err (csResult st, csErrors st)) as [H1 H2].
  destruct (recordCopyError deps rel err (csResult st, csErrors st)) as [r errs].
  cbn in *. split; intros _; assumption.
Qed.

Lemma copySelectedLoop_flagged (srcRoot dstRoot : string) (paths : list string)
  (st : copyState) (w : W) :
  stateFlagged st ->
  stateFlagged (fst (copySelectedLoop deps srcRoot dstRoot paths st w)).
Proof.
  revert st w. induction paths as [|rel paths IH]; intros st w Hst.
  - exact Hst.
  - cbn [copySelectedLoop]. destruct (ctxErr deps w); [exact Hst|].
    destruct (copySelectedPath deps srcRoot dstRoot rel w) as [[[err|] copied] w1].
    + apply IH, recordError_flagged.
    + apply IH. destruct copied; [|exact Hst]. exact Hst.
Qed.

(** Phase E: [copySelectedFiles] returns an error exactly when an error
    was recorded in the result. *)
Lemma copySelectedFiles_error_iff (paths : list string) (srcRoot dstRoot : string)
  (result r : BackupResult) (e : option error) (w w' : W) :
  PartialSuccess result = false ->
  copySelectedFiles deps paths srcRoot dstRoot result w = (e, r, w') ->
  (PartialSuccess r = true <-> e <> None).
Proof.
  intros Hres. unfold copySelectedFiles.
  destruct paths as [|p paths].
  - intros E. injection E as <- <- _. rewrite Hres. split; [discriminate | congruence].
  - pose proof (copySelectedLoop_flagged srcRoot dstRoot (p :: paths)
                  {| csResult := result; csErrors := []; csFirstErr := None |} w) as H.
    destruct (copySelectedLoop deps srcRoot dstRoot (p :: paths)
                {| csResult := result; csErrors := []; csFirstErr := None |} w)
      as [st w1].
    cbn [fst] in H.
    assert (Hst : stateFlagged st).
    { apply H. unfold stateFlagged. cbn. rewrite Hres.
      split; [discriminate | congruence]. }
    unfold stateFlagged in Hst.
    destruct (csErrors st) as [|x errs]; cbn [length Nat.ltb Nat.leb].
    + intros E. injection E as <- <- _. split; [|congruence].
      intros P. apply Hst in P. congruence.
    + intros E. injection E as <- <- _. split; [discriminate|].
      intros _. apply Hst. discriminate.
Qed.

(** [copyRepoSnapshot] without an error returns a result without a
    recorded error. *)
Lemma copyRepoSnapshot_clean (repoRoot targetPath : string) (r : BackupResult)
  (w w' : W) :
  copyRepoSnapshot deps repoRoot targetPath emptyResult w = (None, r, w') ->
  PartialSuccess r = false.
Proof.
  unfold copyRepoSnapshot.
  destruct (resolveSnapshotGitDirs deps repoRoot w) as [|[gitDir srcGit]];
    [discriminate|].
  destruct (Stat (FileSystem deps) srcGit w); [discriminate|].
  destruct (copyDirRecursive deps srcGit (Join (FileSystem deps) [targetPath; ".git"])
              emptyResult w) as [[[err|] r1] w1] eqn:EA; [discriminate|].
  apply copyDirRecursive_clean in EA; [|reflexivity].
  destruct (cleanupSnapshotWorktrees deps _ w1) as [[err|] w2]; [discriminate|].
  destruct (ListIgnoredUntracked (Git deps) repoRoot w2) as [|allPaths];
    [discriminate|].
  match goal with
  | |- context [copySelectedFiles deps ?k ?a ?b ?c ?d] =>
      destruct (copySelectedFiles deps k a b c d) as [[[err|] r2] w3] eqn:EE
  end; [discriminate|].
  pose proof (copySelectedFiles_error_iff _ _ _ _ _ _ _ _ EA EE) as Hiff.
  destruct (ctxErr deps w3); [discriminate|].
  intros E. injection E as <- _.
  destruct (PartialSuccess r2); [|reflexivity].
  exfalso. apply (proj1 Hiff); reflexivity.
Qed.

(** The branch [if result.PartialSuccess] at the end of
    [handleBackupFlow] is never taken: a returned result has no recorded
    error and comes with no error. *)
Lemma handleBackupFlow_result_clean (cfg : Config) (repoRoot repoDir : string)
  (r : BackupResult) (e : option error) (w w' : W) :
  handleBackupFlow deps cfg repoRoot repoDir w = (Some r, e, w') ->
  PartialSuccess r = false /\ e = None.
Proof.
  unfold handleBackupFlow.
  destruct (ctxErr deps w); [discriminate|].
  destruct (createUniqueSnapshotDir deps repoDir _ _ w) as [[|targetPath] w1];
    [discriminate|].
  destruct (WriteFile (FileSystem deps) _ "" o644 w1) as [[|] w2]; [discriminate|].
  destruct (copyRepoSnapshot deps repoRoot targetPath emptyResult w2)
    as [[[err|] r1] w3] eqn:EC.
  { destruct (errors_Is err ctxCanceled || errors_Is err ctxDeadlineExceeded);
      discriminate. }
  apply copyRepoSnapshot_clean in EC.
  destruct (WriteFile (FileSystem deps) _ "" o644 _) as [[|] w5]; [discriminate|].
  destruct (ctxErr deps _); [discriminate|].
  rewrite EC. intros E. injection E as <- <- _. split; [exact EC | reflexivity].
Qed.

(** A failure of [copyRepoSnapshot] other than a cancellation: no result,
    the Critical error, and the snapshot directory is cleaned up. *)
Lemma handleBackupFlow_copy_failure (cfg : Config) (repoRoot repoDir targetPath : string)
  (err : error) (r : BackupResult) (w w1 w2 w3 : W) :
  ctxErr deps w = None ->
  createUniqueSnapshotDir deps repoDir (FormatDate T (Now deps w)) (Now deps w) w
  = (inr targetPath, w1) ->
  WriteFile (FileSystem deps) (Join (FileSystem deps) [targetPath; ".partial"])
    "" o644 w1 = (None, w2) ->
  copyRepoSnapshot deps repoRoot targetPath emptyResult w2 = (Some err, r, w3) ->
  errors_Is err ctxCanceled || errors_Is err ctxDeadlineExceeded = false ->
  handleBackupFlow deps cfg repoRoot repoDir w
  = (None, Some (Wrap "backup failed" (Sentinel ErrCritical)),
     cleanupPartialBackup deps targetPath w3).
Proof.
  intros Hctx Hres Hpart Hcopy Hcancel. unfold handleBackupFlow.
  rewrite Hctx, Hres, Hpart, Hcopy, Hcancel. reflexivity.
Qed.

End Flow.

End FlowFacts.

Module FlowCases.
Import Go Err Ports Exclude Rotation Snapshot Mem.

(** 2023-11-14 22:13:20.123456789 UTC. *)
Definition backupTime : Z := 1700000000 * Second + 123456789.

Definition repoTree : node :=
  DirNode
    [("backup", DirNode [("key", DirNode [])]);
     ("repo",
      DirNode
        [(".git",
          DirNode [("HEAD", FileNode "ref: refs/heads/main" 420 0);
                   ("config", FileNode "[core]" 420 0)]);
         ("ignored.txt", FileNode "data" 420 0)])].

(** git lists [gone.txt], which is no longer in the working tree. *)
Definition staleListing : World :=
  {| root := repoTree; clock := backupTime; cancelled := None;
     gitDirAnswer := inr ".git"; gitCommonDirAnswer := inr ".git";
     ignoredUntracked := inr ["ignored.txt"; "gone.txt"] |}.

Definition plainConfig : Config :=
  {| BackupDir := "/backup"; Verbose := false; DryRun := false;
     KeepCount := 0; KeepDays := 0; MaxTotalGBPerRepo := 0;
     SizeMarginMB := 0; NoSize := true |}.

Definition snapshotPath : string := "/backup/key/2023-11-14/221320-123456789".

(** The world in which [copyRepoSnapshot] starts: the snapshot directory
    is reserved and marked [.partial]. *)
Definition reservedWorld : World :=
  snd (WriteFile fileSystem (snapshotPath ++ "/.partial") "" o644
         (snd (createUniqueSnapshotDir deps "/backup/key" "2023-11-14"
                 backupTime staleListing))).

(** C1. The copy of [.git] succeeds and one selected path fails at
    [lstat]: the error is recorded in the result ([SkippedFiles] 1,
    [PartialSuccess] set), and [copySelectedFiles] returns an error, so
    that [handleBackupFlow] returns no result with the Critical error,
    writes no [.done] and removes the snapshot directory. *)
Theorem handleBackupFlow_phase_E_failure :
  let copied := copyRepoSnapshot deps "/repo" snapshotPath emptyResult reservedWorld in
  let after := handleBackupFlow deps plainConfig "/repo" "/backup/key" staleListing in
  fst (createUniqueSnapshotDir deps "/backup/key" "2023-11-14" backupTime staleListing)
  = inr snapshotPath
  /\ fst (copyDirRecursive deps "/repo/.git" (snapshotPath ++ "/.git")
            emptyResult reservedWorld)
     = (None,
        {| TotalFiles := 0; CopiedFiles := 2; SkippedFiles := 0; SkippedDirs := 0;
           PermissionErrs := []; OtherErrors := []; PartialSuccess := false |})
  /\ Lstat fileSystem "/repo/gone.txt" staleListing = inl (Sentinel osErrNotExist)
  /\ fst (fst copied)
     = Some (Wrap "failed to copy item(s)" (Wrap "skip" (Sentinel osErrNotExist)))
  /\ CopiedFiles (snd (fst copied)) = 3%Z
  /\ SkippedFiles (snd (fst copied)) = 1%Z
  /\ PartialSuccess (snd (fst copied)) = true
  /\ fst after = (None, Some (Wrap "backup failed" (Sentinel ErrCritical)))
  /\ Stat fileSystem (snapshotPath ++ "/.done") (snd after)
     = inl (Sentinel osErrNotExist)
  /\ Stat fileSystem snapshotPath (snd after) = inl (Sentinel osErrNotExist)
  /\ ReadDir fileSystem "/backup/key" (snd after) = inr [].
Proof.
  cbv zeta. repeat split; vm_compute; reflexivity.
Qed.

End FlowCases.

(* ------------------------------------------------------------------ *)
(** ** Hooks                                                           *)
(* ------------------------------------------------------------------ *)

Module HookFacts.
Import Go Err Ports Rotation Snapshot Hook.

Section Debounce.

Context {T : GoTime} {W : Type} (fs : FileSystemPort W).

Lemma ParseInt_empty : ParseInt "" = None.
Proof. reflexivity. Qed.

(** No adapter or a blank path: not active. *)
Lemma isDebounceActive_no_stamp_path (stampPath : string) (now : Time T) (w : W) :
  isDebounceActive None stampPath now w = (false, None)
  /\ (TrimSpace stampPath = "" ->
      isDebounceActive (Some fs) stampPath now w = (false, None)).
Proof.
  split; [reflexivity|]. intros H. unfold isDebounceActive. rewrite H. reflexivity.
Qed.

Lemma isDebounceActive_missing (stampPath : string) (now : Time T) (w : W)
  (err : error) :
  ReadFile fs stampPath w = inl err ->
  fst (isDebounceActive (Some fs) stampPath now w) = false.
Proof.
  intros H. unfold isDebounceActive. rewrite H.
  destruct (String.eqb (TrimSpace stampPath) ""); [reflexivity|].
  destruct (errors_Is err osErrNotExist); reflexivity.
Qed.

Lemma isDebounceActive_unparseable (stampPath : string) (now : Time T) (w : W)
  (data : string) :
  ReadFile fs stampPath w = inr data ->
  ParseInt (TrimSpace data) = None ->
  isDebounceActive (Some fs) stampPath now w = (false, None).
Proof.
  intros H Hp. unfold isDebounceActive. rewrite H, Hp.
  destruct (String.eqb (TrimSpace stampPath) ""); [reflexivity|].
  destruct (String.eqb (TrimSpace data) ""); reflexivity.
Qed.

Lemma isDebounceActive_parsed (stampPath : string) (now : Time T) (w : W)
  (data : string) (ts : Z) :
  TrimSpace stampPath <> "" ->
  ReadFile fs stampPath w = inr data ->
  ParseInt (TrimSpace data) = Some ts ->
  isDebounceActive (Some fs) stampPath now w
  = ((Sub T now (Unix T ts) <? debounceTimeout)%Z, None).
Proof.
  intros Hpath H Hp. unfold isDebounceActive. rewrite H, Hp.
  destruct (String.eqb (TrimSpace stampPath) "") eqn:E.
  { apply String.eqb_eq in E. contradiction. }
  destruct (String.eqb (TrimSpace data) "") eqn:E2; [|reflexivity].
  apply String.eqb_eq in E2. rewrite E2 in Hp. discriminate.
Qed.

End Debounce.

(** C7. The debounce check of post-rewrite, for the stamp path of the
    repository: it is active exactly when the stamp file is read, its
    trimmed content parses as a decimal integer [ts], and
    [now - time.Unix(ts)] is below 60 seconds; a missing, empty or
    unparseable stamp is not active. *)
Theorem isDebounceActive_iff_fresh_stamp (T : GoTime) (W : Type)
  (fs : FileSystemPort W) (stampPath : string) (now : Time T) (w : W) :
  TrimSpace stampPath <> "" ->
  (fst (isDebounceActive (Some fs) stampPath now w) = true
   <-> exists data ts,
         ReadFile fs stampPath w = inr data
         /\ ParseInt (TrimSpace data) = Some ts
         /\ (Sub T now (Unix T ts) < 60 * Second)%Z)
  /\ (forall err, ReadFile fs stampPath w = inl err ->
        fst (isDebounceActive (Some fs) stampPath now w) = false)
  /\ (forall data, ReadFile fs stampPath w = inr data -> TrimSpace data = "" ->
        isDebounceActive (Some fs) stampPath now w = (false, None))
  /\ (forall data, ReadFile fs stampPath w = inr data ->
        ParseInt (TrimSpace data) = None ->
        isDebounceActive (Some fs) stampPath now w = (false, None)).
Proof.
  intros Hpath. repeat split.
  - intros Hact.
    destruct (ReadFile fs stampPath w) as [err|data] eqn:E.
    + rewrite (isDebounceActive_missing fs stampPath now w err E) in Hact.
      discriminate.
    + destruct (ParseInt (TrimSpace data)) as [ts|] eqn:Ep.
      * exists data, ts. split; [reflexivity|]. split; [exact Ep|].
        rewrite (isDebounceActive_parsed fs stampPath now w data ts Hpath E Ep) in Hact.
        cbn [fst] in Hact. apply Z.ltb_lt in Hact. exact Hact.
      * rewrite (isDebounceActive_unparseable fs stampPath now w data E Ep) in Hact.
        discriminate.
  - intros (data & ts & E & Ep & Hlt).
    rewrite (isDebounceActive_parsed fs stampPath now w data ts Hpath E Ep).
    cbn [fst]. apply Z.ltb_lt. exact Hlt.
  - intros err E. exact (isDebounceActive_missing fs stampPath now w err E).
  - intros data E Hempty.
    apply (isDebounceActive_unparseable fs stampPath now w data E).
    rewrite Hempty. reflexivity.
  - intros data E Ep. exact (isDebounceActive_unparseable fs stampPath now w data E Ep).
Qed.

Section Exit.

Context {T : GoTime} {W : Type} (env : HookEnv T W).

Lemma runBackupWithNotify_exit (hookCfg : option hookConfig)
  (preflight : option (hookPreflight W)) (w : W) :
  fst (runBackupWithNotify env hookCfg preflight w) = exitSuccess.
Proof.
  unfold runBackupWithNotify.
  destruct hookCfg as [hookCfg|], preflight as [preflight|]; try reflexivity.
  destruct (hCtxErr env w); [reflexivity|].
  destruct (dryRun hookCfg); [reflexivity|].
  destruct (Backup env _ (pfDeps preflight) w) as [[result [err|]] w1];
    [|reflexivity].
  destruct (errors_Is err ErrLockBusy || errors_Is err ErrInterrupted
            || errors_Is err ctxCanceled); reflexivity.
Qed.

Lemma runPostRewriteBackup_exit (hookCfg : option hookConfig)
  (preflight : option (hookPreflight W)) (stampPath : string) (w : W) :
  fst (runPostRewriteBackup env hookCfg preflight stampPath w) = exitSuccess.
Proof.
  unfold runPostRewriteBackup.
  destruct hookCfg as [hookCfg|], preflight as [preflight|]; try reflexivity.
  destruct (hCtxErr env w); [reflexivity|].
  destruct (dryRun hookCfg); [reflexivity|].
  destruct (Backup env _ (pfDeps preflight) w) as [[result [err|]] w1];
    [|reflexivity].
  destruct (errors_Is err ErrLockBusy); [reflexivity|].
  destruct (errors_Is err ErrInterrupted || errors_Is err ctxCanceled); reflexivity.
Qed.

Lemma runHookPostCommit_exit (hookCfg : hookConfig) (w : W) :
  fst (runHookPostCommit env hookCfg w) = exitSuccess.
Proof.
  unfold runHookPostCommit.
  destruct (runHookPreflight env hookCfg w) as [preflight|]; [|reflexivity].
  destruct (hCtxErr env w); [reflexivity|].
  destruct (isRebaseReflogAction env); [reflexivity|].
  destruct (isRebaseInProgress _ _ w) as [|[|]]; try reflexivity.
  apply runBackupWithNotify_exit.
Qed.

Lemma runHookPostMerge_exit (hookCfg : hookConfig) (w : W) :
  fst (runHookPostMerge env hookCfg w) = exitSuccess.
Proof.
  unfold runHookPostMerge.
  destruct (runHookPreflight env hookCfg w) as [preflight|]; [|reflexivity].
  destruct (hCtxErr env w); [reflexivity|].
  destruct (isRebaseInProgress _ _ w) as [|[|]]; try reflexivity.
  apply runBackupWithNotify_exit.
Qed.

Lemma runHookPostRewrite_exit (hookCfg : hookConfig) (command : string) (w : W) :
  fst (runHookPostRewrite env hookCfg command w) = exitSuccess.
Proof.
  unfold runHookPostRewrite.
  destruct (runHookPreflight env hookCfg w) as [preflight|]; [|reflexivity].
  destruct (hCtxErr env w); [reflexivity|].
  cbv zeta.
  destruct (String.eqb (ToLower (TrimSpace command)) "rebase");
    [|apply runPostRewriteBackup_exit].
  destruct (isRebaseInProgress _ _ w) as [|[|]]; try reflexivity.
  destruct (fst (isDebounceActive _ _ _ w)); [reflexivity|].
  apply runPostRewriteBackup_exit.
Qed.

End Exit.

(** C10. Every hook subcommand returns exit code 0, whatever the
    adapters, the environment, the configuration and [usecase.Backup]
    answer; so do the two backup runners for every argument. *)
Theorem runHook_exit_success (T : GoTime) (W : Type) (env : HookEnv T W) :
  exitSuccess = 0%Z
  /\ (forall c hookCfg w, fst (runHook env c hookCfg w) = 0%Z)
  /\ (forall hookCfg preflight w,
        fst (runBackupWithNotify env hookCfg preflight w) = 0%Z)
  /\ (forall hookCfg preflight stampPath w,
        fst (runPostRewriteBackup env hookCfg preflight stampPath w) = 0%Z).
Proof.
  repeat split.
  - intros [| |command] hookCfg w; cbn [runHook].
    + apply runHookPostCommit_exit.
    + apply runHookPostMerge_exit.
    + apply runHookPostRewrite_exit.
  - intros. apply runBackupWithNotify_exit.
  - intros. apply runPostRewriteBackup_exit.
Qed.

End HookFacts.

Module HookCases.
Import Go Err Ports Hook Mem HookFacts.

(** The stamp was written ten seconds before the clock of the world. *)
Definition stampedWorld : World :=
  {| root :=
       DirNode
         [("repo",
           DirNode
             [(".git",
               DirNode
                 [("devback-backup-stamp", FileNode "1699999990" 420 0)])])];
     clock := 1700000000 * Second; cancelled := None;
     gitDirAnswer := inr ".git"; gitCommonDirAnswer := inr ".git";
     ignoredUntracked := inr [] |}.

Lemma isDebounceActive_iff_fresh_stamp_witness :
  fst (@isDebounceActive utc World (Some fileSystem)
         "/repo/.git/devback-backup-stamp" (clock stampedWorld) stampedWorld)
  = true.
Proof.
  pose proof (isDebounceActive_iff_fresh_stamp utc World fileSystem
                "/repo/.git/devback-backup-stamp" (clock stampedWorld) stampedWorld)
    as H.
  destruct H as [Hiff _].
  - vm_compute. discriminate.
  - apply Hiff. exists "1699999990", 1699999990%Z.
    split; [vm_compute; reflexivity|].
    split; [vm_compute; reflexivity|].
    vm_compute. reflexivity.
Defined.

End HookCases.

(* ================================================================== *)
(** * Further properties                                               *)
(* ================================================================== *)

(* ------------------------------------------------------------------ *)
(** ** Error accounting of the snapshot engine                         *)
(* ------------------------------------------------------------------ *)

Module AccountingFacts.
Import Go Err Ports Exclude Rotation Snapshot FlowFacts.

(** The counters of a [BackupResult] agree with its error lists. *)
Definition accounted (r : BackupResult) : Prop :=
  SkippedFiles r
  = Z.of_nat (length (PermissionErrs r) + length (OtherErrors r))
  /\ (PartialSuccess r = true <-> (0 < SkippedFiles r)%Z).

Lemma emptyResult_accounted : accounted emptyResult.
Proof. split; [reflexivity|]. cbn. split; [discriminate | lia]. Qed.

Lemma recordCopied_accounted (r : BackupResult) :
  accounted r -> accounted (recordCopied r).
Proof. intros H. exact H. Qed.

Section Accounting.

Context {T : GoTime} {W : Type} (deps : Dependencies T W).

Lemma recordCopyError_accounted (path : string) (err : error)
  (acc : BackupResult * list string) :
  accounted (fst acc) -> accounted (fst (recordCopyError deps path err acc)).
Proof.
  destruct acc as [r errs]. intros [Hn Hp]. cbn [fst] in Hn, Hp.
  unfold accounted. cbn.
  destruct (IsPermission (FileSystem deps) err); rewrite ?length_app; cbn [length];
    (split; [lia | split; [lia | reflexivity]]).
Qed.

Lemma copyDirEntry_accounted (path target : string) (info : FileInfo)
  (acc : BackupResult * list string) (w : W) :
  accounted (fst acc) ->
  accounted (fst (fst (copyDirEntry deps path target info acc w))).
Proof.
  intros Hacc. unfold copyDirEntry.
  repeat match goal with
         | |- context [match ?x with _ => _ end] => destruct x
         | |- context [if ?x then _ else _] => destruct x
         end; cbn [fst]; try apply recordCopyError_accounted; try exact Hacc.
Qed.

Lemma copyDirWalk_accounted (src dst : string) (steps : list WalkStep)
  (acc : BackupResult * list string) (w : W) :
  accounted (fst acc) ->
  accounted (fst (snd (fst (copyDirWalk deps src dst steps acc w)))).
Proof.
  revert acc w. induction steps as [|step steps IH]; intros acc w Hacc.
  - exact Hacc.
  - cbn [copyDirWalk]. destruct (ctxErr deps w); [exact Hacc|].
    destruct (StepErr step); [apply IH, recordCopyError_accounted, Hacc|].
    destruct (Rel (FileSystem deps) src (StepPath step));
      [apply IH, recordCopyError_accounted, Hacc|].
    destruct (StepInfo step) as [info|]; [|apply IH, Hacc].
    pose proof (copyDirEntry_accounted (StepPath step)
                  (Join (FileSystem deps) [dst; s]) info acc w Hacc) as H.
    destruct (copyDirEntry deps (StepPath step) (Join (FileSystem deps) [dst; s])
                info acc w) as [acc1 w1].
    apply IH, H.
Qed.

Lemma copyDirRecursive_accounted (src dst : string) (result : BackupResult) (w : W) :
  accounted result ->
  accounted (snd (fst (copyDirRecursive deps src dst result w))).
Proof.
  intros Hres. unfold copyDirRecursive.
  pose proof (copyDirWalk_accounted src dst (Walk (FileSystem deps) src w)
                (result, []) w Hres) as H.
  destruct (copyDirWalk deps src dst (Walk (FileSystem deps) src w) (result, []) w)
    as [[walkErr [r1 errs]] w1].
  cbn [fst snd] in H. destruct (0 <? length errs)%nat; exact H.
Qed.

Lemma recordError_accounted (rel : string) (err : error) (st : copyState) :
  accounted (csResult st) -> accounted (csResult (recordError deps rel err st)).
Proof.
  intros H. unfold recordError.
  pose proof (recordCopyError_accounted rel err (csResult st, csErrors st) H) as H'.
  destruct (recordCopyError deps rel err (csResult st, csErrors st)) as [r errs].
  exact H'.
Qed.

Lemma copySelectedLoop_accounted (srcRoot dstRoot : string) (paths : list string)
  (st : copyState) (w : W) :
  accounted (csResult st) ->
  accounted (csResult (fst (copySelectedLoop deps srcRoot dstRoot paths st w))).
Proof.
  revert st w. induction paths as [|rel paths IH]; intros st w Hst.
  - exact Hst.
  - cbn [copySelectedLoop]. destruct (ctxErr deps w); [exact Hst|].
    destruct (copySelectedPath deps srcRoot dstRoot rel w) as [[[err|] copied] w1].
    + apply IH, recordError_accounted, Hst.
    + apply IH. destruct copied; exact Hst.
Qed.

Lemma copySelectedFiles_accounted (paths : list string) (srcRoot dstRoot : string)
  (result : BackupResult) (w : W) :
  accounted result ->
  accounted (snd (fst (copySelectedFiles deps paths srcRoot dstRoot result w))).
Proof.
  intros Hres. unfold copySelectedFiles. destruct paths as [|p paths]; [exact Hres|].
  pose proof (copySelectedLoop_accounted srcRoot dstRoot (p :: paths)
                {| csResult := result; csErrors := []; csFirstErr := None |} w Hres)
    as H.
  destruct (copySelectedLoop deps srcRoot dstRoot (p :: paths) _ w) as [st w1].
  cbn [fst] in H. destruct (0 <? length (csErrors st))%nat; exact H.
Qed.

Lemma copyRepoSnapshot_accounted (repoRoot targetPath : string) (w : W) :
  accounted (snd (fst (copyRepoSnapshot deps repoRoot targetPath emptyResult w))).
Proof.
  unfold copyRepoSnapshot.
  destruct (resolveSnapshotGitDirs deps repoRoot w) as [|[gitDir srcGit]];
    [apply emptyResult_accounted|].
  destruct (Stat (FileSystem deps) srcGit w); [apply emptyResult_accounted|].
  pose proof (copyDirRecursive_accounted srcGit
                (Join (FileSystem deps) [targetPath; ".git"]) emptyResult w
                emptyResult_accounted) as HA.
  destruct (copyDirRecursive deps srcGit _ emptyResult w) as [[[err|] r1] w1];
    cbn [fst snd] in HA; [exact HA|].
  destruct (cleanupSnapshotWorktrees deps _ w1) as [[err|] w2]; [exact HA|].
  destruct (ListIgnoredUntracked (Git deps) repoRoot w2) as [|allPaths]; [exact HA|].
  match goal with
  | |- context [copySelectedFiles deps ?k ?a ?b ?c ?d] =>
      pose proof (copySelectedFiles_accounted k a b c d HA) as HE;
      destruct (copySelectedFiles deps k a b c d) as [[[err|] r2] w3]
  end; cbn [fst snd] in HE; [exact HE|].
  destruct (ctxErr deps w3); exact HE.
Qed.

End Accounting.

(** X1. Whatever the adapters answer, the [BackupResult] that
    [copyRepoSnapshot] leaves behind is consistent: [SkippedFiles] is the
    number of recorded error messages ([PermissionErrs] and [OtherErrors]
    together), and [PartialSuccess] is set exactly when a file was
    skipped. *)
Theorem copyRepoSnapshot_counts_errors (T : GoTime) (W : Type)
  (deps : Dependencies T W) (repoRoot targetPath : string) (w : W) :
  let r := snd (fst (copyRepoSnapshot deps repoRoot targetPath emptyResult w)) in
  SkippedFiles r = Z.of_nat (length (PermissionErrs r) + length (OtherErrors r))
  /\ (PartialSuccess r = true <-> (0 < SkippedFiles r)%Z).
Proof. cbv zeta. apply copyRepoSnapshot_accounted. Qed.

(** X2. A result returned by [handleBackupFlow] is always a clean one: it
    comes with no error, [PartialSuccess] is not set, no file is counted
    as skipped and both error lists are empty.  The branch that would
    return a result together with the Critical error is never taken. *)
Theorem handleBackupFlow_result_is_clean (T : GoTime) (W : Type)
  (deps : Dependencies T W) (cfg : Config) (repoRoot repoDir : string)
  (r : BackupResult) (e : option error) (w w' : W) :
  handleBackupFlow deps cfg repoRoot repoDir w = (Some r, e, w') ->
  e = None /\ PartialSuccess r = false /\ SkippedFiles r = 0%Z
  /\ PermissionErrs r = [] /\ OtherErrors r = [].
Proof.
  intros H.
  assert (Hacc : accounted r).
  { revert H. unfold handleBackupFlow.
    destruct (ctxErr deps w); [discriminate|].
    destruct (createUniqueSnapshotDir deps repoDir _ _ w) as [[|targetPath] w1];
      [discriminate|].
    destruct (WriteFile (FileSystem deps) _ "" o644 w1) as [[|] w2]; [discriminate|].
    pose proof (copyRepoSnapshot_accounted deps repoRoot targetPath w2) as HC.
    destruct (copyRepoSnapshot deps repoRoot targetPath emptyResult w2)
      as [[[err|] r1] w3]; cbn [fst snd] in HC.
    { destruct (errors_Is err ctxCanceled || errors_Is err ctxDeadlineExceeded);
        discriminate. }
    destruct (WriteFile (FileSystem deps) _ "" o644 _) as [[|] w5]; [discriminate|].
    destruct (ctxErr deps _); [discriminate|].
    destruct (PartialSuccess r1); intros E; injection E as <- _ _; exact HC. }
  destruct (handleBackupFlow_result_clean deps cfg repoRoot repoDir r e w w' H)
    as [Hp He].
  destruct Hacc as [Hn Hiff].
  assert (Hz : SkippedFiles r = 0%Z).
  { destruct (Z.eq_dec (SkippedFiles r) 0) as [|Hne]; [assumption|].
    assert (Hpos : (0 < SkippedFiles r)%Z) by lia.
    apply Hiff in Hpos. congruence. }
  repeat split; try assumption.
  - destruct (PermissionErrs r); [reflexivity|]. cbn [length] in Hn. lia.
  - destruct (OtherErrors r); [reflexivity|]. rewrite Nat.add_comm in Hn.
    cbn [length] in Hn. lia.
Qed.

End AccountingFacts.

(* ------------------------------------------------------------------ *)
(** ** Rotation: listing and the three rules                           *)
(* ------------------------------------------------------------------ *)

Module RotationMore.
Import Go Err Ports Rotation RotationFacts.

(** [alive'] marks no snapshot that [alive] does not mark, and marks as
    many positions. *)
Definition fades (alive alive' : list bool) : Prop :=
  Forall2 (fun (a b : bool) => b = true -> a = true) alive alive'.

(** The verdict of the age rule on one snapshot, read in the world [w]:
    [true] when its [.done] can be stat'ed and is older than [limit]. *)
Definition expired {T : GoTime} {W : Type} (deps : Dependencies T W)
  (limit : Z) (now : Time T) (w : W) (s : snapshot) : bool :=
  match Stat (FileSystem deps) (Done s) w with
  | inr fi => (limit <? Sub T now (OfInstant T (ModTime fi)))%Z
  | inl _ => false
  end.

(** The marks after the age rule, position by position. *)
Fixpoint keepYoung {T : GoTime} {W : Type} (deps : Dependencies T W)
  (limit : Z) (now : Time T) (w : W) (snaps : list snapshot) (alive : list bool)
  : list bool :=
  match snaps, alive with
  | s :: snaps', a :: alive' =>
      (a && negb (expired deps limit now w s))
        :: keepYoung deps limit now w snaps' alive'
  | _, _ => alive
  end.

Lemma insertSnapshot_perm (s : snapshot) (l : list snapshot) :
  Permutation (insertSnapshot s l) (s :: l).
Proof.
  induction l as [|x r IH]; simpl; [reflexivity|].
  destruct (String.ltb (TimeDir s) (TimeDir x)); [reflexivity|].
  rewrite IH. apply perm_swap.
Qed.

Lemma sortSnapshots_perm (l : list snapshot) : Permutation (sortSnapshots l) l.
Proof.
  induction l as [|s l IH]; simpl; [reflexivity|].
  rewrite insertSnapshot_perm. now constructor.
Qed.

Lemma fades_refl (alive : list bool) : fades alive alive.
Proof. induction alive; constructor; auto. Qed.

Lemma fades_length (a b : list bool) : fades a b -> length b = length a.
Proof. induction 1; cbn; congruence. Qed.

Lemma countLive_cons (a : bool) (alive : list bool) :
  countLive (a :: alive) = ((if a then 1 else 0) + countLive alive)%Z.
Proof. unfold countLive. destruct a; cbn [filter length]; lia. Qed.

Lemma countLive_nonneg (alive : list bool) : (0 <= countLive alive)%Z.
Proof. unfold countLive. lia. Qed.

Lemma killOldest_fades (j : nat) (alive : list bool) : fades alive (killOldest j alive).
Proof.
  revert j. induction alive as [|a alive IH]; intros j.
  - destruct j; constructor.
  - destruct j as [|j]; [apply fades_refl|]. destruct a; cbn [killOldest].
    + constructor; [discriminate | apply IH].
    + constructor; [discriminate | apply IH].
Qed.

Lemma countLive_killOldest (j : nat) (alive : list bool) :
  countLive (killOldest j alive)
  = (countLive alive - Z.min (Z.of_nat j) (countLive alive))%Z.
Proof.
  revert j. induction alive as [|a alive IH]; intros j.
  - destruct j; cbn; lia.
  - pose proof (countLive_nonneg alive) as Hnn.
    pose proof (countLive_nonneg (a :: alive)) as Hnn'.
    destruct j as [|j]; [rewrite killOldest_zero; lia|].
    destruct a; cbn [killOldest]; rewrite !countLive_cons.
    + rewrite IH. lia.
    + rewrite (IH (S j)). lia.
Qed.

Section Rules.

Context {T : GoTime} {W : Type} (deps : Dependencies T W).

Lemma keepCountLoop_kills_oldest (dryRun : bool) (snaps : list snapshot)
  (alive : list bool) (toRemove : Z) (w : W) :
  length snaps = length alive ->
  fst (keepCountLoop deps dryRun snaps alive toRemove w)
  = killOldest (Z.to_nat toRemove) alive.
Proof.
  revert alive toRemove w.
  induction snaps as [|s snaps IH]; intros [|a alive] toRemove w Hlen;
    try discriminate.
  - destruct (Z.to_nat toRemove); reflexivity.
  - cbn [keepCountLoop].
    destruct (0 <? toRemove)%Z eqn:E; cbn [negb].
    + apply Z.ltb_lt in E. destruct a; cbn [negb].
      * specialize (IH alive (toRemove - 1)%Z (removeUnlessDryRun deps dryRun s w)
                      ltac:(simpl in Hlen; lia)).
        destruct (keepCountLoop deps dryRun snaps alive (toRemove - 1) _) as [r w'].
        cbn [fst] in IH |- *. subst r.
        replace (Z.to_nat toRemove) with (S (Z.to_nat (toRemove - 1))) by lia.
        reflexivity.
      * specialize (IH alive toRemove w ltac:(simpl in Hlen; lia)).
        destruct (keepCountLoop deps dryRun snaps alive toRemove w) as [r w'].
        cbn [fst] in IH |- *. subst r. rewrite killOldest_dead. reflexivity.
    + apply Z.ltb_ge in E. replace (Z.to_nat toRemove) with 0%nat by lia.
      rewrite killOldest_zero. reflexivity.
Qed.

Lemma keepDaysLoop_fades (dryRun : bool) (limit : Z) (now : Time T)
  (snaps : list snapshot) (alive : list bool) (w : W) :
  fades alive (fst (keepDaysLoop deps dryRun limit now snaps alive w)).
Proof.
  revert alive w. induction snaps as [|s snaps IH]; intros [|a alive] w;
    try apply fades_refl.
  cbn [keepDaysLoop].
  destruct (negb a).
  { specialize (IH alive w). destruct (keepDaysLoop deps dryRun limit now snaps alive w).
    constructor; auto. }
  destruct (Stat (FileSystem deps) (Done s) w) as [|fi].
  { specialize (IH alive w). destruct (keepDaysLoop deps dryRun limit now snaps alive w).
    constructor; auto. }
  destruct (limit <? Sub T now (OfInstant T (ModTime fi)))%Z.
  - specialize (IH alive (removeUnlessDryRun deps dryRun s w)).
    destruct (keepDaysLoop deps dryRun limit now snaps alive _).
    constructor; [discriminate | exact IH].
  - specialize (IH alive w). destruct (keepDaysLoop deps dryRun limit now snaps alive w).
    constructor; auto.
Qed.

Lemma sizeLoop_fades (dryRun : bool) (kbLimit : Z) (snaps : list snapshot)
  (alive : list bool) (sizes : list Z) (totalKB : Z) (w : W) :
  fades alive (fst (sizeLoop deps dryRun kbLimit snaps alive sizes totalKB w)).
Proof.
  revert alive sizes totalKB w.
  induction snaps as [|s snaps IH]; intros [|a alive] [|kb sizes] totalKB w;
    try apply fades_refl.
  cbn [sizeLoop].
  destruct (negb (kbLimit <? totalKB)%Z); [apply fades_refl|].
  destruct (negb a).
  - specialize (IH alive sizes totalKB w).
    destruct (sizeLoop deps dryRun kbLimit snaps alive sizes totalKB w).
    constructor; auto.
  - specialize (IH alive sizes (wrap64 (totalKB - kb))
                  (removeUnlessDryRun deps dryRun s w)).
    destruct (sizeLoop deps dryRun kbLimit snaps alive sizes _ _).
    constructor; [discriminate | exact IH].
Qed.

Lemma keepCountLoop_fades (dryRun : bool) (snaps : list snapshot)
  (alive : list bool) (toRemove : Z) (w : W) :
  fades alive (fst (keepCountLoop deps dryRun snaps alive toRemove w)).
Proof.
  revert alive toRemove w.
  induction snaps as [|s snaps IH]; intros [|a alive] toRemove w;
    try apply fades_refl.
  cbn [keepCountLoop].
  destruct (negb (0 <? toRemove)%Z); [apply fades_refl|].
  destruct (negb a).
  - specialize (IH alive toRemove w).
    destruct (keepCountLoop deps dryRun snaps alive toRemove w).
    constructor; auto.
  - specialize (IH alive (toRemove - 1)%Z (removeUnlessDryRun deps dryRun s w)).
    destruct (keepCountLoop deps dryRun snaps alive _ _).
    constructor; [discriminate | exact IH].
Qed.

Lemma applyKeepDays_fades cfg dryRun snaps alive now w :
  fades alive (fst (applyKeepDays deps cfg dryRun snaps alive now w)).
Proof.
  unfold applyKeepDays. destruct (KeepDays cfg <=? 0)%Z; [apply fades_refl|].
  apply keepDaysLoop_fades.
Qed.

Lemma applyKeepCount_fades cfg dryRun snaps alive w :
  fades alive (fst (applyKeepCount deps cfg dryRun snaps alive w)).
Proof.
  unfold applyKeepCount. destruct (KeepCount cfg <=? 0)%Z; [apply fades_refl|].
  destruct (countLive alive <=? KeepCount cfg)%Z; [apply fades_refl|].
  apply keepCountLoop_fades.
Qed.

Lemma applySizeLimit_fades cfg dryRun snaps alive w :
  fades alive (fst (applySizeLimit deps cfg dryRun snaps alive w)).
Proof.
  unfold applySizeLimit.
  destruct ((MaxTotalGBPerRepo cfg <=? 0)%Z || NoSize cfg); [apply fades_refl|].
  apply sizeLoop_fades.
Qed.

Lemma keepDaysLoop_dry_verdicts (limit : Z) (now : Time T)
  (snaps : list snapshot) (alive : list bool) (w : W) :
  fst (keepDaysLoop deps true limit now snaps alive w)
  = keepYoung deps limit now w snaps alive.
Proof.
  revert alive. induction snaps as [|s snaps IH]; intros [|a alive]; try reflexivity.
  cbn [keepDaysLoop keepYoung]. unfold expired, removeUnlessDryRun.
  specialize (IH alive).
  destruct (keepDaysLoop deps true limit now snaps alive w) as [r w'].
  cbn [fst] in IH. subst r.
  destruct a; cbn [negb andb]; [|reflexivity].
  destruct (Stat (FileSystem deps) (Done s) w) as [|fi]; [reflexivity|].
  destruct (limit <? Sub T now (OfInstant T (ModTime fi)))%Z; reflexivity.
Qed.

End Rules.

(** X3. [listSnapshots] returns the snapshots oldest first (by
    [TimeDir]), and every snapshot it returns is a completed one: its
    [.done] marker was stat'ed successfully, and it lies in a directory
    [repoDir/<date>/<time>] whose names pass [matchDateDir] and
    [matchTimeDir]. *)
Theorem listSnapshots_completed_oldest_first (T : GoTime) (W : Type)
  (deps : Dependencies T W) (repoDir : string) (w : W) (snaps : list snapshot) :
  listSnapshots deps repoDir w = inr snaps ->
  StronglySorted notYounger snaps
  /\ forall s, In s snaps ->
       exists date time fi,
         matchDateDir date = true /\ matchTimeDir time = true
         /\ DateDir s = Join (FileSystem deps) [repoDir; date]
         /\ TimeDir s = Join (FileSystem deps) [DateDir s; time]
         /\ Done s = Join (FileSystem deps) [TimeDir s; ".done"]
         /\ Stat (FileSystem deps) (Done s) w = inr fi.
Proof.
  intros H. split; [exact (listSnapshots_sorted deps repoDir w snaps H)|].
  unfold listSnapshots in H.
  destruct (ReadDir (FileSystem deps) repoDir w) as [|dateDirs]; [discriminate|].
  injection H as <-. intros s Hs.
  apply (Permutation_in _ (sortSnapshots_perm _)) in Hs.
  apply in_flat_map in Hs. destruct Hs as (d & _ & Hs).
  destruct (EntryIsDir d); cbn [negb] in Hs; [|contradiction].
  destruct (matchDateDir (EntryName d)) eqn:Ed; cbn [negb] in Hs; [|contradiction].
  destruct (ReadDir (FileSystem deps) _ w) as [|timeDirs]; [contradiction|].
  unfold timeDirSnapshots in Hs. apply in_flat_map in Hs.
  destruct Hs as (t & _ & Hs).
  destruct (EntryIsDir t); cbn [negb] in Hs; [|contradiction].
  destruct (matchTimeDir (EntryName t)) eqn:Et; cbn [negb] in Hs; [|contradiction].
  cbv zeta in Hs.
  destruct (Stat (FileSystem deps) _ w) as [|fi] eqn:Est; [contradiction|].
  destruct Hs as [<-|[]]. cbn [DateDir TimeDir Done].
  exists (EntryName d), (EntryName t), fi. repeat split; assumption.
Qed.

(** X4. The count rule on any marks: with [keepCount > 0] it leaves
    [min (living, keepCount)] snapshots living, and the ones it kills are
    the oldest living ones, as many as exceed [keepCount]. *)
Theorem applyKeepCount_keeps_newest (T : GoTime) (W : Type)
  (deps : Dependencies T W) (cfg : Config) (dryRun : bool)
  (snaps : list snapshot) (alive : list bool) (w : W) :
  length snaps = length alive ->
  (0 < KeepCount cfg)%Z ->
  let alive' := fst (applyKeepCount deps cfg dryRun snaps alive w) in
  alive' = killOldest (Z.to_nat (countLive alive - KeepCount cfg)) alive
  /\ countLive alive' = Z.min (countLive alive) (KeepCount cfg).
Proof.
  intros Hlen Hk alive'.
  assert (E : alive' = killOldest (Z.to_nat (countLive alive - KeepCount cfg)) alive).
  { unfold alive', applyKeepCount.
    replace (KeepCount cfg <=? 0)%Z with false by (symmetry; apply Z.leb_gt; lia).
    destruct (countLive alive <=? KeepCount cfg)%Z eqn:El.
    - apply Z.leb_le in El.
      replace (Z.to_nat (countLive alive - KeepCount cfg)) with 0%nat by lia.
      rewrite killOldest_zero. reflexivity.
    - apply keepCountLoop_kills_oldest. exact Hlen. }
  split; [exact E|]. rewrite E, countLive_killOldest.
  pose proof (countLive_nonneg alive). lia.
Qed.

(** X5. No rule of the rotation brings a snapshot back: the marks after
    the count rule are among those after the age rule, the marks after the
    size rule among those after the count rule, and each list of marks has
    one entry per listed snapshot. *)
Theorem rotationStages_only_fade (T : GoTime) (W : Type)
  (deps : Dependencies T W) (cfg : Config) (dryRun : bool)
  (snaps : list snapshot) (w : W) :
  let st := rotationStages deps cfg dryRun snaps w in
  fades (afterAge st) (afterCount st)
  /\ fades (afterCount st) (afterSize st)
  /\ length (afterAge st) = length snaps
  /\ length (afterCount st) = length snaps
  /\ length (afterSize st) = length snaps.
Proof.
  cbv zeta. unfold rotationStages, afterAge, afterCount, afterSize.
  pose proof (applyKeepDays_fades deps cfg dryRun snaps (map (fun _ => true) snaps)
                (Now deps w) w) as H1.
  destruct (applyKeepDays deps cfg dryRun snaps _ (Now deps w) w) as [a1 w1].
  pose proof (applyKeepCount_fades deps cfg dryRun snaps a1 w1) as H2.
  destruct (applyKeepCount deps cfg dryRun snaps a1 w1) as [a2 w2].
  pose proof (applySizeLimit_fades deps cfg dryRun snaps a2 w2) as H3.
  destruct (applySizeLimit deps cfg dryRun snaps a2 w2) as [a3 w3].
  cbn [fst snd] in *.
  apply fades_length in H1 as L1. apply fades_length in H2 as L2.
  apply fades_length in H3 as L3. rewrite length_map in L1.
  repeat split; try assumption; congruence.
Qed.

(** X6. With the three limits off ([KeepDays <= 0], [KeepCount <= 0], and
    [MaxTotalGBPerRepo <= 0] or [NoSize]) rotation removes nothing, also
    when it is not a dry run: the world is unchanged and every listed
    snapshot stays marked living. *)
Theorem rotateRepo_limits_off (T : GoTime) (W : Type)
  (deps : Dependencies T W) (repoDir : string) (cfg : Config) (dryRun : bool)
  (w : W) :
  (KeepDays cfg <= 0)%Z -> (KeepCount cfg <= 0)%Z ->
  (MaxTotalGBPerRepo cfg <= 0)%Z \/ NoSize cfg = true ->
  snd (rotateRepo deps repoDir cfg dryRun w) = w
  /\ forall snaps, listSnapshots deps repoDir w = inr snaps ->
       fst (rotateRepo deps repoDir cfg dryRun w)
       = Some (snaps, map (fun _ => true) snaps).
Proof.
  intros Hd Hc Hs. unfold rotateRepo, applyKeepDays, applyKeepCount, applySizeLimit.
  apply Z.leb_le in Hd, Hc. rewrite Hd, Hc.
  assert (Hoff : (MaxTotalGBPerRepo cfg <=? 0)%Z || NoSize cfg = true).
  { destruct Hs as [Hs|Hs]; [apply Z.leb_le in Hs; rewrite Hs; reflexivity|].
    rewrite Hs. apply orb_true_r. }
  rewrite Hoff.
  destruct (listSnapshots deps repoDir w) as [|snaps]; split; try reflexivity.
  - discriminate.
  - intros ? E. injection E as <-. reflexivity.
Qed.

(** X7. The age rule in a dry run, for [0 < KeepDays] small enough for
    [KeepDays * 24h] to fit 64 bits: a living snapshot is marked dead
    exactly when its [.done] can be stat'ed and is older than
    [KeepDays * 24h]; a snapshot whose [.done] cannot be stat'ed is
    kept. *)
Theorem applyKeepDays_dry_run_verdicts (T : GoTime) (W : Type)
  (deps : Dependencies T W) (cfg : Config)
  (snaps : list snapshot) (alive : list bool) (now : Time T) (w : W) :
  (0 < KeepDays cfg <= 106751)%Z ->
  fst (applyKeepDays deps cfg true snaps alive now w)
  = keepYoung deps (KeepDays cfg * 24 * Hour) now w snaps alive.
Proof.
  intros Hk. unfold applyKeepDays.
  replace (KeepDays cfg <=? 0)%Z with false by (symmetry; apply Z.leb_gt; lia).
  rewrite wrap64_id
    by (unfold inInt64, minInt64, maxInt64, Hour, Second; lia).
  apply keepDaysLoop_dry_verdicts.
Qed.

(** X8. The size rule, when the limit and the measured sizes stay in the
    64-bit range: the limit is [maxTotalGB * 1048576 + sizeMarginMB * 1024]
    KiB, and the rule kills the [j] oldest living snapshots for the least
    [j] that brings the total of the living ones down to the limit (or
    kills them all). *)
Theorem applySizeLimit_least_removal (T : GoTime) (W : Type)
  (deps : Dependencies T W) (cfg : Config) (dryRun : bool)
  (snaps : list snapshot) (alive : list bool) (w : W) :
  (0 < MaxTotalGBPerRepo cfg)%Z -> NoSize cfg = false ->
  inInt64 (MaxTotalGBPerRepo cfg * 1048576) ->
  inInt64 (SizeMarginMB cfg * 1024) ->
  inInt64 (MaxTotalGBPerRepo cfg * 1048576 + SizeMarginMB cfg * 1024) ->
  length snaps = length alive ->
  Forall (fun kb => 0 <= kb)%Z (measureSizes deps snaps alive w) ->
  (sumZ (measureSizes deps snaps alive w) <= maxInt64)%Z ->
  let sizes := measureSizes deps snaps alive w in
  let limit := (MaxTotalGBPerRepo cfg * 1048576 + SizeMarginMB cfg * 1024)%Z in
  sizeLimitKB cfg = limit
  /\ exists j,
       fst (applySizeLimit deps cfg dryRun snaps alive w) = killOldest j alive
       /\ (liveTotal (killOldest j alive) sizes <= limit
           \/ countLive (killOldest j alive) = 0)%Z
       /\ (forall j', (j' < j)%nat ->
             (limit < liveTotal (killOldest j' alive) sizes)%Z).
Proof.
  intros Hpos Hno H1 H2 H3 Hlen Hnn Hsum sizes limit. split.
  - apply sizeLimitKB_in_range; assumption.
  - apply applySizeLimit_in_range; assumption.
Qed.

(** X9. [dirSizeKB] of a tree whose regular files have non-negative
    sizes with a total that fits 64 bits: the total of the regular files
    rounded up to whole KiB; entries the walk reports with an error, and
    entries that are not regular files, count for nothing. *)
Theorem dirSizeKB_is_ceiling (T : GoTime) (W : Type)
  (deps : Dependencies T W) (root : string) (w : W) :
  Forall (fun sz => 0 <= sz)%Z (regularSizes deps root w) ->
  (sumZ (regularSizes deps root w) + 1023 <= maxInt64)%Z ->
  let bytes := sumZ (regularSizes deps root w) in
  let kb := dirSizeKB deps root w in
  (0 <= kb /\ 1024 * (kb - 1) < bytes <= 1024 * kb)%Z.
Proof. intros Hs Hsum. apply dirSizeKB_rounds_up; assumption. Qed.

End RotationMore.

Module RotationMoreCases.
Import Go Err Ports Rotation Snapshot Mem RotationFacts RotationCases RotationMore.

Definition threeListed : list snapshot :=
  [snapshotAt "010101-000000001"; snapshotAt "020202-000000002";
   snapshotAt "030303-000000003"].

Lemma listSnapshots_completed_oldest_first_witness :
  StronglySorted notYounger threeListed
  /\ forall s, In s threeListed ->
       exists date time fi,
         matchDateDir date = true /\ matchTimeDir time = true
         /\ DateDir s = Join fileSystem ["/backup/key"; date]
         /\ TimeDir s = Join fileSystem [DateDir s; time]
         /\ Done s = Join fileSystem [TimeDir s; ".done"]
         /\ Stat fileSystem (Done s) threeSnapshots = inr fi.
Proof.
  apply (listSnapshots_completed_oldest_first utc World deps "/backup/key"
           threeSnapshots threeListed).
  vm_compute. reflexivity.
Defined.

Lemma applyKeepCount_keeps_newest_witness :
  let alive' :=
    fst (applyKeepCount deps (rotationConfig 2 0 0 0 true) false threeListed
           [true; true; true] threeSnapshots) in
  alive' = killOldest (Z.to_nat (countLive [true; true; true] - 2)) [true; true; true]
  /\ countLive alive' = Z.min (countLive [true; true; true]) 2.
Proof.
  apply (applyKeepCount_keeps_newest utc World deps (rotationConfig 2 0 0 0 true)
           false threeListed [true; true; true] threeSnapshots).
  - reflexivity.
  - reflexivity.
Defined.

Lemma rotateRepo_limits_off_witness :
  snd (rotateRepo deps "/backup/key" (rotationConfig 0 0 0 0 true) false twoSnapshots)
  = twoSnapshots
  /\ forall snaps, listSnapshots deps "/backup/key" twoSnapshots = inr snaps ->
       fst (rotateRepo deps "/backup/key" (rotationConfig 0 0 0 0 true) false
              twoSnapshots)
       = Some (snaps, map (fun _ => true) snaps).
Proof.
  apply (rotateRepo_limits_off utc World deps "/backup/key"
           (rotationConfig 0 0 0 0 true) false twoSnapshots).
  - simpl. lia.
  - simpl. lia.
  - right. reflexivity.
Defined.

Lemma applyKeepDays_dry_run_verdicts_witness :
  fst (applyKeepDays deps (rotationConfig 0 1 0 0 true) true threeListed
         [true; true; true] (clock threeSnapshots) threeSnapshots)
  = keepYoung deps (1 * 24 * Hour) (clock threeSnapshots) threeSnapshots
      threeListed [true; true; true].
Proof.
  apply (applyKeepDays_dry_run_verdicts utc World deps (rotationConfig 0 1 0 0 true)
           threeListed [true; true; true] (clock threeSnapshots) threeSnapshots).
  simpl. lia.
Defined.

Lemma applySizeLimit_least_removal_witness :
  let cfg := rotationConfig 0 0 1 (-1024) false in
  let snaps := [snapshotAt "010101-000000001"; snapshotAt "020202-000000002"] in
  let sizes := measureSizes deps snaps [true; true] twoSnapshots in
  let limit := (MaxTotalGBPerRepo cfg * 1048576 + SizeMarginMB cfg * 1024)%Z in
  sizeLimitKB cfg = limit
  /\ exists j,
       fst (applySizeLimit deps cfg false snaps [true; true] twoSnapshots)
       = killOldest j [true; true]
       /\ (liveTotal (killOldest j [true; true]) sizes <= limit
           \/ countLive (killOldest j [true; true]) = 0)%Z
       /\ (forall j', (j' < j)%nat ->
             (limit < liveTotal (killOldest j' [true; true]) sizes)%Z).
Proof.
  apply (applySizeLimit_least_removal utc World deps
           (rotationConfig 0 0 1 (-1024) false) false
           [snapshotAt "010101-000000001"; snapshotAt "020202-000000002"]
           [true; true] twoSnapshots).
  - reflexivity.
  - reflexivity.
  - vm_compute. split; discriminate.
  - vm_compute. split; discriminate.
  - vm_compute. split; discriminate.
  - reflexivity.
  - vm_compute. repeat constructor; discriminate.
  - vm_compute. discriminate.
Defined.

Lemma dirSizeKB_is_ceiling_witness :
  let root := "/backup/key/2024-01-01/010101-000000001" in
  let bytes := sumZ (regularSizes deps root twoSnapshots) in
  let kb := dirSizeKB deps root twoSnapshots in
  (0 <= kb /\ 1024 * (kb - 1) < bytes <= 1024 * kb)%Z.
Proof.
  apply (dirSizeKB_is_ceiling utc World deps
           "/backup/key/2024-01-01/010101-000000001" twoSnapshots).
  - vm_compute. repeat constructor; discriminate.
  - vm_compute. discriminate.
Defined.

End RotationMoreCases.

(* ------------------------------------------------------------------ *)
(** ** Dry run and exit codes (backup.go: planRepoSnapshot,            *)
(**    handleDryRun, buildSnapshotPath; cmd/app/main.go: mapExitCode)  *)
(* ------------------------------------------------------------------ *)

Module FlowMore.
Import Go Err Ports Exclude Rotation Snapshot Hook.

(** [mapExitCode]; [None] is the nil error. *)
Definition mapExitCode (err : option error) : Z :=
  match err with
  | None => exitSuccess
  | Some e =>
      if errors_Is e ErrUsage then exitUsageError
      else if errors_Is e ErrLockBusy then exitLockBusy
      else if errors_Is e ErrInterrupted then exitInterrupted
      else exitCriticalError
  end.

Section DryRun.

Context {T : GoTime} {W : Type} (deps : Dependencies T W).

(** [buildSnapshotPath]. *)
Definition buildSnapshotPath (backupDir repoKey : string) (now : Time T) : string :=
  let dateDir := FormatDate T now in
  let timeDir := formatTimeDir now in
  Join (FileSystem deps) [backupDir; repoKey; dateDir; timeDir].

(** [planRepoSnapshot]: the number of paths that would be copied. *)
Definition planRepoSnapshot (repoRoot targetPath : string) (w : W) : result Z :=
  match resolveSnapshotGitDirs deps repoRoot w with
  | inl err => inl err
  | inr (_, srcGit) =>
      match Stat (FileSystem deps) srcGit w with
      | inl err => inl (Wrap "git common dir not found" err)
      | inr _ =>
          let excludes :=
            match readDevbackIgnore deps repoRoot w with
            | inr ex => ex
            | inl _ => []
            end in
          match ListIgnoredUntracked (Git deps) repoRoot w with
          | inl _ => inl (Wrap "git ls-files" (Sentinel ErrCritical))
          | inr allPaths => inr (Z.of_nat (length (keepPaths allPaths excludes)))
          end
      end
  end.

(** [handleDryRun] for non-nil filesystem and Git adapters. *)
Definition handleDryRun (cfg : Config) (repoRoot repoKey : string) (w : W)
  : option BackupResult * option error * W :=
  let snapshotDir := buildSnapshotPath (BackupDir cfg) repoKey (Now deps w) in
  match planRepoSnapshot repoRoot snapshotDir w with
  | inl _ =>
      (None, Some (Wrap "dry run planning failed" (Sentinel ErrCritical)), w)
  | inr _ =>
      let repoDir := Join (FileSystem deps) [BackupDir cfg; repoKey] in
      match Stat (FileSystem deps) repoDir w with
      | inr _ => (Some emptyResult, None, snd (rotateRepo deps repoDir cfg true w))
      | inl _ => (Some emptyResult, None, w)
      end
  end.

End DryRun.

(** X10. A dry run writes nothing: whatever the adapters answer,
    [handleDryRun] leaves the world as it found it (on an adapter that
    records deletions, none is recorded), and it returns either the empty
    result without an error or no result with a Critical error. *)
Theorem handleDryRun_writes_nothing (T : GoTime) (W : Type)
  (deps : Dependencies T W) (cfg : Config) (repoRoot repoKey : string)
  (w : W) (log : list string) :
  let out := handleDryRun deps cfg repoRoot repoKey w in
  snd out = w
  /\ snd (handleDryRun (recordingDeps deps) cfg repoRoot repoKey (w, log)) = (w, log)
  /\ (fst out = (Some emptyResult, None)
      \/ exists e, fst out = (None, Some e) /\ errors_Is e ErrCritical = true).
Proof.
  cbv zeta. split; [|split].
  - unfold handleDryRun.
    destruct (planRepoSnapshot deps repoRoot _ w); [reflexivity|].
    destruct (Stat (FileSystem deps) _ w); [reflexivity|].
    apply RotationFacts.rotateRepo_dry_world.
  - unfold handleDryRun.
    destruct (planRepoSnapshot (recordingDeps deps) repoRoot _ (w, log));
      [reflexivity|].
    destruct (Stat (FileSystem (recordingDeps deps)) _ (w, log)); [reflexivity|].
    apply RotationFacts.rotateRepo_dry_world.
  - unfold handleDryRun.
    destruct (planRepoSnapshot deps repoRoot _ w).
    + right. eexists. split; reflexivity.
    + left. destruct (Stat (FileSystem deps) _ w); reflexivity.
Qed.

(** X11. Exit codes of the backup flow: [mapExitCode] gives 0 only for
    the nil error, and the error [handleBackupFlow] returns maps to 0, 1
    (Critical) or 130 (Interrupted), never to 2 (usage) or 76 (lock
    busy); it is 0 exactly when a result is returned. *)
Theorem handleBackupFlow_exit_codes (T : GoTime) (W : Type)
  (deps : Dependencies T W) (cfg : Config) (repoRoot repoDir : string) (w : W) :
  let out := handleBackupFlow deps cfg repoRoot repoDir w in
  let code := mapExitCode (snd (fst out)) in
  (forall e, mapExitCode e = 0%Z <-> e = None)
  /\ (code = 0 \/ code = 1 \/ code = 130)%Z
  /\ (code = 0%Z <-> fst (fst out) <> None).
Proof.
  cbv zeta. split.
  { intros [e|]; cbn [mapExitCode]; [|split; reflexivity].
    split; [|discriminate].
    destruct (errors_Is e ErrUsage); [discriminate|].
    destruct (errors_Is e ErrLockBusy); [discriminate|].
    destruct (errors_Is e ErrInterrupted); discriminate. }
  destruct (handleBackupFlow deps cfg repoRoot repoDir w) as [[r e] w'] eqn:E.
  cbn [fst snd].
  destruct r as [r|].
  - destruct (FlowFacts.handleBackupFlow_result_clean deps cfg repoRoot repoDir
                r e w w' E) as [_ ->].
    cbn. split; [left; reflexivity|]. split; [discriminate | reflexivity].
  - assert (He : e = Some (Sentinel ErrInterrupted)
                 \/ exists msg, e = Some (Wrap msg (Sentinel ErrCritical))).
    { revert E. unfold handleBackupFlow.
      destruct (ctxErr deps w); [intros E; injection E as <- _; now left|].
      destruct (createUniqueSnapshotDir deps repoDir _ _ w) as [[|targetPath] w1];
        [intros E; injection E as <- _; right; eexists; reflexivity|].
      destruct (WriteFile (FileSystem deps) _ "" o644 w1) as [[|] w2];
        [intros E; injection E as <- _; right; eexists; reflexivity|].
      destruct (copyRepoSnapshot deps repoRoot targetPath emptyResult w2)
        as [[[err|] r1] w3].
      { destruct (errors_Is err ctxCanceled || errors_Is err ctxDeadlineExceeded);
          intros E; injection E as <- _; [now left | right; eexists; reflexivity]. }
      destruct (WriteFile (FileSystem deps) _ "" o644 _) as [[|] w5];
        [intros E; injection E as <- _; right; eexists; reflexivity|].
      destruct (ctxErr deps _); [intros E; injection E as <- _; now left|].
      destruct (PartialSuccess r1); discriminate. }
    destruct He as [->|[msg ->]]; cbn.
    + split; [right; right; reflexivity|]. split; [discriminate | congruence].
    + split; [right; left; reflexivity|]. split; [discriminate | congruence].
Qed.

End FlowMore.

Module FlowMoreCases.
Import Go Err Ports Exclude Rotation Snapshot Mem FlowCases AccountingFacts.

(** git lists only what is in the working tree. *)
Definition freshListing : World :=
  {| root := repoTree; clock := backupTime; cancelled := None;
     gitDirAnswer := inr ".git"; gitCommonDirAnswer := inr ".git";
     ignoredUntracked := inr ["ignored.txt"] |}.

Definition freshResult : BackupResult :=
  {| TotalFiles := 0; CopiedFiles := 3; SkippedFiles := 0; SkippedDirs := 0;
     PermissionErrs := []; OtherErrors := []; PartialSuccess := false |}.

Lemma handleBackupFlow_result_is_clean_witness :
  fst (handleBackupFlow deps plainConfig "/repo" "/backup/key" freshListing)
  = (Some freshResult, None)
  /\ (@None error = None /\ PartialSuccess freshResult = false
      /\ SkippedFiles freshResult = 0%Z
      /\ PermissionErrs freshResult = [] /\ OtherErrors freshResult = []).
Proof.
  split; [vm_compute; reflexivity|].
  apply (handleBackupFlow_result_is_clean utc World deps plainConfig
           "/repo" "/backup/key" freshResult None freshListing
           (snd (handleBackupFlow deps plainConfig "/repo" "/backup/key" freshListing))).
  vm_compute. reflexivity.
Defined.

End FlowMoreCases.

(* ------------------------------------------------------------------ *)
(** ** Reservation: other errors, and the names it produces            *)
(* ------------------------------------------------------------------ *)

Module ReserveMore.
Import Go Err Ports Rotation Snapshot GoFacts ReserveFacts.

Section Abort.

Context {T : GoTime} {W : Type} (deps : Dependencies T W).
Variables repoDir dateDir baseTimeDir : string.

(** The attempt on candidate [i] in [w] ends the reservation with [err]
    in [w']: an exclusive create fails with an error that is not
    "already exists"; when it is the create of [.reserve], the candidate
    is removed first. *)
Definition attemptFails (i : nat) (w : W) (err : error) (w' : W) : Prop :=
  let candidate := candidatePath deps repoDir dateDir baseTimeDir i in
  IsExist (FileSystem deps) err = false
  /\ (CreateDirExclusive (FileSystem deps) candidate o755 w = (Some err, w')
      \/ exists wa wb,
           CreateDirExclusive (FileSystem deps) candidate o755 w = (None, wa)
           /\ CreateDirExclusive (FileSystem deps)
                (Join (FileSystem deps) [candidate; ".reserve"]) o700 wa
              = (Some err, wb)
           /\ w' = snd (RemoveAll (FileSystem deps) candidate wb)).

Lemma reserveLoop_aborts (n i k : nat) (w wk w' : W) (err : error) :
  (k < n)%nat ->
  collisions deps repoDir dateDir baseTimeDir i k w = Some wk ->
  attemptFails (i + k) wk err w' ->
  reserveLoop deps repoDir dateDir baseTimeDir n i w = (inl err, w').
Proof.
  revert n i w. induction k as [|k IH]; intros n i w Hk Hc Hf.
  - cbn in Hc. injection Hc as <-. rewrite Nat.add_0_r in Hf.
    destruct n as [|n]; [lia|]. cbn [reserveLoop].
    destruct Hf as [Hex [Hdir|(wa & wb & Hdir & Hres & ->)]];
      unfold candidatePath in Hdir.
    + rewrite Hdir, Hex. reflexivity.
    + unfold candidatePath in Hres. rewrite Hdir, Hres, Hex. reflexivity.
  - destruct n as [|n]; [lia|]. cbn [reserveLoop collisions] in *.
    unfold candidatePath in Hc.
    replace (i + S k)%nat with (S i + k)%nat in Hf by lia.
    destruct (CreateDirExclusive (FileSystem deps) _ o755 w) as [[e|] w1].
    + destruct (IsExist (FileSystem deps) e); [|discriminate].
      apply (IH n (S i) w1); [lia | exact Hc | exact Hf].
    + destruct (CreateDirExclusive (FileSystem deps) _ o700 w1) as [[e|] w2];
        [|discriminate].
      destruct (IsExist (FileSystem deps) e); [|discriminate].
      apply (IH n (S i) _); [lia | exact Hc | exact Hf].
Qed.

End Abort.

(** *** Names *)

Lemma isDigit_digitChar (d : N) : (d < 10)%N -> isDigit (digitChar d) = true.
Proof.
  intros H.
  assert (G : forallb (fun k => isDigit (digitChar (N.of_nat k))) (seq 0 10) = true)
    by (vm_compute; reflexivity).
  rewrite forallb_forall in G.
  replace d with (N.of_nat (N.to_nat d)) by lia. apply G, in_seq. lia.
Qed.

Lemma natDigits_allDigits (fuel : nat) (n : N) (acc : string) :
  allDigits acc = true -> allDigits (natDigits fuel n acc) = true.
Proof.
  revert n acc. induction fuel as [|fuel IH]; intros n acc Hacc; [exact Hacc|].
  cbn [natDigits].
  assert (Hd : allDigits (String (digitChar (n mod 10)) acc) = true).
  { unfold allDigits in *. cbn [RepoKey.allb]. rewrite Hacc, isDigit_digitChar.
    - reflexivity.
    - apply N.mod_lt. discriminate. }
  destruct (n <? 10)%N; [exact Hd | apply IH, Hd].
Qed.

Lemma natDigits_nonEmpty (fuel : nat) (n : N) (acc : string) :
  acc <> "" -> natDigits fuel n acc <> "".
Proof.
  revert n acc. induction fuel as [|fuel IH]; intros n acc Hacc; [exact Hacc|].
  cbn [natDigits]. destruct (n <? 10)%N; [discriminate | apply IH; discriminate].
Qed.

Lemma natDigits_S_nonEmpty (fuel : nat) (n : N) (acc : string) :
  natDigits (S fuel) n acc <> "".
Proof.
  cbn [natDigits]. destruct (n <? 10)%N; [discriminate|].
  apply natDigits_nonEmpty. discriminate.
Qed.

Lemma allDigits_app (a b : string) :
  allDigits (a ++ b) = allDigits a && allDigits b.
Proof.
  unfold allDigits. induction a as [|c a IH]; cbn [append RepoKey.allb];
    [reflexivity|]. now rewrite IH, andb_assoc.
Qed.

Lemma allDigits_zeros (k : nat) : allDigits (zeros k) = true.
Proof. induction k as [|k IH]; [reflexivity|]. unfold allDigits in *. cbn. exact IH. Qed.

Lemma padZero_allDigits (width : nat) (n : N) :
  allDigits (padZero width n) = true /\ padZero width n <> "".
Proof.
  unfold padZero, itoa. split.
  - rewrite allDigits_app, allDigits_zeros.
    apply natDigits_allDigits. reflexivity.
  - pose proof (natDigits_S_nonEmpty 19 n "") as H.
    destruct (zeros _); [exact H | discriminate].
Qed.

Lemma allDigits_no_minus (s : string) : allDigits s = true -> inb "-" s = false.
Proof.
  unfold allDigits. induction s as [|c s IH]; [reflexivity|].
  cbn [RepoKey.allb inb]. intros H. apply andb_true_iff in H. destruct H as [Hc Hs].
  rewrite (IH Hs), orb_false_r.
  destruct (Ascii.eqb_spec "-"%char c) as [<-|]; [discriminate Hc | reflexivity].
Qed.

Lemma sixDigits_allDigits (s : string) :
  len s = 6%nat -> sixDigits s = true -> allDigits s = true.
Proof.
  intros Hlen H.
  destruct s as [|c0 [|c1 [|c2 [|c3 [|c4 [|c5 [|c6 s]]]]]]]; try discriminate.
  unfold sixDigits, digitAt, byteAt in H. cbn in H.
  unfold allDigits. cbn [RepoKey.allb].
  repeat (apply andb_true_iff in H; destruct H as [? H]).
  repeat match goal with
         | Hc : isDigit _ = true |- _ => rewrite Hc; clear Hc
         end.
  reflexivity.
Qed.

Lemma matchTimeDir_parts (p0 : string) (rest : list string) :
  len p0 = 6%nat -> sixDigits p0 = true ->
  rest <> [] ->
  Forall (fun part => allDigits part = true /\ part <> "") rest ->
  forall name, Split name "-" = p0 :: rest -> matchTimeDir name = true.
Proof.
  intros Hlen H6 Hne Hrest name Hsplit. unfold matchTimeDir. rewrite Hsplit.
  destruct rest as [|r rest]; [contradiction|].
  rewrite Hlen, H6. cbn [Nat.eqb negb].
  apply forallb_forall. intros part Hin.
  rewrite Forall_forall in Hrest. destruct (Hrest part Hin) as [Hd Hn].
  rewrite Hd, andb_true_r. destruct (String.eqb_spec part ""); [contradiction|].
  reflexivity.
Qed.

(** X12. When the candidates before candidate [k] are all taken and the
    attempt on candidate [k] fails with an error other than "already
    exists", [createUniqueSnapshotDir] stops there and returns that error;
    a failure on [.reserve] removes the candidate first. *)
Theorem createUniqueSnapshotDir_other_error (T : GoTime) (W : Type)
  (deps : Dependencies T W) (repoDir dateDir : string) (now : Time T)
  (w w1 wk w' : W) (k : nat) (err : error) :
  CreateDir (FileSystem deps) (Join (FileSystem deps) [repoDir; dateDir]) o755 w
  = (None, w1) ->
  (k < 100)%nat ->
  collisions deps repoDir dateDir (formatTimeDir now) 0 k w1 = Some wk ->
  attemptFails deps repoDir dateDir (formatTimeDir now) k wk err w' ->
  createUniqueSnapshotDir deps repoDir dateDir now w = (inl err, w').
Proof.
  intros Hdate Hk Hc Hf. unfold createUniqueSnapshotDir. rewrite Hdate.
  apply (reserveLoop_aborts deps repoDir dateDir (formatTimeDir now) 100 0 k w1 wk w' err);
    assumption.
Qed.

(** X13. Every directory name the reservation can produce is one that
    rotation recognises: when the clock part of the name is six digits,
    [matchTimeDir] accepts the base name [HHMMSS-NNNNNNNNN] and each
    suffixed name [HHMMSS-NNNNNNNNN-DD]. *)
Theorem candidateTimeDir_matches (T : GoTime) (now : Time T) (i : nat) :
  len (FormatClock T now) = 6%nat ->
  sixDigits (FormatClock T now) = true ->
  matchTimeDir (candidateTimeDir (formatTimeDir now) i) = true.
Proof.
  intros Hlen H6.
  pose proof (sixDigits_allDigits _ Hlen H6) as Hclock.
  pose proof (padZero_allDigits 9 (Nanosecond T now)) as [Hnano Hnano'].
  pose proof (padZero_allDigits 2 (N.of_nat i)) as [Hsuf Hsuf'].
  destruct i as [|i].
  - apply (matchTimeDir_parts (FormatClock T now) [padZero 9 (Nanosecond T now)]);
      try assumption; [discriminate | repeat constructor; assumption|].
    cbn [candidateTimeDir]. unfold formatTimeDir.
    change ("-" ++ padZero 9 (Nanosecond T now))%string
      with (String "-" (padZero 9 (Nanosecond T now))).
    rewrite (Split_cons "-" (FormatClock T now) (padZero 9 (Nanosecond T now))
               (allDigits_no_minus _ Hclock)).
    rewrite (Split_plain "-" _ (allDigits_no_minus _ Hnano)). reflexivity.
  - apply (matchTimeDir_parts (FormatClock T now)
             [padZero 9 (Nanosecond T now); padZero 2 (N.of_nat (S i))]);
      try assumption; [discriminate | repeat constructor; assumption|].
    cbn [candidateTimeDir]. unfold formatTimeDir.
    rewrite GoFacts.app_assoc. cbn [append].
    rewrite (Split_cons "-" (FormatClock T now)
               (padZero 9 (Nanosecond T now)
                  ++ String "-" (padZero 2 (N.of_nat (S i))))
               (allDigits_no_minus _ Hclock)).
    rewrite (Split_cons "-" (padZero 9 (Nanosecond T now))
               (padZero 2 (N.of_nat (S i))) (allDigits_no_minus _ Hnano)).
    rewrite (Split_plain "-" _ (allDigits_no_minus _ Hsuf)). reflexivity.
Qed.

End ReserveMore.

Module ReserveMoreCases.
Import Go Err Ports Rotation Snapshot Mem ReserveFacts ReserveCases ReserveMore.

(** The in-memory filesystem with exclusive creates refused, with a
    permission error, for the paths below [dir]. *)
Definition readOnlyBelow (dir : string) : FileSystemPort World :=
  {| ReadFile := ReadFile fileSystem;
     WriteFile := WriteFile fileSystem;
     CreateDir := CreateDir fileSystem;
     RemoveAll := RemoveAll fileSystem;
     Stat := Stat fileSystem;
     Lstat := Lstat fileSystem;
     Walk := Walk fileSystem;
     ReadDir := ReadDir fileSystem;
     CreateDirExclusive := fun p perm w =>
       if HasPrefix p dir then (Some (Sentinel osErrPermission), w)
       else CreateDirExclusive fileSystem p perm w;
     Copy := Copy fileSystem;
     Move := Move fileSystem;
     Readlink := Readlink fileSystem;
     Symlink := Symlink fileSystem;
     Chmod := Chmod fileSystem;
     Join := Join fileSystem;
     PathBase := PathBase fileSystem;
     PathDir := PathDir fileSystem;
     Rel := Rel fileSystem;
     IsNotExist := IsNotExist fileSystem;
     IsExist := IsExist fileSystem;
     IsPermission := IsPermission fileSystem |}.

Definition deniedDeps : Dependencies utc World :=
  Build_Dependencies utc World
    (readOnlyBelow "/backup/key/2023-11-14/221320-123456789-02")
    git cancelled clock.

Lemma createUniqueSnapshotDir_other_error_witness :
  createUniqueSnapshotDir deniedDeps "/backup/key" "2023-11-14" reserveTime busyWorld
  = (inl (Sentinel osErrPermission), busyWorld).
Proof.
  apply (createUniqueSnapshotDir_other_error utc World deniedDeps
           "/backup/key" "2023-11-14" reserveTime busyWorld busyWorld busyWorld
           busyWorld 2 (Sentinel osErrPermission)).
  - vm_compute. reflexivity.
  - lia.
  - vm_compute. reflexivity.
  - split; [reflexivity|]. left. vm_compute. reflexivity.
Defined.

Lemma candidateTimeDir_matches_witness :
  matchTimeDir (candidateTimeDir (@formatTimeDir utc reserveTime) 7) = true.
Proof.
  apply (candidateTimeDir_matches utc reserveTime 7).
  - vm_compute. reflexivity.
  - vm_compute. reflexivity.
Defined.

End ReserveMoreCases.

(* ------------------------------------------------------------------ *)
(** ** The debounce stamp read back, hooks in dry run, lock age        *)
(* ------------------------------------------------------------------ *)

Module StampFacts.
Import Go Err Ports Rotation Snapshot Hook HookFacts ReserveMore.














End StampFacts.

Module StampCases.
Import Go Err Ports Rotation Snapshot Hook Mem HookCases StampFacts.






End StampCases.

(* ------------------------------------------------------------------ *)
(** ** Lock validation: what is decided before the process is looked at *)
(* ------------------------------------------------------------------ *)

Module LockMore.
Import Go Err Ports Lock LockFacts.

(** X16. [validateLockFile] decides on the record alone in three cases,
    whatever the process table says: a lock file that cannot be read or
    parsed is stale; a record older than [maxAge] is stale; and a younger
    record written on another host is held. *)
Theorem validateLockFile_before_process_checks (T : GoTime) (os : LockOS T)
  (lockPath : string) (maxAge : Z) :
  (forall e, readLockInfo os lockPath = inl e ->
             validateLockFile os lockPath maxAge = false)
  /\ (forall info, readLockInfo os lockPath = inr info ->
        (maxAge < Sub T (timeNow os) (StartTime info))%Z ->
        validateLockFile os lockPath maxAge = false)
  /\ (forall info hostname, readLockInfo os lockPath = inr info ->
        (Sub T (timeNow os) (StartTime info) <= maxAge)%Z ->
        Hostname info <> "" ->
        osHostname os = inr hostname ->
        hostname <> Hostname info ->
        validateLockFile os lockPath maxAge = true).
Proof.
  split; [|split].
  - intros e H. unfold validateLockFile. rewrite H. reflexivity.
  - intros info Hr Hage. exact (validateLockFile_old os lockPath maxAge info Hr Hage).
  - intros info hostname Hr Hage Hh Hos Hne.
    exact (validateLockFile_other_host os lockPath maxAge info hostname
             Hr Hage Hh Hos Hne).
Qed.

End LockMore.

(* ------------------------------------------------------------------ *)
(** ** Repository keys (backup.go: sanitizeSegment, repoKeyFromSlug)   *)
(* ------------------------------------------------------------------ *)

Module RepoKeyMore.
Import Go Err Ports RepoKey.

(** The runes [sanitizeSegment] keeps: ASCII letters, digits, [.], [_]
    and [-]. *)
Definition allowedRune (r : N) : bool :=
  (inRange 97 122 r || inRange 65 90 r || inRange 48 57 r
   || (r =? 46) || (r =? 95) || (r =? 45))%N.

(** The loop [for _, r := range s] of [sanitizeSegment]: one output byte
    per decoded rune, an invalid byte decoding to [RuneError]. *)
Fixpoint sanitizeRunes (fuel : nat) (s : string) : string :=
  match fuel with
  | O => ""
  | S fuel' =>
      match s with
      | "" => ""
      | _ =>
          let '(r, n) := DecodeRuneInString s in
          String (if allowedRune r then ascii_of_N r else "_"%char)
            (sanitizeRunes fuel' (drop n s))
      end
  end.

(** [sanitizeSegment]. *)
Definition sanitizeSegment (s : string) : string :=
  let out := Trim (TrimLeft (sanitizeRunes (len s) s) ".") "_- " in
  if String.eqb out "" then "repo" else out.

(** [repoKeyFromSlug]: [None] is the pair [("", false)]. *)
Definition repoKeyFromSlug {W : Type} (fs : FileSystemPort W)
  (repoRoot slug : string) : option string :=
  let segs :=
    flat_map
      (fun s =>
         let s := sanitizeSegment s in
         if negb (String.eqb s "") then [s] else [])
      (Split slug "/") in
  match segs with
  | [] => None
  | _ => Some (Join fs (segs ++ [sanitizeSegment (PathBase fs repoRoot)]))
  end.

Definition allowedByte (c : ascii) : bool := allowedRune (byteN c).

Lemma allowedRune_byte (r : N) :
  allowedRune r = true -> allowedByte (ascii_of_N r) = true.
Proof.
  intros H. unfold allowedByte, byteN.
  rewrite N_ascii_embedding; [exact H|].
  unfold allowedRune, inRange in H.
  repeat match type of H with
         | (_ || _)%bool = true => apply orb_true_iff in H; destruct H as [H|H]
         end;
    repeat match goal with
           | Hx : (_ && _)%bool = true |- _ =>
               apply andb_true_iff in Hx; destruct Hx
           | Hx : (_ <=? _)%N = true |- _ => apply N.leb_le in Hx
           | Hx : (_ =? _)%N = true |- _ => apply N.eqb_eq in Hx
           end; lia.
Qed.

Lemma sanitizeRunes_allowed (fuel : nat) (s : string) :
  allb allowedByte (sanitizeRunes fuel s) = true.
Proof.
  revert s. induction fuel as [|fuel IH]; intros s; [reflexivity|].
  cbn [sanitizeRunes]. destruct s as [|c s]; [reflexivity|].
  destruct (DecodeRuneInString (String c s)) as [r n].
  cbn [allb]. rewrite IH, andb_true_r.
  destruct (allowedRune r) eqn:E; [apply allowedRune_byte, E | reflexivity].
Qed.

Lemma TrimLeft_allb (P : ascii -> bool) (s cut : string) :
  allb P s = true -> allb P (TrimLeft s cut) = true.
Proof.
  induction s as [|c s IH]; intros H; [reflexivity|].
  cbn [TrimLeft]. destruct (inb c cut); [|exact H].
  cbn [allb] in H. apply andb_true_iff in H. apply IH, H.
Qed.

Lemma TrimRight_allb (P : ascii -> bool) (s cut : string) :
  allb P s = true -> allb P (TrimRight s cut) = true.
Proof.
  induction s as [|c s IH]; intros H; [reflexivity|].
  cbn [allb] in H. apply andb_true_iff in H. destruct H as [Hc Hs].
  cbn [TrimRight]. destruct (String.eqb (TrimRight s cut) "" && inb c cut);
    [reflexivity|].
  cbn [allb]. rewrite Hc, (IH Hs). reflexivity.
Qed.

Lemma TrimRight_fixed (s cut : string) :
  TrimRight (TrimRight s cut) cut = TrimRight s cut.
Proof.
  induction s as [|x s IH]; [reflexivity|].
  cbn [TrimRight].
  destruct (String.eqb (TrimRight s cut) "" && inb x cut) eqn:E; [reflexivity|].
  cbn [TrimRight]. rewrite IH, E. reflexivity.
Qed.

(** A left-trimmed string does not start with a byte of the cutset. *)
Definition headOutside (s cut : string) : Prop :=
  match s with
  | "" => True
  | String c _ => inb c cut = false
  end.

Lemma TrimLeft_headOutside (s cut : string) : headOutside (TrimLeft s cut) cut.
Proof.
  induction s as [|c s IH]; [exact I|].
  cbn [TrimLeft]. destruct (inb c cut) eqn:E; [exact IH | exact E].
Qed.

Lemma TrimRight_headOutside (s cut : string) :
  headOutside s cut -> headOutside (TrimRight s cut) cut.
Proof.
  destruct s as [|c s]; [intros _; exact I|]. cbn [headOutside TrimRight].
  intros H. rewrite H, andb_false_r. exact H.
Qed.

Lemma TrimLeft_of_headOutside (s cut : string) :
  headOutside s cut -> TrimLeft s cut = s.
Proof.
  destruct s as [|c s]; [reflexivity|]. cbn [headOutside TrimLeft].
  intros ->. reflexivity.
Qed.

Lemma Trim_fixed (s cut : string) : Trim (Trim s cut) cut = Trim s cut.
Proof.
  unfold Trim.
  rewrite (TrimLeft_of_headOutside (TrimRight (TrimLeft s cut) cut) cut).
  - apply TrimRight_fixed.
  - apply TrimRight_headOutside, TrimLeft_headOutside.
Qed.


Lemma splitLoop_nonEmpty (sep : string) (skip : nat) (cur s : string) :
  splitLoop sep skip cur s <> [].
Proof.
  revert skip cur. induction s as [|c s IH]; intros skip cur; cbn [splitLoop].
  - discriminate.
  - destruct skip; [|apply IH].
    destruct (String.prefix sep (String c s)); [discriminate | apply IH].
Qed.

Lemma sanitizeSegment_trimmed (s : string) :
  sanitizeSegment s <> ""
  /\ allb allowedByte (sanitizeSegment s) = true
  /\ Trim (sanitizeSegment s) "_- " = sanitizeSegment s.
Proof.
  unfold sanitizeSegment.
  destruct (String.eqb_spec
              (Trim (TrimLeft (sanitizeRunes (len s) s) ".") "_- ") "") as [E|E].
  - repeat split; discriminate.
  - split; [exact E|]. split; [|apply Trim_fixed].
    unfold Trim. apply TrimRight_allb, TrimLeft_allb, TrimLeft_allb.
    apply sanitizeRunes_allowed.
Qed.


(** X18. [repoKeyFromSlug] never fails and drops no segment: since
    [sanitizeSegment] turns an empty or unusable segment into [repo], the
    key is the join of the sanitized segments of the slug (as split on
    [/]) followed by the sanitized base name of the repository root. *)
Theorem repoKeyFromSlug_total (W : Type) (fs : FileSystemPort W)
  (repoRoot slug : string) :
  repoKeyFromSlug fs repoRoot slug
  = Some (Join fs (map sanitizeSegment (Split slug "/")
                     ++ [sanitizeSegment (PathBase fs repoRoot)])).
Proof.
  unfold repoKeyFromSlug. cbv zeta.
  assert (E : flat_map
                (fun s => if negb (String.eqb (sanitizeSegment s) "")
                          then [sanitizeSegment s] else [])
                (Split slug "/")
              = map sanitizeSegment (Split slug "/")).
  { induction (Split slug "/") as [|x l IH]; [reflexivity|].
    cbn [map]. rewrite <- IH. cbn [flat_map].
    destruct (String.eqb_spec (sanitizeSegment x) "") as [E|E]; [|reflexivity].
    destruct (sanitizeSegment_trimmed x) as [Hne _]. contradiction. }
  rewrite E.
  destruct (Split slug "/") as [|x l] eqn:Es; [|reflexivity].
  exfalso. exact (splitLoop_nonEmpty "/" 0 "" slug Es).
Qed.

End RepoKeyMore.

(* ------------------------------------------------------------------ *)
(** ** Counters the engine never touches; short hashes                 *)
(* ------------------------------------------------------------------ *)

Module CounterFacts.
Import Go Err Ports Exclude Rotation Snapshot.

(** What the engine keeps true of the counters of a result. *)
Definition untouched (r : BackupResult) : Prop :=
  TotalFiles r = 0%Z /\ SkippedDirs r = 0%Z
  /\ (0 <= CopiedFiles r)%Z /\ (0 <= SkippedFiles r)%Z.

Section Invariant.

Context {T : GoTime} {W : Type} (deps : Dependencies T W).

(** Any property of the result that [recordCopyError] and
    [recordCopied] preserve is preserved by the whole snapshot copy. *)
Variable P : BackupResult -> Prop.
Hypothesis P_error :
  forall path err acc, P (fst acc) -> P (fst (recordCopyError deps path err acc)).
Hypothesis P_copied : forall r, P r -> P (recordCopied r).

Lemma copyDirEntry_keeps (path target : string) (info : FileInfo)
  (acc : BackupResult * list string) (w : W) :
  P (fst acc) -> P (fst (fst (copyDirEntry deps path target info acc w))).
Proof.
  intros Hacc. unfold copyDirEntry.
  repeat match goal with
         | |- context [match ?x with _ => _ end] => destruct x
         | |- context [if ?x then _ else _] => destruct x
         end; cbn [fst]; try apply P_error; try apply P_copied; exact Hacc.
Qed.

Lemma copyDirWalk_keeps (src dst : string) (steps : list WalkStep)
  (acc : BackupResult * list string) (w : W) :
  P (fst acc) -> P (fst (snd (fst (copyDirWalk deps src dst steps acc w)))).
Proof.
  revert acc w. induction steps as [|step steps IH]; intros acc w Hacc.
  - exact Hacc.
  - cbn [copyDirWalk]. destruct (ctxErr deps w); [exact Hacc|].
    destruct (StepErr step); [apply IH, P_error, Hacc|].
    destruct (Rel (FileSystem deps) src (StepPath step));
      [apply IH, P_error, Hacc|].
    destruct (StepInfo step) as [info|]; [|apply IH, Hacc].
    pose proof (copyDirEntry_keeps (StepPath step)
                  (Join (FileSystem deps) [dst; s]) info acc w Hacc) as H.
    destruct (copyDirEntry deps (StepPath step) (Join (FileSystem deps) [dst; s])
                info acc w) as [acc1 w1].
    apply IH, H.
Qed.

Lemma copyDirRecursive_keeps (src dst : string) (result : BackupResult) (w : W) :
  P result -> P (snd (fst (copyDirRecursive deps src dst result w))).
Proof.
  intros Hres. unfold copyDirRecursive.
  pose proof (copyDirWalk_keeps src dst (Walk (FileSystem deps) src w)
                (result, []) w Hres) as H.
  destruct (copyDirWalk deps src dst (Walk (FileSystem deps) src w) (result, []) w)
    as [[walkErr [r1 errs]] w1].
  cbn [fst snd] in H. destruct (0 <? length errs)%nat; exact H.
Qed.

Lemma copySelectedLoop_keeps (srcRoot dstRoot : string) (paths : list string)
  (st : copyState) (w : W) :
  P (csResult st) ->
  P (csResult (fst (copySelectedLoop deps srcRoot dstRoot paths st w))).
Proof.
  revert st w. induction paths as [|rel paths IH]; intros st w Hst.
  - exact Hst.
  - cbn [copySelectedLoop]. destruct (ctxErr deps w); [exact Hst|].
    destruct (copySelectedPath deps srcRoot dstRoot rel w) as [[[err|] copied] w1].
    + apply IH. unfold recordError.
      pose proof (P_error rel err (csResult st, csErrors st) Hst) as H.
      destruct (recordCopyError deps rel err (csResult st, csErrors st)). exact H.
    + apply IH. destruct copied; [apply P_copied, Hst | exact Hst].
Qed.

Lemma copySelectedFiles_keeps (paths : list string) (srcRoot dstRoot : string)
  (result : BackupResult) (w : W) :
  P result ->
  P (snd (fst (copySelectedFiles deps paths srcRoot dstRoot result w))).
Proof.
  intros Hres. unfold copySelectedFiles. destruct paths as [|p paths]; [exact Hres|].
  pose proof (copySelectedLoop_keeps srcRoot dstRoot (p :: paths)
                {| csResult := result; csErrors := []; csFirstErr := None |} w Hres)
    as H.
  destruct (copySelectedLoop deps srcRoot dstRoot (p :: paths) _ w) as [st w1].
  cbn [fst] in H. destruct (0 <? length (csErrors st))%nat; exact H.
Qed.

Lemma copyRepoSnapshot_keeps (repoRoot targetPath : string)
  (result : BackupResult) (w : W) :
  P result ->
  P (snd (fst (copyRepoSnapshot deps repoRoot targetPath result w))).
Proof.
  intros Hres. unfold copyRepoSnapshot.
  destruct (resolveSnapshotGitDirs deps repoRoot w) as [|[gitDir srcGit]];
    [exact Hres|].
  destruct (Stat (FileSystem deps) srcGit w); [exact Hres|].
  pose proof (copyDirRecursive_keeps srcGit
                (Join (FileSystem deps) [targetPath; ".git"]) result w Hres) as HA.
  destruct (copyDirRecursive deps srcGit _ result w) as [[[err|] r1] w1];
    cbn [fst snd] in HA; [exact HA|].
  destruct (cleanupSnapshotWorktrees deps _ w1) as [[err|] w2]; [exact HA|].
  destruct (ListIgnoredUntracked (Git deps) repoRoot w2) as [|allPaths]; [exact HA|].
  match goal with
  | |- context [copySelectedFiles deps ?k ?a ?b ?c ?d] =>
      pose proof (copySelectedFiles_keeps k a b c d HA) as HE;
      destruct (copySelectedFiles deps k a b c d) as [[[err|] r2] w3]
  end; cbn [fst snd] in HE; [exact HE|].
  destruct (ctxErr deps w3); exact HE.
Qed.

End Invariant.

(** X19. The snapshot engine never sets two of the counters it returns:
    whatever is copied or skipped, [TotalFiles] and [SkippedDirs] of the
    result of [copyRepoSnapshot] stay 0, while [CopiedFiles] and
    [SkippedFiles] only count upwards from 0. *)
Theorem copyRepoSnapshot_dead_counters (T : GoTime) (W : Type)
  (deps : Dependencies T W) (repoRoot targetPath : string) (w : W) :
  let r := snd (fst (copyRepoSnapshot deps repoRoot targetPath emptyResult w)) in
  TotalFiles r = 0%Z /\ SkippedDirs r = 0%Z
  /\ (0 <= CopiedFiles r)%Z /\ (0 <= SkippedFiles r)%Z.
Proof.
  cbv zeta.
  apply (copyRepoSnapshot_keeps deps untouched).
  - intros path err [r errs] (Ht & Hd & Hc & Hs). cbn [fst] in Ht, Hd, Hc, Hs.
    unfold untouched. cbn. repeat split; try assumption; lia.
  - intros r (Ht & Hd & Hc & Hs). unfold untouched. cbn.
    repeat split; try assumption; lia.
  - unfold untouched. cbn. repeat split; lia.
Qed.

End CounterFacts.

Module HashFacts.
Import Go.

Section ShortHash.

(** [hex.EncodeToString (sha256.Sum256 (s))]: SHA-256 is taken as given. *)
Variable sha256Hex : string -> string.




End ShortHash.


End HashFacts.

Module HashCases.
Import Go HashFacts.



End HashCases.

(* ------------------------------------------------------------------ *)
(** ** The exclude file and the reported pattern                       *)
(* ------------------------------------------------------------------ *)

Module ExcludeMore.
Import Go Exclude ExcludeFacts GoFacts.

Lemma inb_take (c : ascii) (n : nat) (s : string) :
  inb c s = false -> inb c (take n s) = false.
Proof.
  revert n. induction s as [|x s IH]; intros n H; [destruct n; reflexivity|].
  cbn [inb] in H. apply orb_false_iff in H. destruct H as [Hx Hs].
  destruct n as [|n]; [reflexivity|]. cbn [take inb]. rewrite Hx, (IH n Hs). reflexivity.
Qed.

Lemma inb_drop (c : ascii) (n : nat) (s : string) :
  inb c s = false -> inb c (drop n s) = false.
Proof.
  revert n. induction s as [|x s IH]; intros n H; [destruct n; reflexivity|].
  destruct n as [|n]; [exact H|]. cbn [drop].
  cbn [inb] in H. apply orb_false_iff in H. apply IH, H.
Qed.

Lemma trimLeftSpace_inb (c : ascii) (fuel : nat) (s : string) :
  inb c s = false -> inb c (trimLeftSpace fuel s) = false.
Proof.
  revert s. induction fuel as [|fuel IH]; intros s H; [exact H|].
  cbn [trimLeftSpace]. destruct (DecodeRuneInString s) as [r n].
  destruct ((0 <? n)%nat && IsSpace r); [apply IH, inb_drop, H | exact H].
Qed.

Lemma trimRightSpace_inb (c : ascii) (fuel : nat) (s : string) :
  inb c s = false -> inb c (trimRightSpace fuel s) = false.
Proof.
  revert s. induction fuel as [|fuel IH]; intros s H; [exact H|].
  cbn [trimRightSpace]. destruct (DecodeLastRuneInString s) as [r n].
  destruct ((0 <? n)%nat && IsSpace r); [apply IH, inb_take, H | exact H].
Qed.

Lemma TrimSpace_inb (c : ascii) (s : string) :
  inb c s = false -> inb c (TrimSpace s) = false.
Proof. intros H. unfold TrimSpace. apply trimRightSpace_inb, trimLeftSpace_inb, H. Qed.

Lemma TrimSuffix_inb (c : ascii) (s suf : string) :
  inb c s = false -> inb c (TrimSuffix s suf) = false.
Proof.
  intros H. unfold TrimSuffix. destruct (HasSuffix s suf); [apply inb_take, H | exact H].
Qed.

Lemma replaceLoop_cons (old new : string) (c : ascii) (s : string) :
  replaceLoop old new 0 (String c s)
  = if String.prefix old (String c s)
    then (new ++ replaceLoop old new (len old - 1) s)%string
    else String c (replaceLoop old new 0 s).
Proof. reflexivity. Qed.

(** Deleting the byte [c] leaves no [c], and puts no other byte in. *)
Lemma ReplaceAll_delete (c d : ascii) (s : string) :
  inb c (ReplaceAll s (String c "") "") = false
  /\ (inb d s = false -> inb d (ReplaceAll s (String c "") "") = false).
Proof.
  unfold ReplaceAll. induction s as [|x s [IH1 IH2]]; [split; reflexivity|].
  rewrite replaceLoop_cons, prefix_single. cbn [len String.length Nat.sub append].
  destruct (Ascii.eqb c x) eqn:E.
  - split; [exact IH1|]. intros H. cbn [inb] in H.
    apply orb_false_iff in H. apply IH2, H.
  - split.
    + cbn [inb]. rewrite E, IH1. reflexivity.
    + intros H. cbn [inb] in H |- *. apply orb_false_iff in H. destruct H as [Hx Hs].
      rewrite Hx, (IH2 Hs). reflexivity.
Qed.

Lemma splitLoop_parts (c : ascii) (cur s : string) :
  inb c cur = false ->
  Forall (fun part => inb c part = false) (splitLoop (String c "") 0 cur s).
Proof.
  revert cur. induction s as [|x s IH]; intros cur H.
  - cbn. repeat constructor. exact H.
  - rewrite splitLoop_cons, prefix_single. cbn [len String.length Nat.sub].
    destruct (Ascii.eqb c x) eqn:E.
    + constructor; [exact H | apply IH; reflexivity].
    + apply IH. rewrite inb_app, H. cbn [inb]. rewrite E. reflexivity.
Qed.

Lemma HasPrefix_take (s p : string) (n : nat) :
  HasPrefix (take n s) p = true -> HasPrefix s p = true.
Proof.
  unfold HasPrefix. revert s n. induction p as [|c p IH]; intros s n H.
  - destruct s; reflexivity.
  - destruct s as [|x s]; [destruct n; discriminate|].
    destruct n as [|n]; [discriminate|]. cbn [take] in H.
    rewrite prefix_cons in H |- *. apply andb_true_iff in H. destruct H as [Hc Hp].
    rewrite Hc, (IH s n Hp). reflexivity.
Qed.

(** What [readDevbackIgnore] keeps of one line. *)
Definition cleanLine (line : string) : string :=
  TrimSpace (ReplaceAll line CR "").

Lemma ignoreLines_in (lines : list string) (p : string) :
  In p (ignoreLines lines) ->
  exists line, In line lines /\ p = TrimSuffix (cleanLine line) "/"
               /\ cleanLine line <> "" /\ HasPrefix (cleanLine line) "#" = false.
Proof.
  induction lines as [|line rest IH]; [contradiction|].
  cbn [ignoreLines]. fold (cleanLine line).
  destruct (String.eqb_spec (cleanLine line) "") as [E|E]; cbn [orb].
  - intros H. destruct (IH H) as (l & Hl & Hp). exists l. split; [now right | exact Hp].
  - destruct (HasPrefix (cleanLine line) "#") eqn:Eh.
    + intros H. destruct (IH H) as (l & Hl & Hp). exists l.
      split; [now right | exact Hp].
    + intros [<-|H].
      * exists line. repeat split; [now left | exact E | exact Eh].
      * destruct (IH H) as (l & Hl & Hp). exists l. split; [now right | exact Hp].
Qed.

(** X21. The patterns read from [.devbackignore]: none of them contains
    a line feed or a carriage return, none starts with [#], and there are
    at most as many patterns as the file has lines; blank lines and
    comment lines give no pattern. *)
Theorem parseDevbackIgnore_patterns (data : string) :
  (length (parseDevbackIgnore data) <= length (Split data LF))%nat
  /\ Forall
       (fun p => inb (ascii_of_nat 10) p = false /\ inb (ascii_of_nat 13) p = false
                 /\ HasPrefix p "#" = false)
       (parseDevbackIgnore data).
Proof.
  split.
  - unfold parseDevbackIgnore. induction (Split data LF) as [|line rest IH];
      [constructor|].
    cbn [ignoreLines length].
    destruct (String.eqb _ "" || HasPrefix _ "#"); cbn [length]; lia.
  - apply Forall_forall. intros p Hp. unfold parseDevbackIgnore in Hp.
    destruct (ignoreLines_in _ _ Hp) as (line & Hline & -> & Hne & Hhash).
    pose proof (splitLoop_parts (ascii_of_nat 10) "" data eq_refl) as Hparts.
    rewrite Forall_forall in Hparts. specialize (Hparts line Hline).
    destruct (ReplaceAll_delete (ascii_of_nat 13) (ascii_of_nat 10) line) as [Hcr Hlf].
    split; [|split].
    + apply TrimSuffix_inb, TrimSpace_inb, Hlf, Hparts.
    + apply TrimSuffix_inb, TrimSpace_inb, Hcr.
    + unfold TrimSuffix. destruct (HasSuffix (cleanLine line) "/"); [|exact Hhash].
      destruct (HasPrefix (take _ (cleanLine line)) "#") eqn:E; [|reflexivity].
      apply HasPrefix_take in E. congruence.
Qed.

Lemma shouldSkipLoop_first (np : string) (excludes : list string) :
  let out := shouldSkipLoop np excludes in
  if fst out
  then exists before after,
         excludes = before ++ snd out :: after
         /\ specPatternMatches (normalize (snd out)) np = true
         /\ Forall (fun e => specPatternMatches (normalize e) np = false) before
  else snd out = ""
       /\ Forall (fun e => specPatternMatches (normalize e) np = false) excludes.
Proof.
  cbv zeta. induction excludes as [|ex rest IH].
  - cbn. split; [reflexivity | constructor].
  - cbn [shouldSkipLoop]. fold (normalize ex).
    assert (Hspec : specPatternMatches (normalize ex) np
                    = if ContainsAny (normalize ex) "*?["
                      then if Contains (normalize ex) "/"
                           then fst (Match (normalize ex) np)
                           else fst (Match (normalize ex) (Base np))
                      else String.eqb np (normalize ex)
                           || HasPrefix np (normalize ex ++ "/")) by reflexivity.
    assert (Hstep :
              forall b : bool, specPatternMatches (normalize ex) np = b ->
                if fst (if b then (true, ex) else shouldSkipLoop np rest)
                then exists before after,
                       ex :: rest
                       = before ++ snd (if b then (true, ex)
                                        else shouldSkipLoop np rest) :: after
                       /\ specPatternMatches
                            (normalize (snd (if b then (true, ex)
                                             else shouldSkipLoop np rest))) np = true
                       /\ Forall (fun e => specPatternMatches (normalize e) np = false)
                            before
                else snd (if b then (true, ex) else shouldSkipLoop np rest) = ""
                     /\ Forall (fun e => specPatternMatches (normalize e) np = false)
                          (ex :: rest)).
    { intros [|] Hb.
      - cbn [fst snd]. exists [], rest. repeat split; [exact Hb | constructor].
      - destruct (fst (shouldSkipLoop np rest)).
        + destruct IH as (before & after & Heq & Hm & Hbefore).
          exists (ex :: before), after. repeat split.
          * cbn [app]. f_equal. exact Heq.
          * exact Hm.
          * constructor; assumption.
        + destruct IH as [Hs Hall]. split; [exact Hs | constructor; assumption]. }
    rewrite Hspec in Hstep.
    destruct (ContainsAny (normalize ex) "*?[").
    + destruct (Contains (normalize ex) "/").
      * apply (Hstep _ eq_refl).
      * apply (Hstep _ eq_refl).
    + apply (Hstep _ eq_refl).
Qed.

(** X22. What [shouldSkip] reports: when it skips a path, the pattern it
    returns is the first pattern of the list that matches (no earlier one
    does), returned as written in the list; when it does not skip, no
    pattern of the list matches and the returned pattern is empty. *)
Theorem shouldSkip_reports_first_match (p : string) (excludes : list string) :
  let out := shouldSkip p excludes in
  if fst out
  then exists before after,
         excludes = before ++ snd out :: after
         /\ specPatternMatches (normalize (snd out)) (normalize p) = true
         /\ Forall (fun e => specPatternMatches (normalize e) (normalize p) = false)
              before
  else snd out = ""
       /\ Forall (fun e => specPatternMatches (normalize e) (normalize p) = false)
            excludes.
Proof. exact (shouldSkipLoop_first (normalize p) excludes). Qed.

End ExcludeMore.
